(** * A multi-threaded HTTP server: model of [server.py] and its properties

    The development embeds the request parser, the Host validator, the path
    resolver, the GET and POST responders, the connection handler and the
    worker-pool admission of [multi_thread_http_server/server.py] as Rocq
    functions, and settles the properties stated about them.

    Conventions.
    - Python [str] and [bytes] values are both [string]: a sequence of
      characters with codes 0..255.  For wire data this is exact, the
      source decodes and encodes with ISO-8859-1, a bijection between
      bytes and the code points 0..255.
    - A Python [dict] used as a map is a [gmap]; a [dict] whose order is
      observable (response headers) is an association list.
    - Library calls whose behaviour is not part of the repository
      ([int], [urlparse], [unquote], [json]), the clock and the random
      generator, and the way the writing of an upload file ends, are fields
      of the class [Env]; the theorems hold for every environment, and the
      module [Sample] gives one to run the model on concrete requests.  The
      round trip of an upload is stated for the JSON reader and writer of
      that module, for which it is proved.
    - A call that may raise returns an [option] or an [outcome]. *)

From Stdlib Require Import ZArith Ascii String List Bool Lia.
From stdpp Require Import base option list gmap strings pretty.

Import ListNotations.
Local Open Scope string_scope.
Local Open Scope Z_scope.

#[local] Arguments String.append !_ _ /.

(** ** Python text primitives *)

Module Text.

Definition CR : ascii := "013"%char.
Definition LF : ascii := "010"%char.
Definition DQUOTE : ascii := "034"%char.
Definition NUL : ascii := "000"%char.

Definition CRLF : string := String CR (String LF EmptyString).
Definition CRLFCRLF : string := CRLF ++ CRLF.

Definition is_empty (s : string) : bool :=
  match s with EmptyString => true | String _ _ => false end.

(** [str.isspace] on the code points 0..255. *)
Definition is_space (c : ascii) : bool :=
  let n := nat_of_ascii c in
  ((9 <=? n) && (n <=? 13) || (28 <=? n) && (n <=? 32)
   || (n =? 133) || (n =? 160))%nat.

(** [s.startswith(p)] *)
Fixpoint startswith (p s : string) : bool :=
  match p, s with
  | EmptyString, _ => true
  | String a p', String b s' => if Ascii.eqb a b then startswith p' s' else false
  | String _ _, EmptyString => false
  end.

(** [s[n:]] *)
Fixpoint drop (n : nat) (s : string) : string :=
  match n, s with
  | O, _ => s
  | S n', String _ s' => drop n' s'
  | S _, EmptyString => EmptyString
  end.

(** [s[:n]] *)
Fixpoint take (n : nat) (s : string) : string :=
  match n, s with
  | O, _ => EmptyString
  | S n', String c s' => String c (take n' s')
  | S _, EmptyString => EmptyString
  end.

(** [sub in s] *)
Fixpoint contains (sub s : string) : bool :=
  startswith sub s ||
  match s with
  | EmptyString => false
  | String _ s' => contains sub s'
  end.

(** [s.split(sep, 1)] and [s.partition(sep)]: the text before and after
    the first occurrence of [sep], or [None] when there is none. *)
Fixpoint partition (sep s : string) : option (string * string) :=
  if startswith sep s then Some (EmptyString, drop (String.length sep) s)
  else match s with
       | EmptyString => None
       | String c s' =>
           match partition sep s' with
           | Some (a, b) => Some (String c a, b)
           | None => None
           end
       end.

(** The first element of [s.split(sep, 1)]. *)
Definition before_first (sep s : string) : string :=
  match partition sep s with Some (a, _) => a | None => s end.

(** [s.split(sep)] for a non-empty [sep].  Every round consumes at least
    the separator, so [String.length s] rounds are enough
    (lemma [split_fuel_enough]). *)
Fixpoint split_fuel (fuel : nat) (sep s : string) : list string :=
  match partition sep s with
  | None => [s]
  | Some (a, b) =>
      a :: match fuel with
           | O => [b]
           | S fuel' => split_fuel fuel' sep b
           end
  end.

Definition split (sep s : string) : list string :=
  split_fuel (String.length s) sep s.

(** [sep.join(l)] *)
Fixpoint join (sep : string) (l : list string) : string :=
  match l with
  | [] => EmptyString
  | [a] => a
  | a :: l' => a ++ sep ++ join sep l'
  end.

(** [s.split()]: the maximal runs of non-space characters. *)
Fixpoint words_from (cur : string) (s : string) : list string :=
  match s with
  | EmptyString => if is_empty cur then [] else [cur]
  | String c s' =>
      if is_space c
      then (if is_empty cur then words_from EmptyString s'
            else cur :: words_from EmptyString s')
      else words_from (cur ++ String c EmptyString) s'
  end.

Definition words (s : string) : list string := words_from EmptyString s.

(** [s.lstrip()], [s.rstrip()], [s.strip()] *)
Fixpoint lstrip (s : string) : string :=
  match s with
  | EmptyString => EmptyString
  | String c s' => if is_space c then lstrip s' else s
  end.

Fixpoint rstrip (s : string) : string :=
  match s with
  | EmptyString => EmptyString
  | String c s' =>
      let r := rstrip s' in
      if is_empty r && is_space c then EmptyString else String c r
  end.

Definition strip (s : string) : string := rstrip (lstrip s).

(** [str.lower] on the code points 0..255: the ASCII capitals and the
    Latin-1 capitals 0xC0..0xDE other than the multiplication sign. *)
Definition lower_char (c : ascii) : ascii :=
  let n := nat_of_ascii c in
  if ((65 <=? n) && (n <=? 90)
      || (192 <=? n) && (n <=? 222) && negb (n =? 215))%nat
  then ascii_of_nat (n + 32) else c.

Fixpoint lower (s : string) : string :=
  match s with
  | EmptyString => EmptyString
  | String c s' => String (lower_char c) (lower s')
  end.

(** [str(n)] and [f"{n}"] for an [int]. *)
Definition str_of_Z (n : Z) : string := pretty n.

End Text.

Import Text.


(** [s.encode("utf-8")] for code points 0..255. *)
Definition utf8_char (c : ascii) : string :=
  let n := nat_of_ascii c in
  if (n <? 128)%nat then String c EmptyString
  else String (ascii_of_nat (192 + n / 64))
         (String (ascii_of_nat (128 + n mod 64)) EmptyString).

Fixpoint encode_utf8 (s : string) : string :=
  match s with
  | EmptyString => EmptyString
  | String c s' => utf8_char c ++ encode_utf8 s'
  end.

Definition len (s : string) : Z := Z.of_nat (String.length s).

(** ** Results of calls that may raise *)

Inductive outcome (A : Type) : Type :=
| Returns (a : A)
| Raises.
Arguments Returns {A} a.
Arguments Raises {A}.

(** ** The environment of the server

    What the server reads from the Python library, from the clock, from the
    random generator and from its start-up configuration.
    - [py_int s] is [int(s)]; [None] stands for [ValueError].
    - [urlparse_path s] is [urlparse(s).path]; [None] stands for the
      [ValueError] that [urlparse] raises on a malformed authority.
    - [unquote] is [urllib.parse.unquote].
    - [json_loads b] is [json.loads(b.decode("utf-8"))]; [None] stands for a
      decoding or parsing error.  [json_dump v] is the text written by
      [json.dump(v, f, indent=2)].
    - [rfc7231_date] is the reading of [rfc7231_date()], [clock_now] that of
      [datetime.datetime.now()], and [random_draw i] the index chosen by the
      [i]-th draw of [random.choices].
    - [write_fault] tells how the writing of an opened upload file ends:
      [None] when [json.dump] writes the whole text and the file is closed;
      [Some n] when an exception ([OSError] of a full disk or a failing
      device, or one raised inside [json.dump]) ends it after [n] characters
      have reached the file. *)

Record datetime := DateTime {
  dt_year : nat; dt_month : nat; dt_day : nat;
  dt_hour : nat; dt_minute : nat; dt_second : nat
}.

Class Env := {
  py_int : string -> option Z;
  urlparse_path : string -> option string;
  unquote : string -> string;
  json : Type;
  json_loads : string -> option json;
  json_dump : json -> string;
  rfc7231_date : string;
  clock_now : datetime;
  random_draw : nat -> nat;
  write_fault : option nat;
  RESOURCE_DIR : string;
  SERVER_HOST : string;
  SERVER_PORT : Z
}.

(** ** Configuration constants *)

Definition CONN_QUEUE_MAX : nat := 200.
Definition MAX_REQUEST_READ : nat := Z.to_nat 8192.
Definition FILE_READ_CHUNK : nat := Z.to_nat 8192.
Definition KEEP_ALIVE_TIMEOUT : Z := 30.
Definition KEEP_ALIVE_MAX_REQUESTS : nat := 100.
Definition SERVER_NAME : string := "Multi-threaded HTTP Server".
Definition SUPPORTED_BINARY : list string := [".txt"; ".png"; ".jpg"; ".jpeg"].
Definition TEXT_HTML : string := "text/html; charset=utf-8".

(** ** Request parsing *)

Record request := Request {
  req_method : string;
  req_path : string;
  req_version : string;
  req_headers : gmap string string;
  req_body : string
}.

(** One line of the head: [k, v = hdr.split(":", 1)] when [":" in hdr],
    both stripped. *)
Definition header_field (hdr : string) : option (string * string) :=
  match partition ":" hdr with
  | Some (k, v) => Some (strip k, strip v)
  | None => None
  end.

Definition add_header (headers : gmap string string) (hdr : string)
  : gmap string string :=
  match header_field hdr with
  | Some (k, v) => <[k := v]> headers
  | None => headers
  end.

Definition head_of (raw : string) : string :=
  match partition CRLFCRLF raw with Some (h, _) => h | None => raw end.

Definition body_of (raw : string) : string :=
  match partition CRLFCRLF raw with Some (_, b) => b | None => EmptyString end.

Definition parse_http_request (raw_bytes : string) : option request :=
  let head := head_of raw_bytes in
  let body := body_of raw_bytes in
  match split CRLF head with
  | [] => None
  | line0 :: hdrs =>
      match words line0 with
      | [method; path; version] =>
          Some (Request method path version (fold_left add_header hdrs ∅) body)
      | _ => None
      end
  end.

(** ** Host header validation *)

Inductive host_check :=
| HostOk (host_port : string)
| HostRejected (status : Z).

Definition host_port_text (host : string) (port : Z) : string :=
  host ++ ":" ++ str_of_Z port.

Definition is_local_name (server_host : string) : bool :=
  String.eqb server_host "127.0.0.1" || String.eqb server_host "localhost".

Definition acceptable_hosts (server_host : string) (server_port : Z)
  : gset string :=
  let s0 : gset string := {[ host_port_text server_host server_port ]} in
  let s1 :=
    if is_local_name server_host
    then s0 ∪ {[ host_port_text "localhost" server_port ]}
            ∪ {[ host_port_text "127.0.0.1" server_port ]}
    else s0 in
  if String.eqb server_host "0.0.0.0"
  then s1 ∪ {[ host_port_text "localhost" server_port ]}
          ∪ {[ host_port_text "127.0.0.1" server_port ]}
  else s1.

Section HostValidator.
Context `{Env}.

(** The [host, port] pair read from a stripped header value; [None] when
    the port text is refused by [int]. *)
Definition split_host_port (host_header : string) (server_port : Z)
  : option (string * Z) :=
  match partition ":" host_header with
  | Some (host, port) =>
      match py_int port with
      | Some p => Some (host, p)
      | None => None
      end
  | None => Some (host_header, server_port)
  end.

Definition valid_host_header (host_header : option string)
    (server_host : string) (server_port : Z) : host_check :=
  match host_header with
  | None => HostRejected 400
  | Some hh =>
      if is_empty hh then HostRejected 400
      else
        match split_host_port (strip hh) server_port with
        | None => HostRejected 400
        | Some (host, port) =>
            if decide (host_port_text host port
                         ∈ acceptable_hosts server_host server_port)
            then HostOk (host_port_text host port)
            else HostRejected 403
        end
  end.

End HostValidator.

(** ** Keep-alive decision *)

Definition header_get (headers : gmap string string) (name : string)
    (dflt : string) : string :=
  match headers !! name with Some v => v | None => dflt end.

Definition keep_alive_decision (version : string)
    (headers : gmap string string) : bool :=
  let conn_hdr := lower (header_get headers "Connection" EmptyString) in
  if String.eqb version "HTTP/1.1"
  then negb (String.eqb conn_hdr "close")
  else String.eqb conn_hdr "keep-alive".

(** ** Responses and the socket *)

Record response := Response {
  resp_status : Z;
  resp_reason : string;
  resp_headers : list (string * string);
  resp_body : string
}.

Definition has_key (k : string) (h : list (string * string)) : bool :=
  existsb (fun kv => String.eqb (fst kv) k) h.

(** [h.setdefault(k, v)] on an insertion-ordered [dict]. *)
Definition setdefault (k v : string) (h : list (string * string))
  : list (string * string) :=
  if has_key k h then h else (h ++ [(k, v)])%list.

(** [h[k] = v] on an insertion-ordered [dict]. *)
Fixpoint dict_set (k v : string) (h : list (string * string))
  : list (string * string) :=
  match h with
  | [] => [(k, v)]
  | (k', v') :: h' =>
      if String.eqb k' k then (k', v) :: h' else (k', v') :: dict_set k v h'
  end.

Definition dict_update (h extra : list (string * string))
  : list (string * string) :=
  fold_left (fun acc kv => dict_set (fst kv) (snd kv) acc) extra h.

(** [h.get(k)] *)
Fixpoint header_value (k : string) (h : list (string * string))
  : option string :=
  match h with
  | [] => None
  | (k', v) :: h' => if String.eqb k' k then Some v else header_value k h'
  end.

(** The bytes that [make_response] returns for the fields of a response. *)
Definition response_bytes (r : response) : string :=
  encode_utf8
    ("HTTP/1.1 " ++ str_of_Z (resp_status r) ++ " " ++ resp_reason r ++ CRLF
     ++ String.concat EmptyString
          (map (fun kv => fst kv ++ ": " ++ snd kv ++ CRLF) (resp_headers r))
     ++ CRLF)
  ++ resp_body r.

(** What a worker or the accept loop does to one client socket.  A write
    to the socket is taken to succeed: the exception of a failed write is
    outside the model. *)
Inductive sock_event :=
| Sent (r : response)      (* [sock.sendall(make_response(...))] *)
| SentRaw (chunk : string) (* [sock.sendall(chunk)] *)
| Shutdown                 (* [sock.shutdown(SHUT_RDWR)] *)
| Closed.                  (* [sock.close()] *)

Section Responses.
Context `{Env}.

(** [make_response]: the fields of the response; [body] is given as bytes
    (a [str] body is encoded by the caller's [encode_utf8]). *)
Definition make_response (status_code : Z) (reason : string)
    (headers : list (string * string)) (body : string) : response :=
  let hdrs := setdefault "Date" rfc7231_date headers in
  let hdrs := setdefault "Server" SERVER_NAME hdrs in
  let hdrs := setdefault "Content-Length" (str_of_Z (len body)) hdrs in
  Response status_code reason hdrs body.

Definition error_body (status_code : Z) (reason : string) : string :=
  "<html><body><h1>" ++ str_of_Z status_code ++ " " ++ reason
  ++ "</h1></body></html>".

(** [send_error]: the event it adds to the socket. *)
Definition send_error (status_code : Z) (reason : string)
    (extra_headers : list (string * string)) : sock_event :=
  let headers := dict_update [("Content-Type", TEXT_HTML)] extra_headers in
  Sent (make_response status_code reason headers
          (encode_utf8 (error_body status_code reason))).

Definition connection_value (keep_alive : bool) : string :=
  if keep_alive then "keep-alive" else "close".

End Responses.

(** ** The file system *)

Inductive node :=
| File (content : string) (readable : bool)
| Dir
| Symlink (target : string).

Abbreviation filesystem := (gmap string node).

Module Path.

Definition abs_path (comps : list string) : string :=
  String "/" (join "/" comps).

Fixpoint last_char (s : string) : option ascii :=
  match s with
  | EmptyString => None
  | String c s' =>
      match last_char s' with Some d => Some d | None => Some c end
  end.

(** [os.path.join(a, b)] *)
Definition path_join (a b : string) : string :=
  if startswith "/" b then b
  else match last_char a with
       | None => a ++ b
       | Some c => if Ascii.eqb c "/" then a ++ b else a ++ "/" ++ b
       end.

(** The text after the last [c], when [c] occurs. *)
Fixpoint after_last (c : ascii) (s : string) : option string :=
  match s with
  | EmptyString => None
  | String a s' =>
      match after_last c s' with
      | Some r => Some r
      | None => if Ascii.eqb a c then Some s' else None
      end
  end.

(** [os.path.basename(p)] *)
Definition basename (p : string) : string :=
  match after_last "/" p with Some b => b | None => p end.

Fixpoint all_dots (s : string) : bool :=
  match s with
  | EmptyString => true
  | String c s' => Ascii.eqb c "." && all_dots s'
  end.

(** The second component of [os.path.splitext(p)]: the text from the last
    dot of the base name on, unless only dots come before it. *)
Definition splitext_ext (p : string) : string :=
  let name := basename p in
  match after_last "." name with
  | None => EmptyString
  | Some e =>
      let stem := take (String.length name - String.length e - 1) name in
      if all_dots stem then EmptyString else String "." e
  end.

Definition is_skip (name : string) : bool :=
  is_empty name || String.eqb name ".".

(** [os.readlink(p)] when [os.lstat(p)] finds a link. *)
Definition readlink (fs : filesystem) (p : string) : option string :=
  match fs !! p with
  | Some (Symlink target) => Some target
  | _ => None
  end.

(** [posixpath._joinrealpath] on an absolute path, as lists of components:
    [path] is resolved already, [rest] is still to walk.  The [seen] table of
    the library bounds the nesting of links under resolution by the number of
    links; here [fuel] bounds it. *)
Fixpoint joinrealpath (fuel : nat) (fs : filesystem)
  : list string -> list string -> list string * bool :=
  fix walk (path rest : list string) {struct rest} : list string * bool :=
    match rest with
    | [] => (path, true)
    | name :: rest' =>
        if is_skip name then walk path rest'
        else if String.eqb name ".." then walk (removelast path) rest'
        else
          let newpath := (path ++ [name])%list in
          match readlink fs (abs_path newpath) with
          | Some target =>
              match fuel with
              | O => ((newpath ++ rest')%list, false)
              | S fuel' =>
                  let start := if startswith "/" target then [] else path in
                  let '(path', ok) :=
                    joinrealpath fuel' fs start (split "/" target) in
                  if ok then walk path' rest' else ((path' ++ rest')%list, false)
              end
          | None => walk newpath rest'
          end
    end.

(** [os.path.normpath] on the components of an absolute path. *)
Fixpoint normpath (acc : list string) (rest : list string) : list string :=
  match rest with
  | [] => acc
  | name :: rest' =>
      if is_skip name then normpath acc rest'
      else if String.eqb name ".." then normpath (removelast acc) rest'
      else normpath (acc ++ [name])%list rest'
  end.

Definition resolve (fs : filesystem) (p : string) : list string * bool :=
  joinrealpath (size fs) fs [] (split "/" p).

(** [os.path.realpath(p)] for an absolute [p]; [None] stands for the
    [ValueError] raised on an embedded null character. *)
Definition realpath (fs : filesystem) (p : string) : option string :=
  if contains (String NUL EmptyString) p then None
  else Some (abs_path (normpath [] (fst (resolve fs p)))).

(** [os.stat(p)]: the node that [p] leads to, following links. *)
Definition stat (fs : filesystem) (p : string) : option node :=
  if contains (String NUL EmptyString) p then None
  else
    let '(comps, ok) := resolve fs p in
    if ok then
      match comps with
      | [] => Some Dir
      | _ => match fs !! abs_path comps with
             | Some (Symlink _) => None
             | r => r
             end
      end
    else None.

(** [os.path.exists(p)] *)
Definition exists_ (fs : filesystem) (p : string) : bool :=
  match stat fs p with Some _ => true | None => false end.

(** [os.path.isfile(p)] *)
Definition isfile (fs : filesystem) (p : string) : bool :=
  match stat fs p with Some (File _ _) => true | _ => false end.

(** [os.path.getsize(p)]; [None] stands for [OSError]. *)
Definition getsize (fs : filesystem) (p : string) : option Z :=
  match stat fs p with
  | Some (File content _) => Some (len content)
  | _ => None
  end.

(** [open(p, "rb").read()]; [None] stands for [OSError]. *)
Definition read_file (fs : filesystem) (p : string) : option string :=
  match stat fs p with
  | Some (File content true) => Some content
  | _ => None
  end.

(** [open(p, "w")]: the entry that [p] leads to and the mode of the file
    that is truncated or created there; [None] stands for [OSError]: the
    directory is missing, or [p] leads to a directory or into a loop of
    links.  The file is empty once it is open. *)
Definition open_write (fs : filesystem) (p : string)
  : option (string * bool) :=
  if contains (String NUL EmptyString) p then None
  else
    let '(comps, ok) := resolve fs p in
    if ok then
      match stat fs (abs_path (removelast comps)), comps with
      | Some Dir, _ :: _ =>
          match fs !! abs_path comps with
          | Some Dir | Some (Symlink _) => None
          | Some (File _ r) => Some (abs_path comps, r)
          | None => Some (abs_path comps, true)
          end
      | _, _ => None
      end
    else None.

(** [with open(p, "w") as f: json.dump(...)] that ends without exception:
    the file system it leaves, holding the whole [content]; [None] when the
    file cannot be opened or the writing is interrupted. *)
Definition write_file `{Env} (fs : filesystem) (p : string) (content : string)
  : option filesystem :=
  match open_write fs p, write_fault with
  | Some (k, r), None => Some (<[k := File content r]> fs)
  | _, _ => None
  end.

(** What the same statement leaves when it ends with an exception: nothing
    changed when the file could not be opened; otherwise the file, created
    or truncated by [open], holds the characters written before the
    interruption. *)
Definition failed_write `{Env} (fs : filesystem) (p : string)
    (content : string) : filesystem :=
  match open_write fs p, write_fault with
  | Some (k, r), Some n => <[k := File (take n content) r]> fs
  | _, _ => fs
  end.

(** Directory prefix: [p] is [root] or lies below it. *)
Definition is_dir_prefix (root p : string) : bool :=
  String.eqb p root
  || match last_char root with
     | Some c => if Ascii.eqb c "/" then startswith root p
                 else startswith (root ++ "/") p
     | None => false
     end.

End Path.

Import Path.

(** ** Path resolver *)

Section Resolver.
Context `{Env}.

Definition UPLOADS_DIR : string := path_join RESOURCE_DIR "uploads".

(** The decoded path of a request target: [unquote(urlparse(path).path)]. *)
Definition decoded_path (path : string) : option string :=
  match urlparse_path path with
  | Some p => Some (unquote p)
  | None => None
  end.

(** The relative path that is joined to the resource root. *)
Definition relative_path (clean_path : string) : string :=
  let clean_path :=
    if startswith "/" clean_path then drop 1 clean_path else clean_path in
  if is_empty clean_path then "index.html" else clean_path.

Definition safe_join_resources (fs : filesystem) (path : string)
  : outcome (option string) :=
  if is_empty path then Returns None
  else
    match decoded_path path with
    | None => Raises
    | Some clean_path =>
        if contains ".." clean_path || startswith "//" clean_path
        then Returns None
        else
          let candidate := path_join RESOURCE_DIR (relative_path clean_path) in
          match realpath fs candidate, realpath fs RESOURCE_DIR with
          | Some cand_real, Some res_real =>
              if startswith res_real cand_real
              then Returns (Some cand_real)
              else Returns None
          | _, _ => Returns None
          end
    end.

End Resolver.

(** ** GET *)

(** The reads [f.read(FILE_READ_CHUNK)] of a file, up to the empty one. *)
Fixpoint chunks_fuel (fuel n : nat) (content : string) : list string :=
  match fuel with
  | O => []
  | S fuel' =>
      if is_empty (take n content) then []
      else take n content :: chunks_fuel fuel' n (drop n content)
  end.

Definition file_chunks (content : string) : list string :=
  chunks_fuel (String.length content) FILE_READ_CHUNK content.

Section Get.
Context `{Env}.

Definition html_headers (content : string) (keep_alive : bool)
  : list (string * string) :=
  [("Content-Type", TEXT_HTML);
   ("Content-Length", str_of_Z (len content));
   ("Connection", connection_value keep_alive);
   ("Keep-Alive",
    "timeout=" ++ str_of_Z KEEP_ALIVE_TIMEOUT ++ ", max="
    ++ str_of_Z (Z.of_nat KEEP_ALIVE_MAX_REQUESTS))].

Definition binary_headers (file_size : Z) (filename : string)
    (keep_alive : bool) : list (string * string) :=
  [("Content-Type", "application/octet-stream");
   ("Content-Length", str_of_Z file_size);
   ("Content-Disposition",
    "attachment; filename=" ++ String DQUOTE filename
    ++ String DQUOTE EmptyString);
   ("Connection", connection_value keep_alive)].

Definition internal_error : sock_event :=
  send_error 500 "Internal Server Error" [].

(** The body of the [try] of [handle_get], for an existing regular file. *)
Definition serve_file (fs : filesystem) (file_path : string)
    (keep_alive : bool) : list sock_event :=
  let ext := lower (splitext_ext file_path) in
  if String.eqb ext ".html" then
    match read_file fs file_path with
    | Some content =>
        [Sent (make_response 200 "OK" (html_headers content keep_alive) content)]
    | None => [internal_error]
    end
  else if existsb (String.eqb ext) SUPPORTED_BINARY then
    match getsize fs file_path with
    | Some file_size =>
        Sent (make_response 200 "OK"
                (binary_headers file_size (basename file_path) keep_alive)
                EmptyString)
        :: match read_file fs file_path with
           | Some content => map SentRaw (file_chunks content)
           | None => [internal_error]
           end
    | None => [internal_error]
    end
  else [send_error 415 "Unsupported Media Type" []].

(** [handle_get]: the events it adds to the socket, or the exception that
    leaves it (raised by [urlparse] before the [try]). *)
Definition handle_get (fs : filesystem) (path : string) (keep_alive : bool)
  : outcome (list sock_event) :=
  match safe_join_resources fs path with
  | Raises => Raises
  | Returns None => Returns [send_error 404 "Not Found" []]
  | Returns (Some file_path) =>
      if negb (exists_ fs file_path) || negb (isfile fs file_path)
      then Returns [send_error 404 "Not Found" []]
      else Returns (serve_file fs file_path keep_alive)
  end.

End Get.

(** ** POST *)

Definition pad2 (n : nat) : string :=
  (if (n <? 10)%nat then "0" else EmptyString) ++ str_of_Z (Z.of_nat n).

Definition pad4 (n : nat) : string :=
  (if (n <? 10)%nat then "000"
   else if (n <? 100)%nat then "00"
   else if (n <? 1000)%nat then "0" else EmptyString)
  ++ str_of_Z (Z.of_nat n).

(** [t.strftime("%Y%m%d_%H%M%S")] *)
Definition strftime_stamp (t : datetime) : string :=
  pad4 (dt_year t) ++ pad2 (dt_month t) ++ pad2 (dt_day t) ++ "_"
  ++ pad2 (dt_hour t) ++ pad2 (dt_minute t) ++ pad2 (dt_second t).

(** [string.ascii_lowercase + string.digits] *)
Definition ALPHABET : string := "abcdefghijklmnopqrstuvwxyz0123456789".

Definition char_at (s : string) (i : nat) : ascii :=
  match String.get i s with Some c => c | None => NUL end.

(** [''.join(random.choices(ALPHABET, k=4))]: each draw selects one index
    below the length of the alphabet. *)
Definition random_id (draw : nat -> nat) : string :=
  string_of_list_ascii
    (map (fun i => char_at ALPHABET (draw i mod String.length ALPHABET)%nat)
       [0; 1; 2; 3]%nat).

(** [json.dumps] of a string without characters that JSON escapes. *)
Definition json_quote (s : string) : string :=
  String DQUOTE s ++ String DQUOTE EmptyString.

(** [json.dumps] of a [dict] of such strings. *)
Definition json_dumps_dict (d : list (string * string)) : string :=
  "{" ++ join ", " (map (fun kv => json_quote (fst kv) ++ ": "
                                   ++ json_quote (snd kv)) d) ++ "}".

Section Post.
Context `{Env}.

Definition upload_filename : string :=
  "upload_" ++ strftime_stamp clock_now ++ "_" ++ random_id random_draw
  ++ ".json".

Definition upload_response_body (filename : string) : string :=
  encode_utf8
    (json_dumps_dict
       [("status", "success");
        ("message", "File created successfully");
        ("filepath", "/uploads/" ++ filename)]).

Definition upload_headers (body_out : string) (keep_alive : bool)
  : list (string * string) :=
  [("Content-Type", "application/json");
   ("Content-Length", str_of_Z (len body_out));
   ("Connection", connection_value keep_alive)].

(** The media type of a [Content-Type] value:
    [value.split(";", 1)[0].strip()]. *)
Definition media_type (value : string) : string :=
  strip (before_first ";" value).

(** [handle_post]: the events it adds to the socket and the file system it
    leaves. *)
Definition handle_post (fs : filesystem) (headers : gmap string string)
    (body_bytes : string) (keep_alive : bool)
  : list sock_event * filesystem :=
  let content_type := media_type (header_get headers "Content-Type" EmptyString) in
  if negb (String.eqb content_type "application/json")
  then ([send_error 415 "Unsupported Media Type" []], fs)
  else
    match json_loads body_bytes with
    | None => ([send_error 400 "Bad Request" []], fs)
    | Some data =>
        let filename := upload_filename in
        let filepath_abs := path_join UPLOADS_DIR filename in
        match write_file fs filepath_abs (json_dump data) with
        | Some fs' =>
            let body_out := upload_response_body filename in
            ([Sent (make_response 201 "Created"
                      (upload_headers body_out keep_alive) body_out)], fs')
        | None =>
            ([internal_error],
             failed_write fs filepath_abs (json_dump data))
        end
    end.

End Post.

(** ** The connection handler *)

(** What the next [recv] on a client socket meets.  An exhausted list is a
    peer that has shut down: [recv] returns the empty bytes. *)
Inductive recv_event :=
| Data (bytes : string)
| Silence
| Broken.

Inductive recv_result :=
| Got (bytes : string)
| TimedOut
| Failed.

(** [sock.recv(n)] *)
Definition sock_recv (n : nat) (inp : list recv_event)
  : recv_result * list recv_event :=
  match inp with
  | [] => (Got EmptyString, [])
  | Data d :: rest =>
      if (String.length d <=? n)%nat then (Got d, rest)
      else (Got (take n d), Data (drop n d) :: rest)
  | Silence :: rest => (TimedOut, rest)
  | Broken :: rest => (Failed, rest)
  end.

(** [recv_all]: one read of at most [MAX_REQUEST_READ] bytes; a timeout or
    an error gives the empty bytes. *)
Definition recv_all (inp : list recv_event) : string * list recv_event :=
  match sock_recv MAX_REQUEST_READ inp with
  | (Got d, inp') => (d, inp')
  | (_, inp') => (EmptyString, inp')
  end.

(** The supplementary read of the head:
    [if b"\r\n\r\n" not in raw: try: raw += sock.recv(4096)]. *)
Definition complete_head (raw : string) (inp : list recv_event)
  : string * list recv_event :=
  if contains CRLFCRLF raw then (raw, inp)
  else
    match sock_recv (Z.to_nat 4096) inp with
    | (Got d, inp') => (raw ++ d, inp')
    | (_, inp') => (raw, inp')
    end.

(** The loop [while remaining > 0] that completes a POST body.  Every round
    that goes on has received at least one byte, so [remaining] rounds are
    enough. *)
Fixpoint read_body (fuel : nat) (remaining : Z) (body : string)
    (inp : list recv_event) : string * list recv_event :=
  if remaining <=? 0 then (body, inp)
  else
    match fuel with
    | O => (body, inp)
    | S fuel' =>
        match sock_recv (Z.to_nat (Z.min 4096 remaining)) inp with
        | (Got chunk, inp') =>
            if is_empty chunk then (body, inp')
            else read_body fuel' (remaining - len chunk) (body ++ chunk) inp'
        | (_, inp') => (body, inp')
        end
    end.

Record connection := Connection {
  conn_in : list recv_event;   (* what the peer sends *)
  conn_out : list sock_event;  (* what was done to the socket, in order *)
  conn_fs : filesystem
}.

Definition emit (c : connection) (evs : list sock_event) : connection :=
  Connection (conn_in c) (conn_out c ++ evs)%list (conn_fs c).

Section Handler.
Context `{Env}.

(** The dispatch of a parsed and validated request.  The boolean tells
    whether the loop of the handler goes on. *)
Definition dispatch (req : request) (c : connection) : bool * connection :=
  let headers := req_headers req in
  let keep_alive := keep_alive_decision (req_version req) headers in
  if String.eqb (req_method req) "GET" then
    match handle_get (conn_fs c) (req_path req) keep_alive with
    | Returns evs => (keep_alive, emit c evs)
    | Raises => (false, emit c [internal_error])
    end
  else if String.eqb (req_method req) "POST" then
    let content_length := headers !! "Content-Length" in
    let completed :=
      match content_length with
      | Some cl =>
          if is_empty cl then Some (req_body req, conn_in c)
          else
            match py_int cl with
            | None => None
            | Some expected =>
                let remaining := expected - len (req_body req) in
                Some (read_body (Z.to_nat remaining) remaining
                        (req_body req) (conn_in c))
            end
      | None => Some (req_body req, conn_in c)
      end in
    match completed with
    | None => (false, emit c [send_error 400 "Bad Request" []])
    | Some (body, inp) =>
        let '(evs, fs') := handle_post (conn_fs c) headers body keep_alive in
        (keep_alive, Connection inp (conn_out c ++ evs)%list fs')
    end
  else (keep_alive, emit c [send_error 405 "Method Not Allowed" []]).

(** One round of the loop of [handle_client_connection]. *)
Definition handle_request (c : connection) : bool * connection :=
  let '(raw, inp) := recv_all (conn_in c) in
  if is_empty raw then (false, Connection inp (conn_out c) (conn_fs c))
  else
    let '(raw, inp) := complete_head raw inp in
    let c := Connection inp (conn_out c) (conn_fs c) in
    match parse_http_request raw with
    | None => (false, emit c [send_error 400 "Bad Request" []])
    | Some req =>
        match valid_host_header (req_headers req !! "Host")
                SERVER_HOST SERVER_PORT with
        | HostRejected status =>
            (false, emit c [send_error status "Host header invalid" []])
        | HostOk _ => dispatch req c
        end
    end.

(** The loop, at most [budget] requests. *)
Fixpoint serve (budget : nat) (c : connection) : connection :=
  match budget with
  | O => c
  | S budget' =>
      let '(again, c') := handle_request c in
      if again then serve budget' c' else c'
  end.

Definition handle_client_connection (c : connection) : connection :=
  emit (serve KEEP_ALIVE_MAX_REQUESTS c) [Shutdown; Closed].

End Handler.

(** ** The worker pool and the accept loop *)

(** The pending queue of [ThreadPool]: the connections submitted and not yet
    taken by a worker, oldest first. *)
Record thread_pool (A : Type) := ThreadPool {
  max_workers : nat;
  task_queue : list A
}.
Arguments ThreadPool {A}.
Arguments max_workers {A}.
Arguments task_queue {A}.

(** [queue.Queue.put_nowait] on a queue of capacity [CONN_QUEUE_MAX];
    [None] stands for [queue.Full]. *)
Definition put_nowait {A} (q : list A) (item : A) : option (list A) :=
  if (length q <? CONN_QUEUE_MAX)%nat then Some (q ++ [item])%list else None.

(** [ThreadPool.submit] *)
Definition submit {A} (pool : thread_pool A) (client : A)
  : bool * thread_pool A :=
  match put_nowait (task_queue pool) client with
  | Some q => (true, ThreadPool (max_workers pool) q)
  | None => (false, pool)
  end.

Section Accept.
Context `{Env}.

Definition busy_headers : list (string * string) :=
  [("Retry-After", "5"); ("Content-Type", TEXT_HTML); ("Connection", "close")].

Definition busy_body : string :=
  "<html><body><h1>503 Service Unavailable</h1></body></html>".

(** One round of the accept loop of [start_server] for an accepted
    [client]: the pool it leaves and what it does to the client socket.
    [delivered] tells whether [sendall] returns: when it raises (the peer
    has reset the connection), the [except Exception: pass] of the loop
    takes over and the [close()] that follows [sendall] is not reached. *)
Definition accept_step {A} (pool : thread_pool A) (client : A)
    (delivered : bool) : thread_pool A * list sock_event :=
  let '(accepted, pool') := submit pool client in
  if accepted then (pool', [])
  else if delivered then
    (pool',
     [Sent (make_response 503 "Service Unavailable" busy_headers
              (encode_utf8 busy_body));
      Closed])
  else (pool', []).

End Accept.

(** ** A sample environment

    Executable stand-ins for the library, used to run the model on concrete
    requests.  They follow the library on the inputs of the examples:
    [int_of_text] reads signed decimal numerals (no digit grouping),
    [url_path] reads origin-form targets (authority, parameters, query and
    fragment are cut off; no scheme), [percent_decode] decodes escapes below
    [%80], and the JSON reader and writer cover values without fractions,
    exponents and escaped characters. *)

Module Sample.

Definition digit_value (c : ascii) : option Z :=
  let n := nat_of_ascii c in
  if ((48 <=? n) && (n <=? 57))%nat then Some (Z.of_nat (n - 48)) else None.

Fixpoint digits_value (acc : Z) (s : string) : option Z :=
  match s with
  | EmptyString => Some acc
  | String c s' =>
      match digit_value c with
      | Some d => digits_value (10 * acc + d) s'
      | None => None
      end
  end.

Definition unsigned_of_text (s : string) : option Z :=
  if is_empty s then None else digits_value 0 s.

Definition int_of_text (s : string) : option Z :=
  match strip s with
  | String "-" r => option_map Z.opp (unsigned_of_text r)
  | String "+" r => unsigned_of_text r
  | r => unsigned_of_text r
  end.

(** The text before the first of the characters accepted by [stop]. *)
Fixpoint take_until (stop : ascii -> bool) (s : string) : string :=
  match s with
  | EmptyString => EmptyString
  | String c s' => if stop c then EmptyString else String c (take_until stop s')
  end.

Fixpoint drop_until (stop : ascii -> bool) (s : string) : string :=
  match s with
  | EmptyString => EmptyString
  | String c s' => if stop c then s else drop_until stop s'
  end.

Definition is_delim (c : ascii) : bool :=
  Ascii.eqb c "/" || Ascii.eqb c "?" || Ascii.eqb c "#".

Definition bad_brackets (netloc : string) : bool :=
  xorb (contains "[" netloc) (contains "]" netloc).

(** [_splitparams]: the parameters start at the first [;] of the last
    segment. *)
Definition cut_params (url : string) : string :=
  match after_last "/" url with
  | Some seg =>
      take (String.length url - String.length seg) url ++ before_first ";" seg
  | None => before_first ";" url
  end.

Definition url_path (url : string) : option string :=
  let after_netloc :=
    if startswith "//" url then
      let rest := drop 2 url in
      if bad_brackets (take_until is_delim rest) then None
      else Some (drop_until is_delim rest)
    else Some url in
  match after_netloc with
  | None => None
  | Some u => Some (cut_params (before_first "?" (before_first "#" u)))
  end.

Definition hex_value (c : ascii) : option nat :=
  let n := nat_of_ascii c in
  if ((48 <=? n) && (n <=? 57))%nat then Some (n - 48)%nat
  else if ((65 <=? n) && (n <=? 70))%nat then Some (n - 55)%nat
  else if ((97 <=? n) && (n <=? 102))%nat then Some (n - 87)%nat
  else None.

(** The character written by an escape below [%80] at the start of [s]. *)
Definition escape_at (s : string) : option ascii :=
  match s with
  | String "%" (String a (String b _)) =>
      match hex_value a, hex_value b with
      | Some x, Some y =>
          if (x <? 8)%nat then Some (ascii_of_nat (16 * x + y)) else None
      | _, _ => None
      end
  | _ => None
  end.

Fixpoint percent_decode_from (skip : nat) (s : string) : string :=
  match s with
  | EmptyString => EmptyString
  | String c s' =>
      match skip with
      | S k => percent_decode_from k s'
      | O =>
          match escape_at s with
          | Some ch => String ch (percent_decode_from 2 s')
          | None => String c (percent_decode_from 0 s')
          end
      end
  end.

Definition percent_decode (s : string) : string := percent_decode_from 0 s.

(** JSON values of the sample reader. *)
#[warnings="-register-all"]
Inductive jvalue :=
| JNull
| JBool (b : bool)
| JInt (n : Z)
| JString (s : string)
| JArray (items : list jvalue)
| JObject (members : list (string * jvalue)).

Definition is_json_space (c : ascii) : bool :=
  Ascii.eqb c " " || Ascii.eqb c "009" || Ascii.eqb c LF || Ascii.eqb c CR.

Fixpoint skip_space (s : string) : string :=
  match s with
  | String c s' => if is_json_space c then skip_space s' else s
  | EmptyString => EmptyString
  end.

Definition is_digit (c : ascii) : bool :=
  match digit_value c with Some _ => true | None => false end.

Definition plain_char (c : ascii) : bool :=
  let n := nat_of_ascii c in
  ((32 <=? n) && (n <? 128) && negb (n =? 34) && negb (n =? 92))%nat.

(** The characters of a string literal after its opening quote. *)
Fixpoint read_string (s : string) : option (string * string) :=
  match s with
  | EmptyString => None
  | String c s' =>
      if Ascii.eqb c DQUOTE then Some (EmptyString, s')
      else if plain_char c then
        match read_string s' with
        | Some (t, rest) => Some (String c t, rest)
        | None => None
        end
      else None
  end.

Definition read_number (s : string) : option (jvalue * string) :=
  let '(neg, s1) :=
    match s with String "-" r => (true, r) | _ => (false, s) end in
  let digits := take_until (fun c => negb (is_digit c)) s1 in
  let rest := drop (String.length digits) s1 in
  let well_formed :=
    negb (is_empty digits)
    && negb (startswith "0" digits && (1 <? String.length digits)%nat)
    && negb (startswith "." rest || startswith "e" rest || startswith "E" rest) in
  if well_formed then
    match digits_value 0 digits with
    | Some n => Some (JInt (if neg then - n else n), rest)
    | None => None
    end
  else None.

Definition read_literal (word : string) (v : jvalue) (s : string)
  : option (jvalue * string) :=
  if startswith word s then Some (v, drop (String.length word) s) else None.

Fixpoint set_member (k : string) (v : jvalue) (l : list (string * jvalue))
  : list (string * jvalue) :=
  match l with
  | [] => [(k, v)]
  | (k', v') :: l' =>
      if String.eqb k' k then (k', v) :: l' else (k', v') :: set_member k v l'
  end.

Fixpoint read_value (fuel : nat) (s : string) : option (jvalue * string) :=
  match fuel with
  | O => None
  | S fuel' =>
      match skip_space s with
      | String "n" _ as t => read_literal "null" JNull t
      | String "t" _ as t => read_literal "true" (JBool true) t
      | String "f" _ as t => read_literal "false" (JBool false) t
      | String "[" t =>
          match skip_space t with
          | String "]" rest => Some (JArray [], rest)
          | t' =>
              match read_items fuel' t' with
              | Some (items, rest) => Some (JArray items, rest)
              | None => None
              end
          end
      | String "{" t =>
          match skip_space t with
          | String "}" rest => Some (JObject [], rest)
          | t' =>
              match read_members fuel' [] t' with
              | Some (members, rest) => Some (JObject members, rest)
              | None => None
              end
          end
      | String c t as whole =>
          if Ascii.eqb c DQUOTE then
            match read_string t with
            | Some (str, rest) => Some (JString str, rest)
            | None => None
            end
          else read_number whole
      | EmptyString => None
      end
  end
with read_items (fuel : nat) (s : string) : option (list jvalue * string) :=
  match fuel with
  | O => None
  | S fuel' =>
      match read_value fuel' s with
      | Some (v, rest) =>
          match skip_space rest with
          | String "," rest' =>
              match read_items fuel' rest' with
              | Some (vs, rest'') => Some (v :: vs, rest'')
              | None => None
              end
          | String "]" rest' => Some ([v], rest')
          | _ => None
          end
      | None => None
      end
  end
with read_members (fuel : nat) (acc : list (string * jvalue)) (s : string)
  : option (list (string * jvalue) * string) :=
  match fuel with
  | O => None
  | S fuel' =>
      match skip_space s with
      | String c t =>
          if Ascii.eqb c DQUOTE then
            match read_string t with
            | Some (k, rest) =>
                match skip_space rest with
                | String ":" rest1 =>
                    match read_value fuel' rest1 with
                    | Some (v, rest2) =>
                        let acc' := set_member k v acc in
                        match skip_space rest2 with
                        | String "," rest3 => read_members fuel' acc' rest3
                        | String "}" rest3 => Some (acc', rest3)
                        | _ => None
                        end
                    | None => None
                    end
                | _ => None
                end
            | None => None
            end
          else None
      | EmptyString => None
      end
  end.

Definition loads (body : string) : option jvalue :=
  match read_value (S (String.length body)) body with
  | Some (v, rest) => if is_empty (skip_space rest) then Some v else None
  | None => None
  end.

Fixpoint spaces (n : nat) : string :=
  match n with O => EmptyString | S n' => String " " (spaces n') end.

Definition newline (level : nat) : string :=
  String LF (spaces (2 * level)).

(** The text of [json.dump(v, f, indent=2)] at nesting depth [level]. *)
Fixpoint dump_at (level : nat) (v : jvalue) : string :=
  match v with
  | JNull => "null"
  | JBool true => "true"
  | JBool false => "false"
  | JInt n => str_of_Z n
  | JString s => json_quote s
  | JArray [] => "[]"
  | JArray items =>
      "[" ++ newline (S level)
      ++ join ("," ++ newline (S level)) (map (dump_at (S level)) items)
      ++ newline level ++ "]"
  | JObject [] => "{}"
  | JObject members =>
      "{" ++ newline (S level)
      ++ join ("," ++ newline (S level))
           (map (fun kv => json_quote (fst kv) ++ ": "
                           ++ dump_at (S level) (snd kv)) members)
      ++ newline level ++ "}"
  end.

Definition dump (v : jvalue) : string := dump_at 0 v.

Definition root : string := "/srv/http/resources".

#[export] Instance env : Env := {|
  py_int := int_of_text;
  urlparse_path := url_path;
  unquote := percent_decode;
  json := jvalue;
  json_loads := loads;
  json_dump := dump;
  rfc7231_date := "Tue, 03 Nov 2026 10:30:00 GMT";
  clock_now := DateTime 2026 11 3 10 30 0;
  random_draw := fun i => (7 * i + 30)%nat;
  write_fault := None;
  RESOURCE_DIR := root;
  SERVER_HOST := "127.0.0.1";
  SERVER_PORT := 8080
|}.

(** A resource tree: a home page, an image, a note nobody may read, the
    upload directory, and a link that leaves the tree for a sibling
    directory whose name extends that of the root. *)
Definition tree : filesystem :=
  list_to_map
    [("/srv", Dir);
     ("/srv/http", Dir);
     ("/srv/http/resources", Dir);
     ("/srv/http/resources/index.html", File ("hello world" ++ String LF EmptyString) true);
     ("/srv/http/resources/logo.png", File "PNG-DATA" true);
     ("/srv/http/resources/locked.html", File "secret" false);
     ("/srv/http/resources/notes.md", File "# notes" true);
     ("/srv/http/resources/uploads", Dir);
     ("/srv/http/resources/shared", Symlink "/srv/http/resources_private");
     ("/srv/http/resources_private", Dir);
     ("/srv/http/resources_private/key.html", File "private" true)].

End Sample.

(** The environment [E] with the JSON reader and writer of the model in the
    place of those of the library: the JSON texts without fractions,
    exponents and escaped characters, written with an indent of two. *)
Definition with_codec (E : Env) : Env := {|
  py_int := py_int (Env := E);
  urlparse_path := urlparse_path (Env := E);
  unquote := unquote (Env := E);
  json := Sample.jvalue;
  json_loads := Sample.loads;
  json_dump := Sample.dump;
  rfc7231_date := rfc7231_date (Env := E);
  clock_now := clock_now (Env := E);
  random_draw := random_draw (Env := E);
  write_fault := write_fault (Env := E);
  RESOURCE_DIR := RESOURCE_DIR (Env := E);
  SERVER_HOST := SERVER_HOST (Env := E);
  SERVER_PORT := SERVER_PORT (Env := E)
|}.


(** ** Notions used by the statements *)

(** The request line of a buffer: the text before its first [CRLF]. *)
Definition first_line (raw : string) : string := before_first CRLF raw.

(** The lines of the head after the request line. *)
Definition header_lines (raw : string) : list string :=
  tail (split CRLF (head_of raw)).

(** The header fields of a buffer, in the order sent. *)
Definition header_fields (raw : string) : list (string * string) :=
  omap header_field (header_lines raw).

(** The value of the last field whose name is [name], letter for letter. *)
Fixpoint last_value (name : string) (fields : list (string * string))
  : option string :=
  match fields with
  | [] => None
  | (k, v) :: rest =>
      match last_value name rest with
      | Some w => Some w
      | None => if String.eqb k name then Some v else None
      end
  end.

(** Equality of texts up to the case of the letters A..Z. *)
Definition fold_case (c : ascii) : ascii :=
  let n := nat_of_ascii c in
  if ((65 <=? n) && (n <=? 90))%nat then ascii_of_nat (n + 32) else c.

Fixpoint eq_nocase (s t : string) : bool :=
  match s, t with
  | EmptyString, EmptyString => true
  | String a s', String b t' =>
      Ascii.eqb (fold_case a) (fold_case b) && eq_nocase s' t'
  | _, _ => false
  end.

(** A header mapping that ignores the case of names: looking up two names
    that differ in case only gives the same answer. *)
Definition case_insensitive_headers : Prop :=
  ∀ raw req name name',
    parse_http_request raw = Some req →
    eq_nocase name name' = true →
    req_headers req !! name = req_headers req !! name'.

(** The requests used in the examples. *)
Definition request_text (lines : list string) (body : string) : string :=
  join CRLF lines ++ CRLFCRLF ++ body.

(** A request head that stops before its blank line. *)
Definition unterminated_get : string :=
  join CRLF ["GET /a.html HTTP/1.1"; "Host: 127.0.0.1:8080"; "no colon here";
             "Connection: close"].

(** A request that names its headers in lower case and repeats one. *)
Definition lowercase_get : string :=
  request_text ["GET / HTTP/1.1"; "host: 127.0.0.1:8080"; "X-Tag: one";
                "X-Tag: two"] EmptyString.

(** The bind hosts for which the loopback names are acceptable too. *)
Definition loopback_bind (server_host : string) : Prop :=
  server_host = "127.0.0.1" ∨ server_host = "localhost"
  ∨ server_host = "0.0.0.0".

(** The 256 characters. *)
Definition all_ascii : list ascii := map ascii_of_nat (seq 0 256).

(** A character that [lower] and [fold_case] leave alone and never produce
    from another character above 127: one below 128 that is not a capital
    letter. *)
Definition plain_lower (c : ascii) : bool :=
  let n := nat_of_ascii c in
  ((n <? 128) && negb ((65 <=? n) && (n <=? 90)))%nat.

Fixpoint all_chars (p : ascii -> bool) (s : string) : bool :=
  match s with
  | EmptyString => true
  | String c s' => p c && all_chars p s'
  end.

(** The status of the response that an event sends. *)
Definition sent_status (e : sock_event) : option Z :=
  match e with
  | Sent r => Some (resp_status r)
  | _ => None
  end.

(** The header [name] of a response. *)
Definition resp_header (r : response) (name : string) : option string :=
  header_value name (resp_headers r).

(** The bytes of the events that send raw chunks. *)
Fixpoint raw_bytes (evs : list sock_event) : string :=
  match evs with
  | [] => EmptyString
  | SentRaw chunk :: evs' => chunk ++ raw_bytes evs'
  | _ :: evs' => raw_bytes evs'
  end.

(** The target that leaves the sample tree through its link. *)
Definition escaping_target : string := "/shared/key.html".
Definition escaped_file : string := "/srv/http/resources_private/key.html".

Definition sample_index : string := "/srv/http/resources/index.html".
Definition sample_logo : string := "/srv/http/resources/logo.png".
Definition sample_notes : string := "/srv/http/resources/notes.md".
Definition sample_locked : string := "/srv/http/resources/locked.html".

(** Two readings of the rules of GET as they are stated without
    condition: a target that the resolver does not resolve is answered 404;
    a resolved regular file with extension [.html] is answered 200. *)
Definition get_404_when_unresolved `{Env} : Prop :=
  ∀ fs path keep_alive,
    (∀ p, safe_join_resources fs path ≠ Returns (Some p)) →
    ∃ r, handle_get fs path keep_alive = Returns [Sent r]
         ∧ resp_status r = 404.

Definition get_200_for_html `{Env} : Prop :=
  ∀ fs path keep_alive p,
    safe_join_resources fs path = Returns (Some p) →
    exists_ fs p = true → isfile fs p = true →
    lower (splitext_ext p) = ".html" →
    ∃ r rest, handle_get fs path keep_alive = Returns (Sent r :: rest)
              ∧ resp_status r = 200.

(** The reading of the 415 rule that compares the text before the first
    semicolon as it stands. *)
Definition post_415_on_raw_prefix `{Env} : Prop :=
  ∀ fs headers body keep_alive,
    before_first ";" (header_get headers "Content-Type" EmptyString)
    ≠ "application/json" →
    ∃ r, handle_post fs headers body keep_alive = ([Sent r], fs)
         ∧ resp_status r = 415.

(** Headers of a JSON upload whose media type is followed by a space. *)
Definition spaced_json_headers : gmap string string :=
  {[ "Content-Type" := "application/json ; charset=utf-8" ]}.

(** The shape of a text, character by character. *)
Fixpoint shape_matches (pattern : list (ascii -> bool)) (s : string) : bool :=
  match pattern, s with
  | [], EmptyString => true
  | p :: pattern', String c s' => p c && shape_matches pattern' s'
  | _, _ => false
  end.

Definition is_decimal (c : ascii) : bool :=
  let n := nat_of_ascii c in ((48 <=? n) && (n <=? 57))%nat.

Definition is_lower_alnum (c : ascii) : bool :=
  let n := nat_of_ascii c in
  ((97 <=? n) && (n <=? 122) || (48 <=? n) && (n <=? 57))%nat.

(** [YYYYMMDD_HHMMSS] *)
Definition stamp_pattern : list (ascii -> bool) :=
  (repeat is_decimal 8 ++ [Ascii.eqb "_"] ++ repeat is_decimal 6)%list.

(** Four characters of [a-z0-9]. *)
Definition id_pattern : list (ascii -> bool) := repeat is_lower_alnum 4.

(** A reading of the clock with a four-digit year. *)
Definition plausible_datetime (t : datetime) : Prop :=
  1000 ≤ Z.of_nat (dt_year t) ≤ 9999
  ∧ (1 ≤ dt_month t ≤ 12 ∧ 1 ≤ dt_day t ≤ 31
     ∧ dt_hour t ≤ 23 ∧ dt_minute t ≤ 59 ∧ dt_second t ≤ 59)%nat.

(** ** Notions for the JSON reader and writer of the model *)

Module Codec.
Import Sample.

(** The end of a number: no digit, point or exponent follows. *)
Definition number_ends (rest : string) : bool :=
  match rest with
  | EmptyString => true
  | String c _ =>
      negb (is_digit c) && negb (Ascii.eqb c ".") && negb (Ascii.eqb c "e")
      && negb (Ascii.eqb c "E")
  end.

(** [read_number] after the sign. *)
Definition read_digits (neg : bool) (s1 : string) : option (jvalue * string) :=
  let digits := take_until (fun c => negb (is_digit c)) s1 in
  let rest := drop (String.length digits) s1 in
  let well_formed :=
    negb (is_empty digits)
    && negb (startswith "0" digits && (1 <? String.length digits)%nat)
    && negb (startswith "." rest || startswith "e" rest || startswith "E" rest) in
  if well_formed then
    match digits_value 0 digits with
    | Some n => Some (JInt (if neg then - n else n), rest)
    | None => None
    end
  else None.

(** The cases of [read_value], written out one by one. *)
Definition lift {A B : Type} (f : A → B) (r : option (A * string))
  : option (B * string) :=
  match r with Some (a, rest) => Some (f a, rest) | None => None end.

Definition read_array (fuel : nat) (t : string) : option (jvalue * string) :=
  match skip_space t with
  | String c rest =>
      if Ascii.eqb c "]" then Some (JArray [], rest)
      else lift JArray (read_items fuel (String c rest))
  | EmptyString => lift JArray (read_items fuel EmptyString)
  end.

Definition read_object (fuel : nat) (t : string) : option (jvalue * string) :=
  match skip_space t with
  | String c rest =>
      if Ascii.eqb c "}" then Some (JObject [], rest)
      else lift JObject (read_members fuel [] (String c rest))
  | EmptyString => lift JObject (read_members fuel [] EmptyString)
  end.

(** Induction on a value with the property at hand for the items of an
    array and for the values of the members of an object. *)
Section NestedInduction.
Variable P : jvalue → Prop.
Hypothesis Hnull : P JNull.
Hypothesis Hbool : ∀ b, P (JBool b).
Hypothesis Hint : ∀ n, P (JInt n).
Hypothesis Hstring : ∀ s, P (JString s).
Hypothesis Harray : ∀ items, Forall P items → P (JArray items).
Hypothesis Hobject :
  ∀ members, Forall (fun kv => P (snd kv)) members → P (JObject members).

Fixpoint jvalue_nested_ind (v : jvalue) : P v :=
  match v with
  | JNull => Hnull
  | JBool b => Hbool b
  | JInt n => Hint n
  | JString s => Hstring s
  | JArray items =>
      Harray items
        ((fix all (l : list jvalue) : Forall P l :=
            match l with
            | [] => @List.Forall_nil _ P
            | x :: l' =>
                @List.Forall_cons _ P x l' (jvalue_nested_ind x) (all l')
            end) items)
  | JObject members =>
      Hobject members
        ((fix all (l : list (string * jvalue))
            : Forall (fun kv => P (snd kv)) l :=
            match l with
            | [] => @List.Forall_nil _ (fun kv => P (snd kv))
            | kv :: l' =>
                @List.Forall_cons _ (fun kv => P (snd kv)) kv l'
                  (jvalue_nested_ind (snd kv)) (all l')
            end) members)
  end.

End NestedInduction.

(** The values of the reader: strings and keys of plain characters, and
    objects without a repeated key. *)
Fixpoint wf (v : jvalue) : Prop :=
  match v with
  | JNull | JBool _ | JInt _ => True
  | JString s => all_chars plain_char s = true
  | JArray items => foldr (fun x acc => wf x ∧ acc) True items
  | JObject members =>
      foldr (fun kv acc =>
               (all_chars plain_char (fst kv) = true ∧ wf (snd kv)) ∧ acc)
        True members
      ∧ NoDup (map fst members)
  end.

Definition wf_member (kv : string * jvalue) : Prop :=
  all_chars plain_char (fst kv) = true ∧ wf (snd kv).

Definition wf_members (members : list (string * jvalue)) : Prop :=
  Forall wf_member members ∧ NoDup (map fst members).

(** The rounds of recursion that reading a value takes. *)
Fixpoint need (v : jvalue) : nat :=
  match v with
  | JArray items => S (foldr (fun x acc => S (Nat.max (need x) acc)) 0%nat items)
  | JObject members =>
      S (foldr (fun kv acc => S (Nat.max (need (snd kv)) acc)) 0%nat members)
  | _ => 1%nat
  end.

Definition need_items (items : list jvalue) : nat :=
  foldr (fun x acc => S (Nat.max (need x) acc)) 0%nat items.

Definition need_members (members : list (string * jvalue)) : nat :=
  foldr (fun kv acc => S (Nat.max (need (snd kv)) acc)) 0%nat members.

Definition item_sep (level : nat) : string := "," ++ newline (S level).

Definition member_text (level : nat) (kv : string * jvalue) : string :=
  json_quote (fst kv) ++ ": " ++ dump_at (S level) (snd kv).

(** The value read from the text of [v] followed by [rest]. *)
Definition reads_back (v : jvalue) : Prop :=
  ∀ level rest fuel,
    wf v → number_ends rest = true → (need v ≤ fuel)%nat →
    read_value fuel (dump_at level v ++ rest) = Some (v, rest).

End Codec.

(** The number written in decimal by the [len] characters of [s] from
    position [start] on. *)
Definition decimal_field (start len : nat) (s : string) : option Z :=
  Sample.unsigned_of_text (take len (drop start s)).

(** The stamp [YYYYMMDD_HHMMSS] writes the date and the time [t]. *)
Definition stamp_of (t : datetime) (stamp : string) : Prop :=
  decimal_field 0 4 stamp = Some (Z.of_nat (dt_year t))
  ∧ decimal_field 4 2 stamp = Some (Z.of_nat (dt_month t))
  ∧ decimal_field 6 2 stamp = Some (Z.of_nat (dt_day t))
  ∧ decimal_field 9 2 stamp = Some (Z.of_nat (dt_hour t))
  ∧ decimal_field 11 2 stamp = Some (Z.of_nat (dt_minute t))
  ∧ decimal_field 13 2 stamp = Some (Z.of_nat (dt_second t)).

(** The characters of [id] are those of the alphabet at the indices
    drawn. *)
Definition id_of (draw : nat → nat) (id : string) : Prop :=
  ∀ i, (i < 4)%nat →
       String.get i id
       = String.get (draw i mod String.length ALPHABET) ALPHABET.

(** The text [s] is a decimal numeral of [n]. *)
Definition reads_as (n : nat) (s : string) : bool :=
  match Sample.unsigned_of_text s with
  | Some m => m =? Z.of_nat n
  | None => false
  end.

(** The headers and the body of the upload of the examples. *)
Definition json_headers : gmap string string :=
  {[ "Content-Type" := "application/json" ]}.

Definition sample_json : string :=
  "{" ++ json_quote "a" ++ ":[1,2,3]}".

Definition sample_value : Sample.jvalue :=
  Sample.JObject
    [("a", Sample.JArray [Sample.JInt 1; Sample.JInt 2; Sample.JInt 3])].

Definition sample_upload_path : string :=
  "/srv/http/resources/uploads/upload_20261103_103000_4bip.json".

(** A JSON upload that announces no length, and the bytes that follow it on
    the connection. *)
Definition post_without_length : string :=
  request_text ["POST /up HTTP/1.1"; "Host: 127.0.0.1:8080";
                "Content-Type: application/json"] sample_json.

Definition later_bytes : string := "GET / HTTP/1.1".

Definition sample_connection : connection :=
  Connection [Data post_without_length; Data later_bytes] [] Sample.tree.

Definition sample_post_request : request :=
  Request "POST" "/up" "HTTP/1.1"
    (<["Content-Type" := "application/json"]>
       (<["Host" := "127.0.0.1:8080"]> ∅))
    sample_json.

(** The sample tree after the upload of the examples. *)
Definition sample_written : filesystem :=
  <[sample_upload_path := File (Sample.dump sample_value) true]> Sample.tree.

(** Equations between closed terms, settled by evaluation. *)
Ltac vm_refl :=
  lazymatch goal with
  | |- @eq ?T ?l ?r => exact (@eq_refl T r <: l = r)
  end.

(** The reading of the 403 rule that matches the value of the header as
    it was sent: a value with a port that [int] reads, outside the
    acceptable set, is refused with 403. *)
Definition host_matched_as_sent `{Env} : Prop :=
  ∀ v sh sp host port_text port,
    partition ":" v = Some (host, port_text) →
    py_int port_text = Some port →
    v ∉ acceptable_hosts sh sp →
    valid_host_header (Some v) sh sp = HostRejected 403.

(** A pool with an empty queue and one whose queue is full. *)
Definition idle_pool : thread_pool nat := ThreadPool 10 [].
Definition full_pool : thread_pool nat := ThreadPool 10 (seq 0 200).

(** ** Notions used by the further properties *)

Definition is_link (n : node) : bool :=
  match n with Symlink _ => true | _ => false end.

(** A file system without symbolic links. *)
Definition link_free (fs : filesystem) : bool :=
  forallb (fun kv => negb (is_link (snd kv))) (map_to_list fs).

(** The components of a relative path that name something. *)
Definition named (l : list string) : list string :=
  List.filter (fun x => negb (is_skip x)) l.

(** The sample tree without its link. *)
Definition linkless_tree : filesystem :=
  delete "/srv/http/resources/shared" Sample.tree.

(** A component that names something other than the parent directory. *)
Definition plain_name (x : string) : Prop :=
  is_skip x = false ∧ x ≠ "..".

(** The headers that [make_response] supplies when the caller has not. *)
Definition default_header `{Env} (body : string) (name : string)
  : option string :=
  if String.eqb name "Date" then Some rfc7231_date
  else if String.eqb name "Server" then Some SERVER_NAME
  else if String.eqb name "Content-Length" then Some (str_of_Z (len body))
  else None.

(** The status codes that a worker sends. *)
Definition HANDLER_STATUSES : list Z :=
  [200; 201; 400; 403; 404; 405; 415; 500].

(** An event of answering: raw bytes of a file, or a response that has one
    of the worker's status codes and the three standard headers. *)
Definition response_event (e : sock_event) : Prop :=
  match e with
  | Sent r =>
      resp_status r ∈ HANDLER_STATUSES
      ∧ is_Some (resp_header r "Date")
      ∧ is_Some (resp_header r "Server")
      ∧ is_Some (resp_header r "Content-Length")
  | SentRaw _ => True
  | Shutdown | Closed => False
  end.

(** The bytes that a peer still has to deliver, in order. *)
Fixpoint pending (inp : list recv_event) : string :=
  match inp with
  | [] => EmptyString
  | Data d :: rest => d ++ pending rest
  | _ :: rest => pending rest
  end.

(** The bytes that a [recv] returned. *)
Definition received (r : recv_result) : string :=
  match r with Got d => d | _ => EmptyString end.

(** A peer that delivers non-empty chunks without pause or failure. *)
Definition steady (inp : list recv_event) : bool :=
  forallb (fun e => match e with
                    | Data d => negb (is_empty d)
                    | _ => false
                    end) inp.

(** A body that arrives in two pieces after the head. *)
Definition body_chunks : list recv_event :=
  [Data "lo w"; Data "orld, and more"].

Definition not_space (c : ascii) : bool := negb (is_space c).
Definition not_colon (c : ascii) : bool := negb (Ascii.eqb c ":").
Definition not_cr (c : ascii) : bool := negb (Ascii.eqb c CR).

(** A token of a request line: not empty, no whitespace in it. *)
Definition token (t : string) : Prop :=
  t ≠ EmptyString ∧ all_chars not_space t = true.

(** A header as the parser stores it: name and value without surrounding
    whitespace, no colon in the name. *)
Definition stored_header (k v : string) : Prop :=
  strip k = k ∧ strip v = v ∧ all_chars not_colon k = true.

(** A text that does not begin with whitespace. *)
Definition starts_clean (s : string) : Prop :=
  match s with
  | EmptyString => True
  | String c _ => is_space c = false
  end.

(** A burst of accepted connections handed to the pool one after the
    other, no worker taking any in between: the answers of [submit] and the
    pool left. *)
Fixpoint submit_all {A} (pool : thread_pool A) (clients : list A)
  : list bool * thread_pool A :=
  match clients with
  | [] => ([], pool)
  | client :: rest =>
      let '(accepted, pool') := submit pool client in
      let '(answers, pool'') := submit_all pool' rest in
      (accepted :: answers, pool'')
  end.

(** ** The workers of the pool

    [ThreadPool._worker_loop], one worker: it waits on the queue, takes a
    connection ([task_queue.get()]), adds one to [active_count] under the
    lock, runs the handler, and in its [finally] clause closes the socket and
    takes one from [active_count] under the lock.  The queue and the lock
    make these steps atomic, so a run of the pool is a sequence of them,
    interleaved with the [submit]s of the accept loop in any order. *)

Inductive worker_state (A : Type) : Type :=
| Waiting                (* blocked in, or on its way to, [task_queue.get()] *)
| Holding (client : A)   (* has taken [client], has not counted itself yet *)
| Serving (client : A).  (* counted in [active_count], runs the handler *)
Arguments Waiting {A}.
Arguments Holding {A} client.
Arguments Serving {A} client.

Inductive pool_event (A : Type) : Type :=
| Accepts (client : A)  (* the accept loop calls [submit] *)
| Takes (i : nat)       (* worker [i] returns from [task_queue.get()] *)
| Enters (i : nat)      (* worker [i] runs [active_count += 1] *)
| Leaves (i : nat).     (* worker [i] runs its [finally] clause *)
Arguments Accepts {A} client.
Arguments Takes {A} i.
Arguments Enters {A} i.
Arguments Leaves {A} i.

Record pool_run (A : Type) : Type := PoolRun {
  run_pool : thread_pool A;
  run_workers : list (worker_state A);
  active_count : nat
}.
Arguments PoolRun {A}.
Arguments run_pool {A}.
Arguments run_workers {A}.
Arguments active_count {A}.

(** [ThreadPool.__init__] *)
Definition start_pool {A} (workers : nat) : pool_run A :=
  PoolRun (ThreadPool workers []) (replicate workers Waiting) 0.

(** One step of the pool; [None] when the step cannot happen in the
    state (a worker cannot take from an empty queue, and so on). *)
Definition pool_step {A} (s : pool_run A) (e : pool_event A)
  : option (pool_run A) :=
  let pool := run_pool s in
  match e with
  | Accepts client =>
      Some (PoolRun (snd (submit pool client)) (run_workers s) (active_count s))
  | Takes i =>
      match run_workers s !! i, task_queue pool with
      | Some Waiting, client :: rest =>
          Some (PoolRun (ThreadPool (max_workers pool) rest)
                  (<[i := Holding client]> (run_workers s)) (active_count s))
      | _, _ => None
      end
  | Enters i =>
      match run_workers s !! i with
      | Some (Holding client) =>
          Some (PoolRun pool (<[i := Serving client]> (run_workers s))
                  (active_count s + 1))
      | _ => None
      end
  | Leaves i =>
      match run_workers s !! i with
      | Some (Serving client) =>
          Some (PoolRun pool (<[i := Waiting]> (run_workers s))
                  (active_count s - 1))
      | _ => None
      end
  end.

Fixpoint pool_steps {A} (s : pool_run A) (events : list (pool_event A))
  : option (pool_run A) :=
  match events with
  | [] => Some s
  | e :: events' =>
      match pool_step s e with
      | Some s' => pool_steps s' events'
      | None => None
      end
  end.

(** [ThreadPool.status] *)
Definition status {A} (s : pool_run A) : nat * nat * nat :=
  (active_count s, max_workers (run_pool s), length (task_queue (run_pool s))).

Definition is_serving {A} (w : worker_state A) : bool :=
  match w with Serving _ => true | _ => false end.

(** The workers that run the handler. *)
Definition serving {A} (workers : list (worker_state A)) : nat :=
  length (List.filter is_serving workers).

(** The connection that a worker has taken, if any. *)
Definition taken {A} (w : worker_state A) : option A :=
  match w with
  | Waiting => None
  | Holding client | Serving client => Some client
  end.

(** The connections that the pool holds: queued, or taken by a worker. *)
Definition held {A} (s : pool_run A) : list A :=
  (task_queue (run_pool s) ++ omap taken (run_workers s))%list.

(** The connections that the accept loop submits in a run. *)
Definition submitted {A} (events : list (pool_event A)) : list A :=
  omap (fun e => match e with Accepts client => Some client | _ => None end)
    events.

(** A run of two workers: three connections arrive, two are served, one
    is done. *)
Definition sample_run : list (pool_event nat) :=
  [Accepts 1; Accepts 2; Takes 0; Accepts 3; Enters 0; Takes 1; Enters 1;
   Leaves 0; Takes 0]%nat.

(** What every step of the pool keeps. *)
Definition pool_invariant {A} (n : nat) (s : pool_run A) : Prop :=
  length (run_workers s) = n
  ∧ max_workers (run_pool s) = n
  ∧ active_count s = serving (run_workers s)
  ∧ (length (task_queue (run_pool s)) ≤ CONN_QUEUE_MAX)%nat.

(** Where [sample_run] leaves a pool of two workers. *)
Definition sample_run_end : pool_run nat :=
  PoolRun (ThreadPool 2 []) [Holding 3; Serving 2]%nat 1.

(** The number of reads of [n] bytes that a content of [size] bytes takes. *)
Definition reads_needed (size n : nat) : nat := ((size + n - 1) / n)%nat.

(** [content[i * n : (i + 1) * n]] *)
Definition slice (n : nat) (content : string) (i : nat) : string :=
  take n (drop (i * n) content).

(** The status codes of the responses that deliver what was asked for. *)
Definition is_success (status : Z) : bool := (status =? 200) || (status =? 201).

(** What a response tells the client about the connection: a 200 or a 201
    carries [Connection] with the value for [keep_alive]; every other
    response carries no [Connection] header. *)
Definition announces (keep_alive : bool) (e : sock_event) : Prop :=
  match e with
  | Sent r =>
      resp_header r "Connection"
      = if is_success (resp_status r) then Some (connection_value keep_alive)
        else None
  | _ => True
  end.

(** ** Requests on a persistent connection *)

(** The round of the handler's loop for a request that arrives alone on a
    fresh connection. *)
Definition lone_round `{Env} (fs : filesystem) (chunk : string)
  : bool * connection :=
  handle_request (Connection [Data chunk] [] fs).

(** What the handler sends in that round. *)
Definition answer `{Env} (fs : filesystem) (chunk : string)
  : list sock_event :=
  conn_out (snd (lone_round fs chunk)).

(** A segment that one [recv] returns whole, that holds the blank line of a
    request other than a POST, and after which the handler keeps the
    connection. *)
Definition persistent `{Env} (fs : filesystem) (chunk : string) : bool :=
  negb (is_empty chunk)
  && (String.length chunk <=? MAX_REQUEST_READ)%nat
  && contains CRLFCRLF chunk
  && match parse_http_request chunk with
     | Some req => negb (String.eqb (req_method req) "POST")
     | None => false
     end
  && fst (lone_round fs chunk).

(** Two requests that keep the connection: a page, and a method that the
    server does not know. *)
Definition sample_get : string :=
  request_text ["GET /index.html HTTP/1.1"; "Host: 127.0.0.1:8080"]
    EmptyString.
Definition sample_delete : string :=
  request_text ["DELETE /index.html HTTP/1.1"; "Host: localhost:8080"]
    EmptyString.

(** * Properties *)

(** ** Text primitives *)

Lemma startswith_refl s : startswith s s = true.
Proof. induction s as [|c s IH]; simpl; [done|]. by rewrite Ascii.eqb_refl. Qed.

Lemma startswith_app p s : startswith p (p ++ s) = true.
Proof. induction p as [|c p IH]; simpl; [done|]. by rewrite Ascii.eqb_refl. Qed.

Lemma startswith_spec p s : startswith p s = true ↔ ∃ t, s = p ++ t.
Proof.
  split.
  - revert s. induction p as [|c p IH]; intros s Hs; simpl in *.
    + by exists s.
    + destruct s as [|d s]; [done|].
      destruct (Ascii.eqb_spec c d) as [->|]; [|done].
      destruct (IH _ Hs) as [t ->]. by exists t.
  - intros [t ->]. apply startswith_app.
Qed.

Lemma partition_None_contains sep s :
  partition sep s = None ↔ contains sep s = false.
Proof.
  induction s as [|c s IH]; simpl.
  - destruct (startswith sep EmptyString); simpl; split; congruence.
  - destruct (startswith sep (String c s)); simpl; [split; congruence|].
    rewrite <- IH. destruct (partition sep s) as [[a b]|]; split; congruence.
Qed.

Lemma before_first_cons sep c s :
  startswith sep (String c s) = false →
  before_first sep (String c s) = String c (before_first sep s).
Proof.
  unfold before_first. simpl. intros ->.
  by destruct (partition sep s) as [[a b]|].
Qed.

Lemma before_first_hit sep s :
  startswith sep s = true → before_first sep s = EmptyString.
Proof. unfold before_first. destruct s; simpl; by intros ->. Qed.

(** The first element of [s.split(sep)] is the text before the first
    separator. *)
Lemma split_first sep s :
  ∃ l, split sep s = before_first sep s :: l.
Proof.
  unfold split, before_first.
  destruct (String.length s); simpl;
    destruct (partition sep s) as [[a b]|]; eauto.
Qed.

Lemma split_no_separator sep s :
  contains sep s = false → split sep s = [s].
Proof.
  intros Hc. apply partition_None_contains in Hc.
  unfold split. destruct (String.length s); simpl; by rewrite Hc.
Qed.

Lemma length_append s t :
  String.length (s ++ t) = (String.length s + String.length t)%nat.
Proof. induction s as [|c s IH]; simpl; [done|]. by rewrite IH. Qed.

Lemma append_assoc s t u : (s ++ t) ++ u = s ++ t ++ u.
Proof. induction s as [|c s IH]; simpl; [done|]. by rewrite IH. Qed.

Lemma append_nil_r s : s ++ EmptyString = s.
Proof. induction s as [|c s IH]; simpl; [done|]. by rewrite IH. Qed.

Lemma take_app_length a b : take (String.length a) (a ++ b) = a.
Proof. induction a as [|c a IH]; [by destruct b|]. simpl. by rewrite IH. Qed.

Lemma length_drop n s :
  String.length (drop n s) = (String.length s - n)%nat.
Proof. revert s. induction n as [|n IH]; intros [|c s]; simpl; auto. Qed.

Lemma startswith_length p s :
  startswith p s = true → (String.length p ≤ String.length s)%nat.
Proof.
  intros [t ->]%startswith_spec. rewrite length_append. lia.
Qed.

(** The two parts of a partition and the separator make up the text. *)
Lemma partition_length sep s a b :
  partition sep s = Some (a, b) →
  String.length s
  = (String.length a + String.length sep + String.length b)%nat.
Proof.
  revert a. induction s as [|c s IH]; intros a; simpl.
  - destruct (startswith sep EmptyString) eqn:Hs; [|done].
    intros [= <- <-]. apply startswith_length in Hs.
    rewrite length_drop. simpl in *. lia.
  - destruct (startswith sep (String c s)) eqn:Hs.
    + intros [= <- <-]. apply startswith_length in Hs.
      rewrite length_drop. simpl in *. lia.
    + destruct (partition sep s) as [[a' b']|]; [|done].
      intros [= <- <-]. rewrite (IH a' eq_refl). simpl. lia.
Qed.

(** The fuel of [split] is enough: more of it changes nothing. *)
Lemma split_fuel_enough fuel sep s :
  sep ≠ EmptyString → (String.length s ≤ fuel)%nat →
  split_fuel fuel sep s = split sep s.
Proof.
  intros Hsep. unfold split.
  assert (∀ f1 f2 t, (String.length t ≤ f1)%nat → (String.length t ≤ f2)%nat →
            split_fuel f1 sep t = split_fuel f2 sep t) as Hgen; [|by auto].
  assert (0 < String.length sep)%nat as Hpos
    by (destruct sep; [done|simpl; lia]).
  induction f1 as [|f1 IH]; intros f2 t H1 H2;
    destruct f2 as [|f2]; simpl;
    destruct (partition sep t) as [[a b]|] eqn:Hp; try done;
    apply partition_length in Hp; try lia.
  f_equal. apply IH; lia.
Qed.

(** [CRLF] opens the head exactly when it opens the buffer. *)
Lemma head_starts_with_LF s :
  startswith (String LF EmptyString) (before_first CRLFCRLF s)
  = startswith (String LF EmptyString) s.
Proof.
  destruct s as [|d s]; [done|].
  destruct (startswith CRLFCRLF (String d s)) eqn:Hs.
  - rewrite (before_first_hit CRLFCRLF) by done.
    apply startswith_spec in Hs as [t Ht]. by injection Ht as -> _.
  - by rewrite before_first_cons.
Qed.

Lemma first_line_of_head raw :
  before_first CRLF (head_of raw) = before_first CRLF raw.
Proof.
  change (head_of raw) with (before_first CRLFCRLF raw).
  induction raw as [|c s IH]; [done|].
  destruct (startswith CRLFCRLF (String c s)) eqn:Hs.
  - rewrite (before_first_hit CRLFCRLF) by done.
    apply startswith_spec in Hs as [t Ht]. by rewrite Ht.
  - rewrite (before_first_cons CRLFCRLF) by done.
    assert (startswith CRLF (String c (before_first CRLFCRLF s))
            = startswith CRLF (String c s)) as Heq.
    { unfold CRLF. cbn [startswith]. destruct (Ascii.eqb CR c); [|done].
      apply head_starts_with_LF. }
    destruct (startswith CRLF (String c s)) eqn:H2.
    + by rewrite !before_first_hit.
    + rewrite !before_first_cons by done. by rewrite IH.
Qed.

(** ** The request parser *)

Lemma parse_request_line raw :
  ∃ lines, split CRLF (head_of raw) = first_line raw :: lines.
Proof.
  destruct (split_first CRLF (head_of raw)) as [l Hl].
  exists l. by rewrite Hl, first_line_of_head.
Qed.

Lemma fold_add_header_lookup lines (m : gmap string string) name :
  fold_left add_header lines m !! name
  = match last_value name (omap header_field lines) with
    | Some v => Some v
    | None => m !! name
    end.
Proof.
  revert m. induction lines as [|line lines IH]; intros m; [done|].
  cbn [fold_left]. rewrite IH. unfold add_header.
  change (omap header_field (line :: lines))
    with (match header_field line with
          | Some f => f :: omap header_field lines
          | None => omap header_field lines
          end).
  destruct (header_field line) as [[k v]|]; cbn [last_value]; [|done].
  destruct (last_value name (omap header_field lines)); [done|].
  destruct (String.eqb_spec k name) as [->|Hne].
  - by rewrite lookup_insert_eq.
  - by rewrite lookup_insert_ne.
Qed.

Lemma last_value_present name v fields :
  (name, v) ∈ fields → is_Some (last_value name fields).
Proof.
  induction fields as [|[k w] fields IH]; intros Hin.
  - by apply elem_of_nil in Hin.
  - cbn [last_value]. apply elem_of_cons in Hin as [Heq|Hin].
    + injection Heq as <- <-.
      destruct (last_value name fields); [by eexists|].
      rewrite String.eqb_refl. by eexists.
    + destruct (IH Hin) as [w' ->]. by eexists.
Qed.

Lemma header_field_colon line :
  contains ":" line = true →
  ∃ v, header_field line = Some (strip (before_first ":" line), v).
Proof.
  intros Hc. unfold header_field, before_first.
  destruct (partition ":" line) as [[k v]|] eqn:Hp; [by eexists|].
  apply partition_None_contains in Hp. congruence.
Qed.



(** The header mapping is the last exact match among the fields sent. *)
Lemma parse_headers_lookup raw req name :
  parse_http_request raw = Some req →
  req_headers req !! name = last_value name (header_fields raw).
Proof.
  unfold parse_http_request, header_fields, header_lines.
  destruct (split CRLF (head_of raw)) as [|line0 hdrs]; [done|].
  destruct (words line0) as [|a [|b [|c [|d l]]]]; try done.
  intros [= <-]. cbn [req_headers tail].
  rewrite fold_add_header_lookup.
  by destruct (last_value name (omap header_field hdrs)).
Qed.

(** C2, as the code has it.  For every buffer that parses, looking up a
    name in the header mapping gives the value of the last field sent under
    that very name (names and values stripped of surrounding whitespace), and
    nothing when no field was sent under that very name: the last occurrence
    wins, and the letter case of the name matters. *)
Theorem headers_last_exact_match raw req :
  parse_http_request raw = Some req →
  ∀ name, req_headers req !! name = last_value name (header_fields raw).
Proof. intros Hp name. by apply parse_headers_lookup. Qed.

Lemma headers_last_exact_match_witness :
  ∃ req,
    parse_http_request lowercase_get = Some req
    ∧ req_headers req !! "X-Tag" = Some "two"
    ∧ req_headers req !! "host" = Some "127.0.0.1:8080"
    ∧ req_headers req !! "Host" = None.
Proof.
  destruct (parse_http_request lowercase_get) as [req|] eqn:Hp;
    [|discriminate Hp].
  exists req. split; [reflexivity|].
  rewrite !(headers_last_exact_match lowercase_get req Hp).
  repeat split; reflexivity.
Defined.

(** C2, as stated, fails: a header sent as [host] is not found under
    [Host]. *)
Lemma headers_not_case_insensitive : ¬ case_insensitive_headers.
Proof.
  intros Hci.
  destruct (parse_http_request lowercase_get) as [req|] eqn:Hp;
    [|discriminate Hp].
  specialize (Hci lowercase_get req "host" "Host" Hp eq_refl).
  rewrite !(parse_headers_lookup _ _ _ Hp) in Hci.
  vm_compute in Hci. discriminate Hci.
Qed.

(** ** The Host validator *)

Lemma append_inv_tail s1 s2 t : s1 ++ t = s2 ++ t → s1 = s2.
Proof.
  revert s2. induction s1 as [|c s1 IH]; intros [|d s2] Heq; simpl in Heq.
  - done.
  - apply (f_equal String.length) in Heq. simpl in Heq.
    rewrite length_append in Heq. lia.
  - apply (f_equal String.length) in Heq. simpl in Heq.
    rewrite length_append in Heq. lia.
  - injection Heq as -> Heq. f_equal. by apply IH.
Qed.

Lemma host_port_text_inj h1 h2 port :
  host_port_text h1 port = host_port_text h2 port → h1 = h2.
Proof. apply append_inv_tail. Qed.

Lemma is_local_name_spec sh :
  is_local_name sh = true ↔ sh = "127.0.0.1" ∨ sh = "localhost".
Proof.
  unfold is_local_name. rewrite orb_true_iff, !String.eqb_eq. tauto.
Qed.

(** The members of the acceptable set. *)
Lemma acceptable_hosts_spec sh sp x :
  x ∈ acceptable_hosts sh sp
  ↔ x = host_port_text sh sp
    ∨ (loopback_bind sh
       ∧ (x = host_port_text "localhost" sp
          ∨ x = host_port_text "127.0.0.1" sp)).
Proof.
  unfold acceptable_hosts, loopback_bind.
  destruct (is_local_name sh) eqn:Hl;
    destruct (String.eqb_spec sh "0.0.0.0") as [H0|H0];
    rewrite ?elem_of_union, ?elem_of_singleton.
  - apply is_local_name_spec in Hl. tauto.
  - apply is_local_name_spec in Hl. tauto.
  - tauto.
  - assert (¬ (sh = "127.0.0.1" ∨ sh = "localhost")) as Hn.
    { rewrite <- is_local_name_spec. congruence. }
    tauto.
Qed.

Section HostRules.
Context `{Env}.

(** C3, as the code has it.  A missing or empty Host header is refused
    with 400.  The value is trimmed.  When it holds a colon, [host] is the text before the first
    colon and the text after it is read by [int]: it is refused with 400
    when [int] refuses that text, and otherwise matched as the text
    [host:port] written with the integer read.  A value without a colon is
    matched as [value:port] with the port of the server.  The acceptable set
    always holds [bind_host:bind_port]; it holds [localhost:port] and
    [127.0.0.1:port] as well exactly when the bind host is [127.0.0.1],
    [localhost] or [0.0.0.0].  The text matched is accepted, and returned,
    when it is in that set, and refused with 403 when it is not. *)
Theorem valid_host_header_rules (sh : string) (sp : Z) :
  valid_host_header None sh sp = HostRejected 400
  ∧ valid_host_header (Some EmptyString) sh sp = HostRejected 400
  ∧ (∀ v host port_text,
       v ≠ EmptyString →
       partition ":" (strip v) = Some (host, port_text) →
       match py_int port_text with
       | None => valid_host_header (Some v) sh sp = HostRejected 400
       | Some port =>
           (host_port_text host port ∈ acceptable_hosts sh sp →
            valid_host_header (Some v) sh sp
            = HostOk (host_port_text host port))
           ∧ (host_port_text host port ∉ acceptable_hosts sh sp →
              valid_host_header (Some v) sh sp = HostRejected 403)
       end)
  ∧ (∀ v,
       v ≠ EmptyString →
       contains ":" (strip v) = false →
       (host_port_text (strip v) sp ∈ acceptable_hosts sh sp →
        valid_host_header (Some v) sh sp
        = HostOk (host_port_text (strip v) sp))
       ∧ (host_port_text (strip v) sp ∉ acceptable_hosts sh sp →
          valid_host_header (Some v) sh sp = HostRejected 403))
  ∧ host_port_text sh sp ∈ acceptable_hosts sh sp
  ∧ (loopback_bind sh
     ↔ host_port_text "localhost" sp ∈ acceptable_hosts sh sp
       ∧ host_port_text "127.0.0.1" sp ∈ acceptable_hosts sh sp)
  ∧ (¬ loopback_bind sh →
     acceptable_hosts sh sp = {[ host_port_text sh sp ]}).
Proof.
  split_and!.
  - done.
  - done.
  - intros v host port_text Hv Hp. unfold valid_host_header, split_host_port.
    destruct v; [done|]. cbn [is_empty]. rewrite Hp.
    destruct (py_int port_text) as [port|]; [|done].
    split; intros Hin; [by rewrite decide_True | by rewrite decide_False].
  - intros v Hv Hc. apply partition_None_contains in Hc.
    unfold valid_host_header, split_host_port.
    destruct v; [done|]. cbn [is_empty]. rewrite Hc.
    split; intros Hin; [by rewrite decide_True | by rewrite decide_False].
  - apply acceptable_hosts_spec. by left.
  - split.
    + intros Hl. split; apply acceptable_hosts_spec; right; auto.
    + intros [H1 H2]. apply acceptable_hosts_spec in H1, H2.
      destruct H1 as [H1|[? _]]; [|done]. destruct H2 as [H2|[? _]]; [|done].
      apply host_port_text_inj in H1. right. by left.
  - intros Hn. apply set_eq. intros x.
    rewrite acceptable_hosts_spec, elem_of_singleton. tauto.
Qed.

End HostRules.

Lemma valid_host_header_rules_witness :
  valid_host_header (H := Sample.env) (Some "localhost:80x0") "0.0.0.0" 8080
  = HostRejected 400
  ∧ valid_host_header (H := Sample.env) (Some "localhost:9999") "0.0.0.0" 8080
    = HostRejected 403
  ∧ valid_host_header (H := Sample.env) (Some "localhost: 8080") "0.0.0.0" 8080
    = HostOk "localhost:8080"
  ∧ valid_host_header (H := Sample.env) (Some "localhost") "0.0.0.0" 8080
    = HostOk "localhost:8080"
  ∧ valid_host_header (H := Sample.env) (Some "example.org") "0.0.0.0" 8080
    = HostRejected 403.
Proof.
  destruct (valid_host_header_rules (H := Sample.env) "0.0.0.0" 8080)
    as (_ & _ & Hport & Hbare & _).
  split_and!.
  - apply (Hport "localhost:80x0" "localhost" "80x0");
      [discriminate | reflexivity].
  - apply (Hport "localhost:9999" "localhost" "9999");
      [discriminate | reflexivity |].
    apply (bool_decide_unpack _). vm_compute. exact I.
  - apply (Hport "localhost: 8080" "localhost" " 8080");
      [discriminate | reflexivity |].
    apply (bool_decide_unpack _). vm_compute. exact I.
  - apply (Hbare "localhost"); [discriminate | reflexivity |].
    apply (bool_decide_unpack _). vm_compute. exact I.
  - apply (Hbare "example.org"); [discriminate | reflexivity |].
    apply (bool_decide_unpack _). vm_compute. exact I.
Defined.

(** C3, as stated, fails: the value [localhost:08080] is not in the
    acceptable set of a server on [127.0.0.1], port 8080, and it is
    accepted, as [localhost:8080]. *)
Lemma host_value_not_matched_as_sent :
  ¬ host_matched_as_sent (H := Sample.env).
Proof.
  intros Hsent.
  specialize (Hsent "localhost:08080" "127.0.0.1" 8080 "localhost" "08080"
                8080 eq_refl eq_refl).
  assert ("localhost:08080" ∉ acceptable_hosts "127.0.0.1" 8080) as Hout.
  { apply (bool_decide_unpack _). vm_compute. exact I. }
  specialize (Hsent Hout). vm_compute in Hsent. discriminate Hsent.
Qed.

(** ** The keep-alive decision *)

Lemma all_ascii_complete c : c ∈ all_ascii.
Proof.
  unfold all_ascii. rewrite <- (ascii_nat_embedding c).
  apply list_elem_of_fmap_2, list_elem_of_In, in_seq.
  pose proof (nat_ascii_bounded c). lia.
Qed.

Lemma lower_char_plain_table :
  forallb (fun a =>
    forallb (fun b =>
      implb (plain_lower b)
        (Bool.eqb (Ascii.eqb (lower_char a) b)
           (Ascii.eqb (fold_case a) (fold_case b))))
      all_ascii) all_ascii = true.
Proof. vm_compute. reflexivity. Qed.

Lemma lower_char_plain a b :
  plain_lower b = true →
  Ascii.eqb (lower_char a) b = Ascii.eqb (fold_case a) (fold_case b).
Proof.
  intros Hb. pose proof lower_char_plain_table as Ht.
  rewrite forallb_forall in Ht.
  specialize (Ht a (proj1 (list_elem_of_In _ _) (all_ascii_complete a))).
  rewrite forallb_forall in Ht.
  specialize (Ht b (proj1 (list_elem_of_In _ _) (all_ascii_complete b))).
  rewrite Hb in Ht. simpl in Ht. by apply Bool.eqb_prop in Ht.
Qed.

(** Comparing [s.lower()] with a text of plain characters is comparing [s]
    with it up to letter case. *)
Lemma lower_eqb_nocase s t :
  all_chars plain_lower t = true →
  String.eqb (lower s) t = eq_nocase s t.
Proof.
  revert t. induction s as [|a s IH]; intros [|b t] Ht; try done.
  cbn [lower eq_nocase String.eqb all_chars] in *.
  apply andb_true_iff in Ht as [Hb Ht].
  rewrite (lower_char_plain a b Hb), (IH t Ht).
  by destruct (Ascii.eqb (fold_case a) (fold_case b)).
Qed.



(** ** The path resolver *)

Section ResolverFacts.
Context `{Env}.

(** A decoded path with [..] in it, or one that begins with [//], resolves
    to no path. *)
Lemma safe_join_rejects fs path clean_path :
  decoded_path path = Some clean_path →
  contains ".." clean_path = true ∨ startswith "//" clean_path = true →
  safe_join_resources fs path = Returns None.
Proof.
  intros Hd Hbad. unfold safe_join_resources. rewrite Hd.
  destruct (is_empty path); [done|].
  by destruct Hbad as [-> | ->]; rewrite ?orb_true_r.
Qed.

(** An empty decoded path, bare or after its leading slash, stands for
    [index.html]. *)
Lemma relative_path_index clean_path :
  clean_path = EmptyString ∨ clean_path = "/" →
  relative_path clean_path = "index.html".
Proof. by intros [-> | ->]. Qed.

Lemma safe_join_index fs path clean_path :
  path ≠ EmptyString →
  decoded_path path = Some clean_path →
  clean_path = EmptyString ∨ clean_path = "/" →
  safe_join_resources fs path
  = match realpath fs (path_join RESOURCE_DIR "index.html"),
          realpath fs RESOURCE_DIR with
    | Some cand_real, Some res_real =>
        if startswith res_real cand_real
        then Returns (Some cand_real) else Returns None
    | _, _ => Returns None
    end.
Proof.
  intros Hp Hd Hc. unfold safe_join_resources. rewrite Hd.
  destruct path; [done|]. cbn [is_empty].
  rewrite (relative_path_index _ Hc). by destruct Hc as [-> | ->].
Qed.

(** What the resolver does guarantee of an accepted path: the canonical
    root is a prefix of its text. *)
Lemma safe_join_text_prefix fs path p :
  safe_join_resources fs path = Returns (Some p) →
  ∃ res_real, realpath fs RESOURCE_DIR = Some res_real
              ∧ startswith res_real p = true.
Proof.
  unfold safe_join_resources. destruct (is_empty path); [done|].
  destruct (decoded_path path) as [clean|]; [|done].
  destruct (contains ".." clean || startswith "//" clean); [done|].
  destruct (realpath fs (path_join RESOURCE_DIR (relative_path clean)))
    as [cand|]; [|done].
  destruct (realpath fs RESOURCE_DIR) as [res|]; [|done].
  destruct (startswith res cand) eqn:Hs; [|done].
  intros [= <-]. eauto.
Qed.

End ResolverFacts.

(** C1, on the sample tree.  The resource root holds a link [shared] to its
    sibling directory [resources_private].  The resolver accepts the target
    [/shared/key.html] and returns the canonical path of a file in that
    sibling: the text of the canonical root is a prefix of the text of the
    path, which is all that the resolver compares, but the root is not a
    directory prefix of it.  The file responder then serves that file. *)
Theorem safe_join_accepts_sibling_of_root :
  safe_join_resources (H := Sample.env) Sample.tree escaping_target
  = Returns (Some escaped_file)
  ∧ realpath Sample.tree escaped_file = Some escaped_file
  ∧ realpath Sample.tree Sample.root = Some Sample.root
  ∧ startswith Sample.root escaped_file = true
  ∧ is_dir_prefix Sample.root escaped_file = false
  ∧ ∃ r, handle_get (H := Sample.env) Sample.tree escaping_target false
         = Returns [Sent r]
         ∧ resp_status r = 200
         ∧ resp_body r = "private".
Proof.
  split; [vm_refl|]. split; [vm_refl|]. split; [vm_refl|].
  split; [vm_refl|]. split; [vm_refl|].
  eexists. split; [vm_compute; reflexivity|]. split; reflexivity.
Qed.

(** ** The file responder *)

Lemma take_drop n s : take n s ++ drop n s = s.
Proof.
  revert s. induction n as [|n IH]; intros [|c s]; simpl; try done.
  by rewrite IH.
Qed.

Lemma take_empty n s :
  is_empty (take n s) = true → (0 < n)%nat → s = EmptyString.
Proof. destruct n, s; simpl; (done || lia). Qed.

Lemma raw_bytes_chunks l :
  raw_bytes (map SentRaw l) = String.concat EmptyString l.
Proof.
  induction l as [|a l IH]; [done|]. cbn [map raw_bytes]. rewrite IH.
  destruct l as [|b l]; simpl; [|done].
  clear IH. induction a as [|c a IH]; simpl; [done|]. by rewrite IH.
Qed.

(** The chunks read from a file add up to its content. *)
Lemma chunks_fuel_content fuel n content :
  (0 < n)%nat → (String.length content ≤ fuel)%nat →
  raw_bytes (map SentRaw (chunks_fuel fuel n content)) = content.
Proof.
  intros Hn. revert content.
  induction fuel as [|fuel IH]; intros content Hlen.
  - destruct content; [done|]. simpl in Hlen. lia.
  - cbn [chunks_fuel].
    destruct (is_empty (take n content)) eqn:He.
    + by rewrite (take_empty _ _ He Hn).
    + cbn [map raw_bytes]. rewrite IH; [apply take_drop|].
      rewrite length_drop. destruct content; [by destruct n|].
      simpl in *. lia.
Qed.

Lemma file_chunks_content content :
  raw_bytes (map SentRaw (file_chunks content)) = content.
Proof.
  apply chunks_fuel_content; [|done].
  unfold FILE_READ_CHUNK. lia.
Qed.

Lemma isfile_stat fs p :
  isfile fs p = true → ∃ content readable, stat fs p = Some (File content readable).
Proof.
  unfold isfile. destruct (stat fs p) as [[content readable| |t]|]; try done.
  eauto.
Qed.

Section GetRules.
Context `{Env}.

Lemma send_error_status code reason extra :
  sent_status (send_error code reason extra) = Some code.
Proof. done. Qed.

(** C5, as the code has it.  A GET whose target the resolver turns down
    (it returns no path), or resolves to a path that does not exist or is
    not a regular file, is answered 404.  When the resolver raises
    ([urlparse] refuses the target), the exception leaves [handle_get] and
    the connection handler answers 500 and leaves its loop.  For a resolved
    regular file, with [ext] its extension in lower case: if [ext] is
    [.html], the answer is, when the file is read, 200 with [Content-Type]
    [text/html; charset=utf-8], the content as body and its byte length as
    [Content-Length], and 500 when the file cannot be read; if [ext] is
    [.txt], [.png], [.jpg] or [.jpeg], the answer is a 200 head with
    [Content-Type] [application/octet-stream], the file size as
    [Content-Length] and a [Content-Disposition] attachment naming the base
    name of the file, followed, when the file is read, by chunks that add up
    to its content, and by a 500 response when it cannot be read; every other
    extension is answered 415. *)
Theorem handle_get_rules (fs : filesystem) (path : string)
    (keep_alive : bool) :
  ((safe_join_resources fs path = Returns None
    ∨ ∃ p, safe_join_resources fs path = Returns (Some p)
           ∧ (exists_ fs p = false ∨ isfile fs p = false)) →
   ∃ r, handle_get fs path keep_alive = Returns [Sent r]
        ∧ resp_status r = 404)
  ∧ (safe_join_resources fs path = Raises →
     handle_get fs path keep_alive = Raises
     ∧ ∀ req c,
         req_method req = "GET" → req_path req = path → conn_fs c = fs →
         ∃ r, dispatch req c = (false, emit c [Sent r])
              ∧ resp_status r = 500)
  ∧ ∀ p, safe_join_resources fs path = Returns (Some p) →
         exists_ fs p = true → isfile fs p = true →
      (lower (splitext_ext p) = ".html" →
       (∀ content, read_file fs p = Some content →
          ∃ r, handle_get fs path keep_alive = Returns [Sent r]
               ∧ resp_status r = 200
               ∧ resp_header r "Content-Type"
                 = Some "text/html; charset=utf-8"
               ∧ resp_header r "Content-Length"
                 = Some (str_of_Z (len content))
               ∧ resp_body r = content)
       ∧ (read_file fs p = None →
          ∃ r, handle_get fs path keep_alive = Returns [Sent r]
               ∧ resp_status r = 500))
      ∧ (lower (splitext_ext p) ∈ [".txt"; ".png"; ".jpg"; ".jpeg"] →
         ∃ content readable r rest,
           stat fs p = Some (File content readable)
           ∧ getsize fs p = Some (len content)
           ∧ handle_get fs path keep_alive = Returns (Sent r :: rest)
           ∧ resp_status r = 200
           ∧ resp_header r "Content-Type" = Some "application/octet-stream"
           ∧ resp_header r "Content-Length" = Some (str_of_Z (len content))
           ∧ resp_header r "Content-Disposition"
             = Some ("attachment; filename=" ++ String DQUOTE (basename p)
                     ++ String DQUOTE EmptyString)
           ∧ resp_body r = EmptyString
           ∧ (readable = true →
              rest = map SentRaw (file_chunks content)
              ∧ raw_bytes rest = content)
           ∧ (readable = false →
              ∃ r', rest = [Sent r'] ∧ resp_status r' = 500))
      ∧ (lower (splitext_ext p) ∉ [".html"; ".txt"; ".png"; ".jpg"; ".jpeg"] →
         ∃ r, handle_get fs path keep_alive = Returns [Sent r]
              ∧ resp_status r = 415).
Proof.
  split; [|split].
  - intros [Hn | (p & Hp & Hbad)]; unfold handle_get.
    + rewrite Hn. eexists. split; [reflexivity|done].
    + rewrite Hp.
      assert (negb (exists_ fs p) || negb (isfile fs p) = true) as ->
        by (destruct Hbad as [-> | ->]; by rewrite ?orb_true_r).
      eexists. split; [reflexivity|done].
  - intros Hraise.
    assert (∀ ka, handle_get fs path ka = Raises) as Hget
      by (intros ka; unfold handle_get; by rewrite Hraise).
    split; [apply Hget|].
    intros req c Hm Hp Hfs. unfold dispatch.
    rewrite Hm, Hp, Hfs, Hget.
    change (String.eqb "GET" "GET") with true. cbv iota.
    eexists. split; [reflexivity|done].
  - intros p Hp He Hf.
    assert (handle_get fs path keep_alive
            = Returns (serve_file fs p keep_alive)) as Hget
      by (unfold handle_get; by rewrite Hp, He, Hf).
    rewrite Hget. unfold serve_file.
    destruct (isfile_stat fs p Hf) as (content & readable & Hstat).
    split; [|split].
    + intros Hext. rewrite Hext.
      change (String.eqb ".html" ".html") with true. cbv iota.
      split.
      * intros content' Hread. rewrite Hread.
        eexists. split; [reflexivity|]. by repeat split.
      * intros Hread. rewrite Hread.
        eexists. split; [reflexivity|done].
    + intros Hext. exists content, readable.
      assert (String.eqb (lower (splitext_ext p)) ".html" = false) as ->.
      { apply String.eqb_neq. intros Heq. rewrite Heq in Hext.
        by repeat (apply elem_of_cons in Hext as [Hext|Hext];
                   [discriminate Hext|]); apply elem_of_nil in Hext. }
      assert (existsb (String.eqb (lower (splitext_ext p))) SUPPORTED_BINARY
              = true) as ->.
      { apply existsb_exists. exists (lower (splitext_ext p)).
        split; [by apply list_elem_of_In | apply String.eqb_refl]. }
      unfold getsize, read_file. rewrite Hstat.
      eexists _, _. repeat apply conj; try reflexivity.
      * intros ->. split; [reflexivity | apply file_chunks_content].
      * intros ->. eexists. split; [reflexivity|done].
    + intros Hext.
      assert (String.eqb (lower (splitext_ext p)) ".html" = false) as ->.
      { apply String.eqb_neq. intros Heq. apply Hext. rewrite Heq.
        apply elem_of_cons. by left. }
      assert (existsb (String.eqb (lower (splitext_ext p))) SUPPORTED_BINARY
              = false) as ->.
      { apply not_true_is_false. intros (x & Hin & Hx)%existsb_exists.
        apply String.eqb_eq in Hx. subst x. apply Hext.
        apply elem_of_cons. right. by apply list_elem_of_In. }
      eexists. split; [reflexivity|done].
Qed.

End GetRules.

Lemma handle_get_rules_witness :
  (∃ r, handle_get (H := Sample.env) Sample.tree "/nothing.html" true
        = Returns [Sent r]
        ∧ resp_status r = 404)
  ∧ handle_get (H := Sample.env) Sample.tree "//[" true = Raises
  ∧ (∃ r, handle_get (H := Sample.env) Sample.tree "/" true = Returns [Sent r]
          ∧ resp_status r = 200
          ∧ resp_header r "Content-Type" = Some "text/html; charset=utf-8"
          ∧ resp_header r "Content-Length" = Some "12"
          ∧ resp_body r = "hello world" ++ String LF EmptyString)
  ∧ (∃ r, handle_get (H := Sample.env) Sample.tree "/locked.html" true
          = Returns [Sent r]
          ∧ resp_status r = 500)
  ∧ (∃ content readable r rest,
       stat Sample.tree sample_logo = Some (File content readable)
       ∧ getsize Sample.tree sample_logo = Some (len content)
       ∧ handle_get (H := Sample.env) Sample.tree "/logo.png?size=big" false
         = Returns (Sent r :: rest)
       ∧ resp_status r = 200
       ∧ resp_header r "Content-Type" = Some "application/octet-stream"
       ∧ resp_header r "Content-Length" = Some (str_of_Z (len content))
       ∧ resp_header r "Content-Disposition"
         = Some ("attachment; filename=" ++ String DQUOTE (basename sample_logo)
                 ++ String DQUOTE EmptyString)
       ∧ resp_body r = EmptyString
       ∧ (readable = true →
          rest = map SentRaw (file_chunks content)
          ∧ raw_bytes rest = content)
       ∧ (readable = false →
          ∃ r', rest = [Sent r'] ∧ resp_status r' = 500))
  ∧ (∃ r, handle_get (H := Sample.env) Sample.tree "/notes.md" true
          = Returns [Sent r]
          ∧ resp_status r = 415).
Proof.
  split_and!.
  - apply (proj1 (handle_get_rules (H := Sample.env) Sample.tree "/nothing.html" true)).
    right. exists "/srv/http/resources/nothing.html".
    split; [vm_compute; reflexivity | left; vm_compute; reflexivity].
  - apply (proj1 (proj2 (handle_get_rules (H := Sample.env) Sample.tree
                           "//[" true))).
    vm_compute; reflexivity.
  - destruct (proj2 (proj2 (handle_get_rules (H := Sample.env) Sample.tree
                              "/" true)) sample_index)
      as (Hhtml & _ & _); [vm_compute; reflexivity ..|].
    apply (proj1 (Hhtml eq_refl) ("hello world" ++ String LF EmptyString)).
    vm_compute; reflexivity.
  - destruct (proj2 (proj2 (handle_get_rules (H := Sample.env) Sample.tree
                              "/locked.html" true)) sample_locked)
      as (Hhtml & _ & _); [vm_compute; reflexivity ..|].
    apply (proj2 (Hhtml eq_refl)). vm_compute; reflexivity.
  - destruct (proj2 (proj2 (handle_get_rules (H := Sample.env) Sample.tree
                              "/logo.png?size=big" false)) sample_logo)
      as (_ & Hbin & _); [vm_compute; reflexivity ..|].
    apply Hbin. vm_compute. apply elem_of_cons. right.
    apply elem_of_cons. by left.
  - destruct (proj2 (proj2 (handle_get_rules (H := Sample.env) Sample.tree
                              "/notes.md" true)) sample_notes)
      as (_ & _ & Hother); [vm_compute; reflexivity ..|].
    apply Hother. vm_compute.
    intros Hin. repeat (apply elem_of_cons in Hin as [Hin|Hin];
                        [discriminate Hin|]).
    by apply elem_of_nil in Hin.
Defined.

(** C5, as stated, fails twice.  The target [//[] is one that the resolver
    does not resolve: [urlparse] raises on it, and the request is not
    answered 404 (the connection handler answers 500).  The page
    [/locked.html] is a regular file with extension [.html] that cannot be
    read, and the request is answered 500, not 200. *)
Lemma get_rules_not_as_stated :
  ¬ get_404_when_unresolved (H := Sample.env)
  ∧ ¬ get_200_for_html (H := Sample.env).
Proof.
  split.
  - intros Hrule.
    destruct (Hrule Sample.tree "//[" true) as (r & Hr & _).
    + intros p Hp. vm_compute in Hp. discriminate Hp.
    + vm_compute in Hr. discriminate Hr.
  - intros Hrule.
    destruct (Hrule Sample.tree "/locked.html" true sample_locked)
      as (r & rest & Hr & Hs); [vm_compute; reflexivity ..|].
    assert (handle_get (H := Sample.env) Sample.tree "/locked.html" true
            = Returns [internal_error (H := Sample.env)]) as Hget
      by (vm_compute; reflexivity).
    rewrite Hget in Hr. injection Hr as <- _. discriminate Hs.
Qed.

(** ** The upload responder *)

Section PostRules.
Context `{Env}.

(** C6, as the code has it.  With the media type of a POST being the text
    of its [Content-Type] before the first semicolon, stripped of surrounding
    whitespace (the empty text when the header is missing): a media type
    other than [application/json] is answered 415 and the file system is left
    as it was; media type [application/json] with a body that does not decode
    and parse as JSON is answered 400 and the file system is left as it
    was. *)
Theorem handle_post_rejections (fs : filesystem)
    (headers : gmap string string) (body : string) (keep_alive : bool) :
  (media_type (header_get headers "Content-Type" EmptyString)
   ≠ "application/json" →
   ∃ r, handle_post fs headers body keep_alive = ([Sent r], fs)
        ∧ resp_status r = 415)
  ∧ (media_type (header_get headers "Content-Type" EmptyString)
     = "application/json" →
     json_loads body = None →
     ∃ r, handle_post fs headers body keep_alive = ([Sent r], fs)
          ∧ resp_status r = 400).
Proof.
  unfold handle_post. split.
  - intros Hne. apply String.eqb_neq in Hne. rewrite Hne.
    eexists. split; [reflexivity|done].
  - intros -> ->. eexists. split; [reflexivity|done].
Qed.

End PostRules.

Lemma handle_post_rejections_witness :
  (∃ r, handle_post (H := Sample.env) Sample.tree
          {[ "Content-Type" := "text/plain" ]} "hi" true
        = ([Sent r], Sample.tree)
        ∧ resp_status r = 415)
  ∧ (∃ r, handle_post (H := Sample.env) Sample.tree
            {[ "Content-Type" := "application/json; charset=utf-8" ]}
            "{not json" true
          = ([Sent r], Sample.tree)
          ∧ resp_status r = 400).
Proof.
  split.
  - apply (proj1 (handle_post_rejections (H := Sample.env) Sample.tree
                    {[ "Content-Type" := "text/plain" ]} "hi" true)).
    vm_compute. discriminate.
  - apply (proj2 (handle_post_rejections (H := Sample.env) Sample.tree
                    {[ "Content-Type" := "application/json; charset=utf-8" ]}
                    "{not json" true));
      vm_compute; reflexivity.
Defined.

(** C6, as stated, fails: the text before the semicolon of
    [application/json ; charset=utf-8] ends with a space, so it is not
    [application/json], and yet the upload is accepted. *)
Lemma post_with_spaced_media_type_accepted :
  ¬ post_415_on_raw_prefix (H := Sample.env).
Proof.
  intros Hrule.
  destruct (Hrule Sample.tree spaced_json_headers "[1, 2]" true)
    as (r & Hr & Hs).
  - vm_compute. discriminate.
  - apply (f_equal fst) in Hr. vm_compute in Hr.
    injection Hr as <-. discriminate Hs.
Qed.

(** ** The worker pool and the accept loop *)

Section PoolRules.
Context `{Env}.

(** [submit] answers at once, for every pool: [true] exactly when the
    pending queue holds fewer than [CONN_QUEUE_MAX] = 200 connections, and
    then the connection is appended to the queue; [false] exactly when the
    queue holds 200 or more, and then the pool is left as it was.  After a
    refusal the accept loop sends a 503 response with [Retry-After: 5],
    [Content-Type: text/html; charset=utf-8], [Connection: close] and a short
    HTML body; when the response is delivered it closes the socket, and when
    [sendall] raises it does nothing more to the socket.  A queue within its
    capacity stays within it. *)
Lemma submit_admission {A : Type} (pool : thread_pool A) (client : A) :
  CONN_QUEUE_MAX = 200%nat
  ∧ (fst (submit pool client) = true
     ↔ (length (task_queue pool) < CONN_QUEUE_MAX)%nat)
  ∧ (fst (submit pool client) = false
     ↔ (CONN_QUEUE_MAX ≤ length (task_queue pool))%nat)
  ∧ (fst (submit pool client) = true →
     task_queue (snd (submit pool client))
     = (task_queue pool ++ [client])%list
     ∧ ∀ delivered,
         accept_step pool client delivered = (snd (submit pool client), []))
  ∧ (fst (submit pool client) = false →
     snd (submit pool client) = pool
     ∧ accept_step pool client false = (pool, [])
     ∧ ∃ r, accept_step pool client true = (pool, [Sent r; Closed])
            ∧ resp_status r = 503
            ∧ resp_header r "Retry-After" = Some "5"
            ∧ resp_header r "Content-Type" = Some "text/html; charset=utf-8"
            ∧ resp_header r "Connection" = Some "close"
            ∧ resp_body r
              = "<html><body><h1>503 Service Unavailable</h1></body></html>")
  ∧ ((length (task_queue pool) ≤ CONN_QUEUE_MAX)%nat →
     (length (task_queue (snd (submit pool client))) ≤ CONN_QUEUE_MAX)%nat).
Proof.
  unfold accept_step, submit, put_nowait.
  destruct (Nat.ltb_spec (length (task_queue pool)) CONN_QUEUE_MAX) as [Hlt|Hge];
    cbn [fst snd task_queue].
  - repeat apply conj; try done; try lia.
    rewrite length_app. cbn [length]. lia.
  - repeat apply conj; try done; try lia.
    intros _. split; [done|]. split; [done|].
    eexists. split; [reflexivity|]. by repeat split.
Qed.

End PoolRules.

(** C8, on a full pool.  A refused client is not always closed.  With the
    queue at its capacity [submit] answers [false] and leaves the pool as it
    was.  When the 503 response is delivered, the accept loop closes the
    socket after it.  When [sendall] raises, nothing is sent and the socket
    is not closed: the accept loop leaves it open. *)
Theorem refused_client_left_open :
  submit full_pool 200%nat = (false, full_pool)
  ∧ (∃ r, accept_step (H := Sample.env) full_pool 200%nat true
          = (full_pool, [Sent r; Closed])
          ∧ resp_status r = 503)
  ∧ accept_step (H := Sample.env) full_pool 200%nat false = (full_pool, [])
  ∧ Closed ∉ snd (accept_step (H := Sample.env) full_pool 200%nat false).
Proof.
  assert (accept_step (H := Sample.env) full_pool 200%nat false
          = (full_pool, [])) as Hopen by reflexivity.
  split; [reflexivity|]. split; [|split; [exact Hopen|]].
  - eexists. split; reflexivity.
  - rewrite Hopen. apply not_elem_of_nil.
Qed.

(** ** The file system *)

Lemma joinrealpath_cons fuel fs path name rest :
  joinrealpath fuel fs path (name :: rest)
  = if is_skip name then joinrealpath fuel fs path rest
    else if String.eqb name ".." then joinrealpath fuel fs (removelast path) rest
    else
      match readlink fs (abs_path (path ++ [name])) with
      | Some target =>
          match fuel with
          | O => ((path ++ [name]) ++ rest, false)%list
          | S fuel' =>
              let '(path', ok) :=
                joinrealpath fuel' fs
                  (if startswith "/" target then [] else path)
                  (split "/" target) in
              if ok then joinrealpath fuel fs path' rest
              else ((path' ++ rest)%list, false)
          end
      | None => joinrealpath fuel fs (path ++ [name])%list rest
      end.
Proof. destruct fuel; reflexivity. Qed.

Lemma joinrealpath_nil fuel fs path :
  joinrealpath fuel fs path [] = (path, true).
Proof. by destruct fuel. Qed.

(** Resolution looks at the links of the file system only. *)
Lemma joinrealpath_same_links fuel fs fs' path rest :
  (∀ p, readlink fs p = readlink fs' p) →
  joinrealpath fuel fs path rest = joinrealpath fuel fs' path rest.
Proof.
  intros Hlinks. revert path rest.
  induction fuel as [|fuel IHf]; intros path rest; revert path;
    induction rest as [|name rest IHr]; intros path;
    rewrite ?joinrealpath_nil; try done;
    rewrite !joinrealpath_cons, <- Hlinks;
    destruct (is_skip name); auto;
    destruct (String.eqb name ".."); auto;
    destruct (readlink fs (abs_path (path ++ [name]))) as [target|]; auto.
  rewrite IHf.
  destruct (joinrealpath fuel fs'
              (if startswith "/" target then [] else path) (split "/" target))
    as [path' [|]]; auto.
Qed.

(** A resolution that succeeds is not changed by more fuel. *)
Lemma joinrealpath_more_fuel fuel fs path rest r :
  joinrealpath fuel fs path rest = (r, true) →
  joinrealpath (S fuel) fs path rest = (r, true).
Proof.
  revert path rest r.
  induction fuel as [|fuel IHf]; intros path rest; revert path;
    induction rest as [|name rest IHr]; intros path r;
    rewrite ?joinrealpath_nil; try done;
    rewrite !joinrealpath_cons;
    destruct (is_skip name); auto;
    destruct (String.eqb name ".."); auto;
    destruct (readlink fs (abs_path (path ++ [name]))) as [target|]; auto;
    try done.
  destruct (joinrealpath fuel fs
              (if startswith "/" target then [] else path) (split "/" target))
    as [path' [|]] eqn:Hin; [|done].
  rewrite (IHf _ _ _ Hin). auto.
Qed.

Lemma joinrealpath_fuel_le fuel fuel' fs path rest r :
  (fuel ≤ fuel')%nat →
  joinrealpath fuel fs path rest = (r, true) →
  joinrealpath fuel' fs path rest = (r, true).
Proof.
  induction 1 as [|fuel' Hle IH]; [done|].
  intros Hr. by apply joinrealpath_more_fuel, IH.
Qed.

(** What a successful write has done. *)
Lemma open_write_inv fs p k readable :
  open_write fs p = Some (k, readable) →
  contains (String NUL EmptyString) p = false
  ∧ ∃ comps,
      comps ≠ []
      ∧ resolve fs p = (comps, true)
      ∧ k = abs_path comps
      ∧ (fs !! k = None ∨ ∃ old, fs !! k = Some (File old readable)).
Proof.
  unfold open_write.
  destruct (contains (String NUL EmptyString) p); [done|].
  destruct (resolve fs p) as [comps [|]]; [|done].
  destruct (stat fs (abs_path (removelast comps))) as [[| |]|]; try done.
  destruct comps as [|c comps]; [done|].
  destruct (fs !! abs_path (c :: comps)) as [[old r| |t]|] eqn:Hk;
    try done; intros [= <- <-]; (split; [done|]);
    exists (c :: comps); eauto 8.
Qed.

Lemma write_file_inv `{Env} fs p content fs' :
  write_file fs p content = Some fs' →
  contains (String NUL EmptyString) p = false
  ∧ ∃ comps readable,
      comps ≠ []
      ∧ resolve fs p = (comps, true)
      ∧ fs' = <[abs_path comps := File content readable]> fs
      ∧ (fs !! abs_path comps = None
         ∨ ∃ old, fs !! abs_path comps = Some (File old readable)).
Proof.
  unfold write_file.
  destruct (open_write fs p) as [[k readable]|] eqn:Hopen; [|done].
  destruct write_fault; [done|]. intros [= <-].
  apply open_write_inv in Hopen as (Hnul & comps & Hne & Hres & -> & Hold).
  split; [done|]. by exists comps, readable.
Qed.

(** Looking at a file that was opened for writing: the path leads to the
    regular file and to what was written to it. *)
Lemma stat_written fs p k readable content :
  open_write fs p = Some (k, readable) →
  stat (<[k := File content readable]> fs) p = Some (File content readable).
Proof.
  intros (Hnul & comps & Hne & Hres & -> & Hold)%open_write_inv.
  unfold stat. rewrite Hnul.
  set (k := abs_path comps) in *.
  assert (resolve (<[k := File content readable]> fs) p = (comps, true)) as ->.
  { unfold resolve in *.
    apply (joinrealpath_fuel_le (size fs)).
    - destruct Hold as [Hn|(old & Hs)].
      + rewrite map_size_insert_None by done. lia.
      + rewrite map_size_insert_Some by eauto. lia.
    - rewrite <- Hres. symmetry. apply joinrealpath_same_links.
      intros q. unfold readlink.
      destruct (decide (k = q)) as [<-|Hq].
      + rewrite lookup_insert_eq. by destruct Hold as [->|(old & ->)].
      + by rewrite lookup_insert_ne. }
  destruct comps as [|c comps]; [done|].
  fold k. by rewrite lookup_insert_eq.
Qed.

(** Writing a file and looking at it: the path leads to a regular file
    with the content written. *)
Lemma write_file_stat `{Env} fs p content fs' :
  write_file fs p content = Some fs' →
  ∃ readable, stat fs' p = Some (File content readable).
Proof.
  unfold write_file.
  destruct (open_write fs p) as [[k readable]|] eqn:Hopen; [|done].
  destruct write_fault; [done|]. intros [= <-].
  exists readable. by apply stat_written.
Qed.

(** ** The name of an upload *)

Lemma shape_matches_app p1 p2 s1 s2 :
  shape_matches p1 s1 = true → shape_matches p2 s2 = true →
  shape_matches (p1 ++ p2) (s1 ++ s2) = true.
Proof.
  revert s1. induction p1 as [|p p1 IH]; intros [|c s1] H1 H2;
    simpl in *; try done.
  apply andb_true_iff in H1 as [-> H1]. by apply IH.
Qed.

Lemma pad2_table :
  forallb (fun n => shape_matches (repeat is_decimal 2) (pad2 n)) (seq 0 100)
  = true.
Proof. vm_compute. reflexivity. Qed.

Lemma pad4_table :
  forallb (fun n => shape_matches (repeat is_decimal 4) (pad4 n))
    (seq 1000 (Z.to_nat 9000))
  = true.
Proof. vm_compute. reflexivity. Qed.

Lemma alphabet_table :
  forallb (fun i => is_lower_alnum (char_at ALPHABET i))
    (seq 0 (String.length ALPHABET))
  = true.
Proof. vm_compute. reflexivity. Qed.

Lemma pad2_shape n :
  (n ≤ 99)%nat → shape_matches (repeat is_decimal 2) (pad2 n) = true.
Proof.
  intros Hn. pose proof pad2_table as Ht. rewrite forallb_forall in Ht.
  apply Ht, in_seq. lia.
Qed.

Lemma pad4_shape n :
  1000 ≤ Z.of_nat n ≤ 9999 →
  shape_matches (repeat is_decimal 4) (pad4 n) = true.
Proof.
  intros Hn. pose proof pad4_table as Ht. rewrite forallb_forall in Ht.
  apply Ht, in_seq. lia.
Qed.

Lemma strftime_stamp_shape t :
  plausible_datetime t → shape_matches stamp_pattern (strftime_stamp t) = true.
Proof.
  intros (Hy & Hm & Hd & Hh & Hmi & Hs).
  unfold strftime_stamp, stamp_pattern.
  change (repeat is_decimal 8 ++ [Ascii.eqb "_"] ++ repeat is_decimal 6)%list
    with (repeat is_decimal 4 ++ repeat is_decimal 2 ++ repeat is_decimal 2
          ++ [Ascii.eqb "_"] ++ repeat is_decimal 2 ++ repeat is_decimal 2
          ++ repeat is_decimal 2)%list.
  repeat (apply shape_matches_app;
          [first [ by apply pad4_shape | apply pad2_shape; lia | done ] |]).
  apply pad2_shape. lia.
Qed.

Lemma random_id_shape draw : shape_matches id_pattern (random_id draw) = true.
Proof.
  assert (∀ k, is_lower_alnum
                 (char_at ALPHABET (k mod String.length ALPHABET)) = true)
    as Hc.
  { intros k. pose proof alphabet_table as Ht. rewrite forallb_forall in Ht.
    apply Ht, in_seq.
    pose proof (Nat.mod_upper_bound k (String.length ALPHABET)) as Hb.
    cbn [String.length ALPHABET] in *. lia. }
  unfold random_id, id_pattern. cbn [map string_of_list_ascii repeat shape_matches].
  by rewrite !Hc.
Qed.

(** ** The JSON reader and writer of the model *)

Module CodecFacts.
Import Sample.
Import Codec.

Lemma digit_char_value d :
  (d < 10)%N → digit_value (pretty_N_char d) = Some (Z.of_N d).
Proof.
  intros Hd.
  assert (d = 0 ∨ d = 1 ∨ d = 2 ∨ d = 3 ∨ d = 4 ∨ d = 5 ∨ d = 6 ∨ d = 7
          ∨ d = 8 ∨ d = 9)%N as Hcases by lia.
  by repeat (destruct Hcases as [->|Hcases]; [done|]); subst d.
Qed.

Lemma is_digit_value c : is_digit c = true ↔ is_Some (digit_value c).
Proof.
  unfold is_digit.
  destruct (digit_value c) as [d|];
    [split; [by eexists|done] | split; [done | by intros [? ?]]].
Qed.

(** The digits that [pretty_N_go] puts before its accumulator. *)
Lemma pretty_N_go_digits x :
  ∃ d k,
    (∀ s, pretty_N_go x s = d ++ s)
    ∧ all_chars is_digit d = true
    ∧ (∀ acc t,
         digits_value acc (d ++ t) = digits_value (acc * 10 ^ k + Z.of_N x) t)
    ∧ 0 ≤ k
    ∧ ((0 < x)%N → ∃ c d', d = String c d' ∧ c ≠ "0"%char).
Proof.
  induction (N.lt_wf_0 x) as [x _ IH].
  destruct (decide (x = 0)%N) as [->|Hx].
  { exists EmptyString, 0. split_and!; [done|done| |done|intros ?; lia].
    intros acc t. cbn [String.append]. f_equal. lia. }
  assert (0 < x)%N as Hpos by lia.
  destruct (IH (x `div` 10)%N) as (d & k & Hgo & Hall & Hval & Hk & Hhead).
  { by apply N.div_lt. }
  set (ch := pretty_N_char (x `mod` 10)).
  assert (digit_value ch = Some (Z.of_N (x `mod` 10))) as Hch
    by (apply digit_char_value, N.mod_lt; lia).
  exists (d ++ String ch EmptyString), (k + 1). split_and!.
  - intros s. rewrite pretty_N_go_step, Hgo by done.
    by rewrite append_assoc.
  - clear -Hall Hch. induction d as [|c d IHd]; cbn [String.append all_chars].
    + rewrite andb_true_r. apply is_digit_value. by rewrite Hch.
    + cbn [all_chars] in Hall. apply andb_true_iff in Hall as [-> Hall].
      by apply IHd.
  - intros acc t. rewrite append_assoc, Hval. cbn [String.append digits_value].
    rewrite Hch. f_equal. rewrite Z.pow_add_r, Z.pow_1_r by lia.
    assert (Z.of_N x = 10 * Z.of_N (x `div` 10) + Z.of_N (x `mod` 10)) as Hx'.
    { rewrite (N.div_mod x 10) at 1 by lia.
      rewrite N2Z.inj_add, N2Z.inj_mul. done. }
    rewrite Hx'. ring.
  - lia.
  - intros _. destruct (decide (x `div` 10 = 0)%N) as [Hz|Hnz].
    + rewrite Hz in Hgo. specialize (Hgo EmptyString).
      rewrite pretty_N_go_0 in Hgo. rewrite append_nil_r in Hgo. subst d.
      exists ch, EmptyString. split; [done|].
      assert (x `mod` 10 = x)%N as Hm.
      { apply N.mod_small. apply N.div_small_iff in Hz; lia. }
      intros H0. subst ch. rewrite Hm in *.
      apply (pretty_N_char_inj x 0%N) in H0; [lia| |lia].
      rewrite <- Hm. apply N.mod_lt. lia.
    + destruct Hhead as (c & d' & -> & Hc); [by apply N.neq_0_lt_0|].
      exists c, (d' ++ String ch EmptyString). by split.
Qed.

(** The text of an integer: the digits of its absolute value, without a
    leading zero, after a minus sign when it is negative. *)
Lemma str_of_Z_digits n :
  ∃ d,
    str_of_Z n = (if n <? 0 then "-" else EmptyString) ++ d
    ∧ all_chars is_digit d = true
    ∧ digits_value 0 d = Some (Z.abs n)
    ∧ is_empty d = false
    ∧ startswith "0" d && (1 <? String.length d)%nat = false.
Proof.
  assert (∀ p : positive,
            ∃ d, pretty (N.pos p) = d
                 ∧ all_chars is_digit d = true
                 ∧ digits_value 0 d = Some (Z.pos p)
                 ∧ is_empty d = false
                 ∧ startswith "0" d = false) as Hpos.
  { intros p. destruct (pretty_N_go_digits (N.pos p))
      as (d & k & Hgo & Hall & Hval & _ & Hhead).
    destruct Hhead as (c & d' & -> & Hc); [done|].
    exists (String c d'). split_and!; try done.
    - unfold pretty, pretty_N. rewrite decide_False by done.
      by rewrite Hgo, append_nil_r.
    - specialize (Hval 0 EmptyString). rewrite append_nil_r in Hval.
      rewrite Hval. by cbn.
    - cbn [startswith]. destruct (Ascii.eqb_spec "0" c); [by subst|done]. }
  unfold str_of_Z. destruct n as [|p|p].
  - by exists "0".
  - destruct (Hpos p) as (d & Hd & Hall & Hval & Hne & Hz).
    exists d. split_and!; try done. by rewrite Hz.
  - destruct (Hpos p) as (d & Hd & Hall & Hval & Hne & Hz).
    exists d. split_and!; try done.
    + unfold pretty, pretty_Z. by rewrite <- Hd.
    + by rewrite Hz.
Qed.

Lemma take_until_digits d rest :
  all_chars is_digit d = true → number_ends rest = true →
  take_until (fun c => negb (is_digit c)) (d ++ rest) = d.
Proof.
  intros Hd Hrest. induction d as [|c d IH]; cbn [String.append].
  - destruct rest as [|c rest]; [done|]. cbn [take_until].
    cbn [number_ends] in Hrest.
    by destruct (is_digit c).
  - cbn [all_chars] in Hd. apply andb_true_iff in Hd as [Hc Hd].
    cbn [take_until]. rewrite Hc. cbn [negb]. by rewrite IH.
Qed.

Lemma drop_app_length a b : drop (String.length a) (a ++ b) = b.
Proof. induction a as [|c a IH]; [by destruct b|]. apply IH. Qed.

Lemma read_number_unfold s :
  read_number s
  = if startswith "-" s then read_digits true (drop 1 s)
    else read_digits false s.
Proof.
  destruct s as [|c s]; [done|].
  by destruct c as [[] [] [] [] [] [] [] []].
Qed.

Lemma number_ends_start rest :
  number_ends rest = true →
  startswith "." rest || startswith "e" rest || startswith "E" rest = false.
Proof.
  destruct rest as [|c rest]; [done|]. cbn [number_ends startswith].
  intros (((_ & H1)%andb_true_iff & H2)%andb_true_iff & H3)%andb_true_iff.
  rewrite (Ascii.eqb_sym "." c), (Ascii.eqb_sym "e" c), (Ascii.eqb_sym "E" c).
  by destruct (Ascii.eqb c "."), (Ascii.eqb c "e"), (Ascii.eqb c "E").
Qed.

Lemma read_number_text n rest :
  number_ends rest = true →
  read_number (str_of_Z n ++ rest) = Some (JInt n, rest).
Proof.
  intros Hrest.
  destruct (str_of_Z_digits n) as (d & -> & Hall & Hval & Hne & Hz).
  assert (read_digits (n <? 0) (d ++ rest)
          = Some (JInt (if n <? 0 then - Z.abs n else Z.abs n), rest)) as Hd.
  { unfold read_digits. rewrite (take_until_digits d rest Hall Hrest).
    rewrite drop_app_length, Hne, Hz, (number_ends_start rest Hrest), Hval.
    done. }
  rewrite read_number_unfold.
  destruct (Z.ltb_spec n 0) as [Hneg|Hpos].
  - cbn [String.append startswith drop]. rewrite Hd. do 3 f_equal. lia.
  - cbn [String.append].
    assert (startswith "-" (d ++ rest) = false) as ->.
    { destruct d as [|c d]; [done|]. cbn [all_chars] in Hall.
      apply andb_true_iff in Hall as [Hc _]. cbn [String.append startswith].
      destruct (Ascii.eqb_spec "-" c) as [<-|]; [done|done]. }
    rewrite Hd. do 3 f_equal. lia.
Qed.

(** *** Strings and blanks *)

Lemma plain_char_not_quote c :
  plain_char c = true → Ascii.eqb c DQUOTE = false.
Proof. destruct (Ascii.eqb_spec c DQUOTE) as [->|]; [by cbn|done]. Qed.

Lemma read_string_quote s rest :
  all_chars plain_char s = true →
  read_string (s ++ String DQUOTE rest) = Some (s, rest).
Proof.
  induction s as [|c s IH]; cbn [String.append read_string all_chars].
  - by rewrite Ascii.eqb_refl.
  - intros [Hc Hs]%andb_true_iff.
    by rewrite (plain_char_not_quote c Hc), Hc, (IH Hs).
Qed.

Lemma read_string_plain s t rest :
  read_string s = Some (t, rest) → all_chars plain_char t = true.
Proof.
  revert t rest.
  induction s as [|c s IH]; intros t rest; cbn [read_string]; [done|].
  destruct (Ascii.eqb c DQUOTE); [by intros [= <- _]|].
  destruct (plain_char c) eqn:Hc; [|done].
  destruct (read_string s) as [[t' rest']|]; [|done].
  intros [= <- _]. cbn [all_chars]. by rewrite Hc, (IH t' rest').
Qed.

Lemma skip_space_spaces n s : skip_space (spaces n ++ s) = skip_space s.
Proof. induction n as [|n IH]; [done|]. exact IH. Qed.

Lemma skip_space_newline level s :
  skip_space (newline level ++ s) = skip_space s.
Proof. unfold newline. cbn [String.append skip_space]. apply skip_space_spaces. Qed.

Lemma skip_space_idem s : skip_space (skip_space s) = skip_space s.
Proof.
  induction s as [|c s IH]; [done|]. cbn [skip_space].
  destruct (is_json_space c) eqn:Hc; [done|]. cbn [skip_space]. by rewrite Hc.
Qed.

(** *** The reader, case by case *)

Lemma read_value_unfold fuel s :
  read_value (S fuel) s
  = match skip_space s with
    | EmptyString => None
    | String c t =>
        if Ascii.eqb c "n" then read_literal "null" JNull (String c t)
        else if Ascii.eqb c "t" then read_literal "true" (JBool true) (String c t)
        else if Ascii.eqb c "f" then read_literal "false" (JBool false) (String c t)
        else if Ascii.eqb c "[" then read_array fuel t
        else if Ascii.eqb c "{" then read_object fuel t
        else if Ascii.eqb c DQUOTE then lift JString (read_string t)
        else read_number (String c t)
    end.
Proof.
  cbn [read_value]. destruct (skip_space s) as [|c t]; [done|].
  destruct c as [[] [] [] [] [] [] [] []]; try reflexivity;
    unfold read_array, read_object;
    (destruct (skip_space t) as [|c' r]; [reflexivity|]);
    by destruct c' as [[] [] [] [] [] [] [] []].
Qed.

Lemma read_items_unfold fuel s :
  read_items (S fuel) s
  = match read_value fuel s with
    | Some (v, rest) =>
        match skip_space rest with
        | String c r =>
            if Ascii.eqb c "," then lift (cons v) (read_items fuel r)
            else if Ascii.eqb c "]" then Some ([v], r)
            else None
        | EmptyString => None
        end
    | None => None
    end.
Proof.
  cbn [read_items]. destruct (read_value fuel s) as [[v rest]|]; [|done].
  destruct (skip_space rest) as [|c r]; [done|].
  by destruct c as [[] [] [] [] [] [] [] []].
Qed.

Lemma read_members_unfold fuel acc s :
  read_members (S fuel) acc s
  = match skip_space s with
    | String c t =>
        if Ascii.eqb c DQUOTE then
          match read_string t with
          | Some (k, rest) =>
              match skip_space rest with
              | String c1 rest1 =>
                  if Ascii.eqb c1 ":" then
                    match read_value fuel rest1 with
                    | Some (v, rest2) =>
                        match skip_space rest2 with
                        | String c2 rest3 =>
                            if Ascii.eqb c2 ","
                            then read_members fuel (set_member k v acc) rest3
                            else if Ascii.eqb c2 "}"
                            then Some (set_member k v acc, rest3)
                            else None
                        | EmptyString => None
                        end
                    | None => None
                    end
                  else None
              | EmptyString => None
              end
          | None => None
          end
        else None
    | EmptyString => None
    end.
Proof.
  cbn [read_members]. destruct (skip_space s) as [|c t]; [done|].
  destruct (Ascii.eqb c DQUOTE); [|done].
  destruct (read_string t) as [[k rest]|]; [|done].
  destruct (skip_space rest) as [|c1 rest1]; [done|].
  destruct c1 as [[] [] [] [] [] [] [] []]; try reflexivity.
  cbn [Ascii.eqb Bool.eqb].
  destruct (read_value fuel rest1) as [[v rest2]|]; [|done].
  destruct (skip_space rest2) as [|c2 rest3]; [done|].
  by destruct c2 as [[] [] [] [] [] [] [] []].
Qed.

(** *** Values that the reader returns *)

Lemma foldr_and_Forall {A} (Q : A → Prop) l :
  foldr (fun x acc => Q x ∧ acc) True l ↔ Forall Q l.
Proof.
  induction l as [|x l IH]; cbn [foldr]; [by split|].
  rewrite IH. split; [intros [? ?]; by constructor | by inversion 1].
Qed.

Lemma wf_array items : wf (JArray items) ↔ Forall wf items.
Proof. apply foldr_and_Forall. Qed.

Lemma wf_object members : wf (JObject members) ↔ wf_members members.
Proof.
  unfold wf_members. cbn [wf].
  by rewrite (foldr_and_Forall wf_member members).
Qed.

Lemma set_member_keys k v acc :
  map fst (set_member k v acc)
  = if bool_decide (k ∈ map fst acc) then map fst acc
    else (map fst acc ++ [k])%list.
Proof.
  induction acc as [|[k' v'] acc IH]; [done|]. cbn [set_member map fst].
  destruct (String.eqb_spec k' k) as [->|Hne].
  - cbn [map fst]. rewrite bool_decide_eq_true_2; [done|]. by left.
  - cbn [map fst]. rewrite IH.
    destruct (bool_decide (k ∈ map fst acc)) eqn:Hin.
    + apply bool_decide_eq_true in Hin.
      rewrite bool_decide_eq_true_2; [done|]. by right.
    + apply bool_decide_eq_false in Hin.
      rewrite bool_decide_eq_false_2; [done|].
      intros [?|?]%elem_of_cons; [by subst|done].
Qed.

Lemma set_member_fresh k v acc :
  k ∉ map fst acc → set_member k v acc = (acc ++ [(k, v)])%list.
Proof.
  induction acc as [|[k' v'] acc IH]; [done|]. cbn [set_member map fst].
  intros Hk. destruct (String.eqb_spec k' k) as [->|Hne].
  - destruct Hk. by left.
  - cbn [app]. rewrite IH; [done|]. intros Hin. apply Hk. by right.
Qed.

Lemma set_member_wf k v acc :
  wf_member (k, v) → wf_members acc → wf_members (set_member k v acc).
Proof.
  intros Hkv [Hall Hnd]. split.
  - clear Hnd. induction acc as [|[k' v'] acc IH]; cbn [set_member].
    + by constructor.
    + inversion Hall as [|? ? Hhead Htail]; subst.
      destruct (String.eqb_spec k' k) as [->|Hne].
      * constructor; [|done]. split; [apply Hhead|apply Hkv].
      * constructor; [done|]. by apply IH.
  - rewrite set_member_keys. destruct (bool_decide _) eqn:Hin; [done|].
    apply bool_decide_eq_false in Hin.
    apply NoDup_app. split; [done|]. split.
    + intros x Hx [->|Habs]%elem_of_cons; [done|]. by apply elem_of_nil in Habs.
    + apply NoDup_singleton.
Qed.

Lemma read_literal_value word v s v' rest :
  read_literal word v s = Some (v', rest) → v' = v.
Proof. unfold read_literal. destruct (startswith word s); by intros [= <- _]. Qed.

Lemma read_number_int s v rest :
  read_number s = Some (v, rest) → ∃ n, v = JInt n.
Proof.
  rewrite read_number_unfold. unfold read_digits.
  destruct (startswith "-" s);
    (destruct (_ && _); [|done]);
    (destruct (digits_value 0 _) as [n|]; [|done]);
    intros [= <- _]; eauto.
Qed.

(** What the reader returns is well formed. *)
Lemma read_wf fuel :
  (∀ s v rest, read_value fuel s = Some (v, rest) → wf v)
  ∧ (∀ s vs rest, read_items fuel s = Some (vs, rest) → Forall wf vs)
  ∧ (∀ acc s ms rest,
       read_members fuel acc s = Some (ms, rest) →
       wf_members acc → wf_members ms).
Proof.
  induction fuel as [|fuel (IHv & IHi & IHm)]; [by split_and!|].
  split_and!.
  - intros s v rest. rewrite read_value_unfold.
    destruct (skip_space s) as [|c t]; [done|].
    destruct (Ascii.eqb c "n"); [by intros ->%read_literal_value|].
    destruct (Ascii.eqb c "t"); [by intros ->%read_literal_value|].
    destruct (Ascii.eqb c "f"); [by intros ->%read_literal_value|].
    destruct (Ascii.eqb c "[").
    { unfold read_array.
      assert (∀ u, lift JArray (read_items fuel u) = Some (v, rest) → wf v)
        as Hitems.
      { intros u. destruct (read_items fuel u) as [[items r]|] eqn:Hr; [|done].
        intros [= <- _]. apply wf_array. by eapply IHi. }
      destruct (skip_space t) as [|c' r]; [apply Hitems|].
      destruct (Ascii.eqb c' "]"); [by intros [= <- _]|apply Hitems]. }
    destruct (Ascii.eqb c "{").
    { unfold read_object.
      assert (∀ u, lift JObject (read_members fuel [] u) = Some (v, rest) →
                   wf v) as Hmembers.
      { intros u.
        destruct (read_members fuel [] u) as [[ms r]|] eqn:Hr; [|done].
        intros [= <- _]. apply wf_object. eapply IHm; [done|].
        split; constructor. }
      destruct (skip_space t) as [|c' r]; [apply Hmembers|].
      destruct (Ascii.eqb c' "}"); [|apply Hmembers].
      intros [= <- _]. split; [done|constructor]. }
    destruct (Ascii.eqb c DQUOTE).
    { destruct (read_string t) as [[str r]|] eqn:Hr; [|done].
      intros [= <- _]. by eapply read_string_plain. }
    by intros [n ->]%read_number_int.
  - intros s vs rest. rewrite read_items_unfold.
    destruct (read_value fuel s) as [[v r]|] eqn:Hv; [|done].
    apply IHv in Hv.
    destruct (skip_space r) as [|c r']; [done|].
    destruct (Ascii.eqb c ",").
    { destruct (read_items fuel r') as [[vs' r'']|] eqn:Hr; [|done].
      intros [= <- _]. constructor; [done|]. by eapply IHi. }
    destruct (Ascii.eqb c "]"); [|done].
    intros [= <- _]. by constructor.
  - intros acc s ms rest. rewrite read_members_unfold.
    destruct (skip_space s) as [|c t]; [done|].
    destruct (Ascii.eqb c DQUOTE); [|done].
    destruct (read_string t) as [[k r]|] eqn:Hk; [|done].
    apply read_string_plain in Hk.
    destruct (skip_space r) as [|c1 r1]; [done|].
    destruct (Ascii.eqb c1 ":"); [|done].
    destruct (read_value fuel r1) as [[v r2]|] eqn:Hv; [|done].
    apply IHv in Hv.
    destruct (skip_space r2) as [|c2 r3]; [done|].
    destruct (Ascii.eqb c2 ",").
    { intros Hm Hacc. eapply IHm; [done|]. by apply set_member_wf. }
    destruct (Ascii.eqb c2 "}"); [|done].
    intros [= <- _] Hacc. by apply set_member_wf.
Qed.

Lemma loads_wf body v : loads body = Some v → wf v.
Proof.
  unfold loads.
  destruct (read_value _ body) as [[v' rest]|] eqn:Hv; [|done].
  destruct (is_empty _); [|done]. intros [= <-].
  by eapply (proj1 (read_wf _)).
Qed.

(** *** Reading what the writer wrote *)

Lemma join_cons2 sep a b l :
  join sep (a :: b :: l) = a ++ sep ++ join sep (b :: l).
Proof. done. Qed.

Lemma read_value_skip fuel s :
  read_value fuel (skip_space s) = read_value fuel s.
Proof.
  destruct fuel as [|fuel]; [done|].
  by rewrite !read_value_unfold, skip_space_idem.
Qed.

Lemma read_items_skip fuel s :
  read_items fuel (skip_space s) = read_items fuel s.
Proof.
  destruct fuel as [|fuel]; [done|].
  by rewrite !read_items_unfold, read_value_skip.
Qed.

Lemma read_members_skip fuel acc s :
  read_members fuel acc (skip_space s) = read_members fuel acc s.
Proof.
  destruct fuel as [|fuel]; [done|].
  by rewrite !read_members_unfold, skip_space_idem.
Qed.

Lemma read_items_newline fuel level s :
  read_items fuel (newline level ++ s) = read_items fuel s.
Proof.
  by rewrite <- read_items_skip, skip_space_newline, read_items_skip.
Qed.

Lemma read_members_newline fuel acc level s :
  read_members fuel acc (newline level ++ s) = read_members fuel acc s.
Proof.
  by rewrite <- read_members_skip, skip_space_newline, read_members_skip.
Qed.

Lemma read_value_blank fuel s :
  read_value fuel (String " " s) = read_value fuel s.
Proof.
  rewrite <- read_value_skip.
  change (skip_space (String " " s)) with (skip_space s).
  apply read_value_skip.
Qed.

Lemma number_head c :
  is_digit c || Ascii.eqb c "-" = true →
  is_json_space c = false ∧ Ascii.eqb c "]" = false
  ∧ Ascii.eqb c "}" = false.
Proof. by destruct c as [[] [] [] [] [] [] [] []]. Qed.

Lemma read_value_number fuel c t :
  is_digit c || Ascii.eqb c "-" = true →
  read_value (S fuel) (String c t) = read_number (String c t).
Proof.
  intros Hc. rewrite read_value_unfold.
  destruct c as [[] [] [] [] [] [] [] []]; try discriminate Hc; reflexivity.
Qed.

Lemma str_of_Z_head n :
  ∃ c t, str_of_Z n = String c t ∧ is_digit c || Ascii.eqb c "-" = true.
Proof.
  destruct (str_of_Z_digits n) as (d & -> & Hall & _ & Hne & _).
  destruct (n <? 0); [by exists "-"%char, d|].
  destruct d as [|c d]; [done|]. exists c, d. split; [done|].
  cbn [all_chars] in Hall. apply andb_true_iff in Hall as [-> _]. done.
Qed.

(** The text of a value starts with a character that is neither blank nor
    a closing bracket. *)
Lemma dump_head level v :
  ∃ c t, dump_at level v = String c t
         ∧ is_json_space c = false
         ∧ Ascii.eqb c "]" = false ∧ Ascii.eqb c "}" = false.
Proof.
  destruct v as [|[]|n|s|[|x items]|[|kv members]];
    try (by eexists _, _; split_and!; [reflexivity|..]).
  destruct (str_of_Z_head n) as (c & t & Hs & Hc).
  exists c, t. split; [exact Hs|]. by apply number_head.
Qed.

Lemma skip_space_dump level v rest :
  skip_space (dump_at level v ++ rest) = dump_at level v ++ rest.
Proof.
  destruct (dump_head level v) as (c & t & -> & Hc & _).
  cbn [String.append skip_space]. by rewrite Hc.
Qed.

Lemma read_items_dump level items :
  items ≠ [] → Forall reads_back items → Forall wf items →
  ∀ rest fuel,
    (need_items items ≤ fuel)%nat →
    read_items fuel
      (join (item_sep level) (map (dump_at (S level)) items)
       ++ newline level ++ String "]" rest)
    = Some (items, rest).
Proof.
  induction items as [|x items IH]; [done|].
  intros _ Hback Hwf rest fuel Hfuel.
  apply Forall_cons in Hback as [Hx Hback].
  apply Forall_cons in Hwf as [Hwx Hwf].
  cbn [need_items foldr] in Hfuel. fold (need_items items) in Hfuel.
  destruct fuel as [|fuel]; [lia|].
  rewrite read_items_unfold. destruct items as [|y items].
  - cbn [map join].
    rewrite (Hx (S level) (newline level ++ String "]" rest) fuel);
      [|done|done|lia].
    rewrite skip_space_newline. reflexivity.
  - cbn [map]. rewrite join_cons2, !append_assoc.
    unfold item_sep at 1. rewrite append_assoc.
    change ("," ++ ?r) with (String "," r).
    rewrite (Hx (S level) _ fuel); [|done|done|lia].
    change (skip_space (String "," ?r)) with (String "," r).
    change (Ascii.eqb "," ",") with true. cbv iota.
    rewrite read_items_newline.
    change (dump_at (S level) y :: map (dump_at (S level)) items)
      with (map (dump_at (S level)) (y :: items)).
    rewrite (IH ltac:(done) Hback Hwf rest fuel); [done|].
    cbn [need_items foldr] in *. lia.
Qed.

Lemma read_member_step fuel acc k v level tail :
  all_chars plain_char k = true →
  read_value fuel (dump_at (S level) v ++ tail) = Some (v, tail) →
  read_members (S fuel) acc (member_text level (k, v) ++ tail)
  = match skip_space tail with
    | String c rest =>
        if Ascii.eqb c "," then read_members fuel (set_member k v acc) rest
        else if Ascii.eqb c "}" then Some (set_member k v acc, rest)
        else None
    | EmptyString => None
    end.
Proof.
  intros Hk Hv. rewrite read_members_unfold.
  unfold member_text, json_quote. cbn [fst snd].
  rewrite !append_assoc. cbn [String.append].
  change (skip_space (String DQUOTE ?r)) with (String DQUOTE r).
  cbv beta iota. rewrite Ascii.eqb_refl.
  rewrite (read_string_quote k _ Hk).
  change (skip_space (String ":" ?r)) with (String ":" r).
  cbv beta iota. change (Ascii.eqb ":" ":") with true. cbv iota.
  by rewrite read_value_blank, Hv.
Qed.

Lemma read_members_dump level members :
  members ≠ [] →
  Forall (fun kv => reads_back (snd kv)) members →
  Forall wf_member members →
  ∀ acc rest fuel,
    NoDup (map fst acc ++ map fst members) →
    (need_members members ≤ fuel)%nat →
    read_members fuel acc
      (join (item_sep level) (map (member_text level) members)
       ++ newline level ++ String "}" rest)
    = Some ((acc ++ members)%list, rest).
Proof.
  induction members as [|[k v] members IH]; [done|].
  intros _ Hback Hwf acc rest fuel Hnd Hfuel.
  apply Forall_cons in Hback as [Hv Hback].
  apply Forall_cons in Hwf as [[Hk Hwv] Hwf]. cbn [fst snd] in *.
  cbn [need_members foldr snd] in Hfuel. fold (need_members members) in Hfuel.
  destruct fuel as [|fuel]; [lia|].
  assert (k ∉ map fst acc) as Hfresh.
  { cbn [map fst] in Hnd. apply NoDup_app in Hnd as (_ & Hdis & _).
    intros Hin. apply (Hdis k Hin). by left. }
  destruct members as [|kv members].
  - cbn [map join].
    rewrite (read_member_step fuel acc k v level _ Hk).
    + rewrite skip_space_newline.
      change (skip_space (String "}" ?r)) with (String "}" r).
      cbv beta iota. change (Ascii.eqb "}" ",") with false.
      change (Ascii.eqb "}" "}") with true. cbv iota.
      by rewrite set_member_fresh.
    + apply Hv; [done|done|lia].
  - cbn [map]. rewrite join_cons2, !append_assoc.
    unfold item_sep at 1. rewrite append_assoc.
    change ("," ++ ?r) with (String "," r).
    rewrite (read_member_step fuel acc k v level _ Hk).
    + change (skip_space (String "," ?r)) with (String "," r).
      cbv beta iota. change (Ascii.eqb "," ",") with true. cbv iota.
      rewrite read_members_newline, set_member_fresh by done.
      change (member_text level kv :: map (member_text level) members)
        with (map (member_text level) (kv :: members)).
      rewrite (IH ltac:(done) Hback Hwf (acc ++ [(k, v)])%list rest fuel).
      * by rewrite <- app_assoc.
      * rewrite map_app. cbn [map fst] in *. by rewrite <- app_assoc.
      * cbn [need_members foldr] in *. lia.
    + apply Hv; [done|done|lia].
Qed.

(** Every well-formed value is read back from its text. *)
Lemma read_value_dump v : reads_back v.
Proof.
  induction v as [|b|n|s|items IH|members IH] using jvalue_nested_ind;
    intros level rest fuel Hwf Hrest Hfuel;
    (destruct fuel as [|fuel]; [cbn in Hfuel; lia|]).
  - by rewrite read_value_unfold.
  - rewrite read_value_unfold. by destruct b.
  - cbn [dump_at]. destruct (str_of_Z_head n) as (c & t & Hs & Hc).
    pose proof (read_number_text n rest Hrest) as Hn.
    rewrite Hs in *. cbn [String.append] in *.
    by rewrite read_value_number.
  - rewrite read_value_unfold. cbn [dump_at]. unfold json_quote.
    rewrite append_assoc. cbn [String.append].
    change (skip_space (String DQUOTE ?r)) with (String DQUOTE r).
    cbv beta iota.
    change (Ascii.eqb DQUOTE "n") with false.
    change (Ascii.eqb DQUOTE "t") with false.
    change (Ascii.eqb DQUOTE "f") with false.
    change (Ascii.eqb DQUOTE "[") with false.
    change (Ascii.eqb DQUOTE "{") with false.
    rewrite Ascii.eqb_refl. cbv iota.
    by rewrite (read_string_quote s rest Hwf).
  - rewrite read_value_unfold. destruct items as [|x items]; [done|].
    apply wf_array in Hwf.
    change (dump_at level (JArray (x :: items)))
      with ("[" ++ newline (S level)
            ++ join (item_sep level) (map (dump_at (S level)) (x :: items))
            ++ newline level ++ "]").
    rewrite !append_assoc. cbn [String.append].
    change (skip_space (String "[" ?r)) with (String "[" r).
    cbv beta iota.
    change (Ascii.eqb "[" "n") with false.
    change (Ascii.eqb "[" "t") with false.
    change (Ascii.eqb "[" "f") with false.
    change (Ascii.eqb "[" "[") with true. cbv iota.
    unfold read_array. rewrite skip_space_newline.
    cbn [map]. destruct (dump_head (S level) x) as (c & t & Hx & Hc & Hb & _).
    assert (∃ t', join (item_sep level)
                    (dump_at (S level) x :: map (dump_at (S level)) items)
                  = String c t') as [t' Ht'].
    { destruct items; cbn [map join]; rewrite Hx; by eexists. }
    rewrite Ht'. cbn [String.append skip_space]. rewrite Hc, Hb.
    change (String c (t' ++ ?r)) with (String c t' ++ r).
    rewrite <- Ht'.
    change (dump_at (S level) x :: map (dump_at (S level)) items)
      with (map (dump_at (S level)) (x :: items)).
    rewrite (read_items_dump level (x :: items) ltac:(done) IH Hwf rest fuel);
      [done|].
    cbn [need] in Hfuel. unfold need_items. lia.
  - rewrite read_value_unfold. destruct members as [|kv members]; [done|].
    apply wf_object in Hwf as [Hwf Hnd].
    change (dump_at level (JObject (kv :: members)))
      with ("{" ++ newline (S level)
            ++ join (item_sep level) (map (member_text level) (kv :: members))
            ++ newline level ++ "}").
    rewrite !append_assoc. cbn [String.append].
    change (skip_space (String "{" ?r)) with (String "{" r).
    cbv beta iota.
    change (Ascii.eqb "{" "n") with false.
    change (Ascii.eqb "{" "t") with false.
    change (Ascii.eqb "{" "f") with false.
    change (Ascii.eqb "{" "[") with false.
    change (Ascii.eqb "{" "{") with true. cbv iota.
    unfold read_object. rewrite skip_space_newline.
    assert (∃ t', join (item_sep level)
                    (map (member_text level) (kv :: members))
                  = String DQUOTE t') as [t' Ht'].
    { destruct members; cbn [map join]; unfold member_text, json_quote;
        cbn [String.append]; by eexists. }
    rewrite Ht'. cbn [String.append].
    change (skip_space (String DQUOTE ?r)) with (String DQUOTE r).
    cbv beta iota. change (Ascii.eqb DQUOTE "}") with false. cbv iota.
    change (String DQUOTE (t' ++ ?r)) with (String DQUOTE t' ++ r).
    rewrite <- Ht'.
    rewrite (read_members_dump level (kv :: members) ltac:(done) IH Hwf []
               rest fuel); [done|done|].
    cbn [need] in Hfuel. unfold need_members. lia.
Qed.

(** The rounds that a value takes are within the length of its text. *)
Lemma need_join {A} (size : A → nat) (text : A → string) sep l :
  (1 ≤ String.length sep)%nat →
  Forall (fun x => (size x ≤ String.length (text x))%nat) l →
  (foldr (fun x acc => S (Nat.max (size x) acc)) 0%nat l
   ≤ S (String.length (join sep (map text l))))%nat.
Proof.
  intros Hsep. induction 1 as [|x l Hx Hl IH]; cbn [foldr map]; [lia|].
  destruct l as [|y l].
  - cbn [foldr map join]. lia.
  - cbn [map]. rewrite join_cons2, !length_append.
    cbn [map] in IH. lia.
Qed.

Lemma length_newline level : (1 ≤ String.length (newline level))%nat.
Proof. unfold newline. cbn [String.length]. lia. Qed.

Lemma need_length v level : (need v ≤ String.length (dump_at level v))%nat.
Proof.
  revert level.
  induction v as [|b|n|s|items IH|members IH] using jvalue_nested_ind;
    intros level.
  - cbn. lia.
  - destruct b; cbn; lia.
  - destruct (str_of_Z_head n) as (c & t & Hs & _).
    cbn [need dump_at]. rewrite Hs. cbn [String.length]. lia.
  - cbn [need dump_at]. unfold json_quote. cbn [String.append String.length].
    lia.
  - destruct items as [|x items]; [cbn; lia|].
    change (dump_at level (JArray (x :: items)))
      with ("[" ++ newline (S level)
            ++ join (item_sep level) (map (dump_at (S level)) (x :: items))
            ++ newline level ++ "]").
    cbn [need]. rewrite !length_append.
    pose proof (need_join need (dump_at (S level)) (item_sep level)
                  (x :: items)) as Hj.
    pose proof (length_newline level). pose proof (length_newline (S level)).
    cbn [String.length].
    assert (1 ≤ String.length (item_sep level))%nat as Hsep
      by (unfold item_sep; rewrite length_append; cbn [String.length]; lia).
    specialize (Hj Hsep).
    assert (Forall (fun x => (need x ≤ String.length (dump_at (S level) x))%nat)
              (x :: items)) as Hall
      by (eapply Forall_impl; [exact IH|]; by intros v Hv).
    specialize (Hj Hall). lia.
  - destruct members as [|kv members]; [cbn; lia|].
    change (dump_at level (JObject (kv :: members)))
      with ("{" ++ newline (S level)
            ++ join (item_sep level) (map (member_text level) (kv :: members))
            ++ newline level ++ "}").
    cbn [need]. rewrite !length_append.
    pose proof (need_join (fun kv => need (snd kv)) (member_text level)
                  (item_sep level) (kv :: members)) as Hj.
    pose proof (length_newline level). pose proof (length_newline (S level)).
    cbn [String.length].
    assert (1 ≤ String.length (item_sep level))%nat as Hsep
      by (unfold item_sep; rewrite length_append; cbn [String.length]; lia).
    specialize (Hj Hsep).
    assert (Forall (fun kv => (need (snd kv)
                               ≤ String.length (member_text level kv))%nat)
              (kv :: members)) as Hall.
    { eapply Forall_impl; [exact IH|]. intros [k v] Hv. cbn [snd] in *.
      unfold member_text. rewrite !length_append. cbn [snd].
      specialize (Hv (S level)). lia. }
    specialize (Hj Hall). lia.
Qed.

(** The writer and the reader are inverse on the values of the reader. *)
Lemma loads_dump v : wf v → loads (dump v) = Some v.
Proof.
  intros Hwf. unfold loads, dump.
  pose proof (read_value_dump v 0%nat EmptyString
                (S (String.length (dump_at 0 v))) Hwf eq_refl) as Hread.
  rewrite append_nil_r in Hread. rewrite Hread; [done|].
  pose proof (need_length v 0). lia.
Qed.

Lemma loads_round_trip body v :
  loads body = Some v → loads (dump v) = Some v.
Proof. intros Hv. by apply loads_dump, (loads_wf body). Qed.

End CodecFacts.

(** ** What the name of an upload tells *)

Lemma pad2_value_table :
  forallb (fun n => reads_as n (pad2 n)) (seq 0 100) = true.
Proof. vm_compute. reflexivity. Qed.

Lemma reads_as_value n s :
  reads_as n s = true → Sample.unsigned_of_text s = Some (Z.of_nat n).
Proof.
  unfold reads_as. destruct (Sample.unsigned_of_text s) as [m|]; [|done].
  by intros ->%Z.eqb_eq.
Qed.

Lemma pad2_value n :
  (n ≤ 99)%nat → Sample.unsigned_of_text (pad2 n) = Some (Z.of_nat n).
Proof.
  intros Hn. apply reads_as_value.
  pose proof pad2_value_table as Ht. rewrite forallb_forall in Ht.
  apply Ht, in_seq. lia.
Qed.

Lemma pad4_value n :
  1000 ≤ Z.of_nat n ≤ 9999 →
  Sample.unsigned_of_text (pad4 n) = Some (Z.of_nat n).
Proof.
  intros Hn. unfold pad4.
  destruct (Nat.ltb_spec n 10); [lia|].
  destruct (Nat.ltb_spec n 100); [lia|].
  destruct (Nat.ltb_spec n 1000); [lia|].
  cbn [String.append].
  destruct (CodecFacts.str_of_Z_digits (Z.of_nat n)) as (d & -> & _ & Hv & Hne & _).
  destruct (Z.ltb_spec (Z.of_nat n) 0); [lia|]. cbn [String.append].
  unfold Sample.unsigned_of_text. rewrite Hne, Hv. f_equal. lia.
Qed.

Lemma shape_length pattern s :
  shape_matches pattern s = true → String.length s = length pattern.
Proof.
  revert s. induction pattern as [|p pattern IH]; intros [|c s]; try done.
  cbn [shape_matches String.length length].
  intros [_ Hs]%andb_true_iff. by rewrite (IH s Hs).
Qed.

Lemma field_here a rest len :
  String.length a = len →
  decimal_field 0 len (a ++ rest) = Sample.unsigned_of_text a.
Proof.
  intros <-. unfold decimal_field. cbn [drop]. by rewrite take_app_length.
Qed.

Lemma field_skip a rest n start len :
  String.length a = n →
  decimal_field (n + start) len (a ++ rest) = decimal_field start len rest.
Proof.
  intros <-. unfold decimal_field. do 2 f_equal.
  induction a as [|c a IH]; [done|]. exact IH.
Qed.

Lemma strftime_stamp_reading t :
  plausible_datetime t → stamp_of t (strftime_stamp t).
Proof.
  intros (Hy & Hm & Hd & Hh & Hmi & Hs). unfold strftime_stamp.
  pose proof (shape_length _ _ (pad4_shape _ Hy)) as Ly.
  assert (∀ n, (n ≤ 99)%nat → String.length (pad2 n) = 2%nat) as L2
    by (intros n Hn; apply (shape_length _ _ (pad2_shape n Hn))).
  cbn [repeat length] in Ly.
  assert (String.length "_" = 1%nat) as L1 by done.
  unfold stamp_of. split_and!.
  - rewrite field_here by done. by apply pad4_value.
  - change 4%nat with (4 + 0)%nat.
    rewrite (field_skip _ _ 4) by done.
    rewrite field_here by (apply L2; lia). apply pad2_value. lia.
  - change 6%nat with (4 + (2 + 0))%nat.
    rewrite (field_skip _ _ 4) by done.
    rewrite (field_skip _ _ 2) by (apply L2; lia).
    rewrite field_here by (apply L2; lia). apply pad2_value. lia.
  - change 9%nat with (4 + (2 + (2 + (1 + 0))))%nat.
    rewrite (field_skip _ _ 4) by done.
    rewrite !(field_skip _ _ 2) by (apply L2; lia).
    rewrite (field_skip _ _ 1) by done.
    rewrite field_here by (apply L2; lia). apply pad2_value. lia.
  - change 11%nat with (4 + (2 + (2 + (1 + (2 + 0)))))%nat.
    rewrite (field_skip _ _ 4) by done.
    rewrite !(field_skip _ _ 2) by (apply L2; lia).
    rewrite (field_skip _ _ 1) by done.
    rewrite (field_skip _ _ 2) by (apply L2; lia).
    rewrite field_here by (apply L2; lia). apply pad2_value. lia.
  - change 13%nat with (4 + (2 + (2 + (1 + (2 + (2 + 0))))))%nat.
    rewrite (field_skip _ _ 4) by done.
    rewrite !(field_skip _ _ 2) by (apply L2; lia).
    rewrite (field_skip _ _ 1) by done.
    rewrite !(field_skip _ _ 2) by (apply L2; lia).
    rewrite <- (append_nil_r (pad2 (dt_second t))).
    rewrite field_here by (apply L2; lia). apply pad2_value. lia.
Qed.

Lemma get_char_at s j :
  (j < String.length s)%nat → String.get j s = Some (char_at s j).
Proof.
  unfold char_at. revert j. induction s as [|c s IH]; intros j Hj.
  - cbn in Hj. lia.
  - destruct j as [|j]; [done|]. cbn [String.get String.length] in *.
    apply IH. lia.
Qed.

Lemma random_id_drawn draw : id_of draw (random_id draw).
Proof.
  intros i Hi.
  rewrite (get_char_at ALPHABET)
    by (apply Nat.mod_upper_bound; cbn [String.length ALPHABET]; lia).
  unfold random_id. cbn [map string_of_list_ascii].
  by destruct i as [|[|[|[|i]]]]; [..|lia].
Qed.

Section UploadName.
Context `{Env}.

Lemma upload_filename_shape :
  plausible_datetime clock_now →
  ∃ stamp id,
    upload_filename = "upload_" ++ stamp ++ "_" ++ id ++ ".json"
    ∧ shape_matches stamp_pattern stamp = true
    ∧ stamp_of clock_now stamp
    ∧ shape_matches id_pattern id = true
    ∧ id_of random_draw id.
Proof.
  intros Ht. exists (strftime_stamp clock_now), (random_id random_draw).
  split_and!.
  - done.
  - by apply strftime_stamp_shape.
  - by apply strftime_stamp_reading.
  - apply random_id_shape.
  - apply random_id_drawn.
Qed.

(** The responder answers 201 only after it has written the value. *)
Lemma handle_post_created fs headers body keep_alive v r fs' :
  json_loads body = Some v →
  handle_post fs headers body keep_alive = ([Sent r], fs') →
  resp_status r = 201 →
  write_file fs (path_join UPLOADS_DIR upload_filename) (json_dump v)
  = Some fs'
  ∧ r = make_response 201 "Created"
          (upload_headers (upload_response_body upload_filename) keep_alive)
          (upload_response_body upload_filename).
Proof.
  intros Hv. unfold handle_post. rewrite Hv.
  destruct (negb _).
  { intros [= <- _] Hs. discriminate Hs. }
  destruct (write_file _ _ _) as [fs1|].
  - by intros [= <- <-] _.
  - intros [= <- _] Hs. discriminate Hs.
Qed.

End UploadName.

Section UploadRules.
Context (E : Env).


End UploadRules.


(** ** The connection handler *)

Lemma parse_body raw req :
  parse_http_request raw = Some req → req_body req = body_of raw.
Proof.
  unfold parse_http_request.
  destruct (split CRLF (head_of raw)) as [|line0 hdrs]; [done|].
  destruct (words line0) as [|a [|b [|c [|d l]]]]; try done.
  by intros [= <-].
Qed.

(** The fuel of [read_body] is enough: more of it changes nothing. *)
Lemma read_body_fuel_enough fuel fuel' remaining body inp :
  (Z.to_nat remaining ≤ fuel)%nat → (Z.to_nat remaining ≤ fuel')%nat →
  read_body fuel remaining body inp = read_body fuel' remaining body inp.
Proof.
  revert fuel' remaining body inp.
  induction fuel as [|fuel IH]; intros fuel' remaining body inp H1 H2;
    destruct fuel' as [|fuel']; simpl;
    destruct (Z.leb_spec remaining 0) as [Hle|Hgt]; try done; try lia.
  destruct (sock_recv _ inp) as [[chunk| |] inp']; try done.
  destruct chunk as [|c chunk]; [done|]. cbn [is_empty].
  apply IH; unfold len; simpl String.length; lia.
Qed.

Section HandlerRules.
Context `{Env}.

Lemma handle_post_accepts fs headers body keep_alive v fs' :
  media_type (header_get headers "Content-Type" EmptyString)
  = "application/json" →
  json_loads body = Some v →
  write_file fs (path_join UPLOADS_DIR upload_filename) (json_dump v)
  = Some fs' →
  ∃ r, handle_post fs headers body keep_alive = ([Sent r], fs')
       ∧ resp_status r = 201.
Proof.
  intros Hm Hv Hw. unfold handle_post. rewrite Hm, Hv, Hw.
  eexists. split; [reflexivity|done].
Qed.

(** C9.  Take a round of the handler in which the buffer read (by the first
    read and, when the blank line is missing, the supplementary one) parses
    to a POST with an acceptable Host and no [Content-Length].  The round
    reads nothing more from the socket: the input left is what the reads of
    the head left.  It sends no 400 of its own: what it sends and writes is
    what the upload responder does with the body prefix of the buffer.  Hence
    a JSON body that lies wholly in that prefix, under media type
    [application/json] and with the upload file written, is answered 201. *)
Theorem post_without_content_length (c : connection)
    (raw0 raw : string) (inp0 inp : list recv_event) (req : request)
    (host_port : string) :
  recv_all (conn_in c) = (raw0, inp0) →
  raw0 ≠ EmptyString →
  complete_head raw0 inp0 = (raw, inp) →
  parse_http_request raw = Some req →
  valid_host_header (req_headers req !! "Host") SERVER_HOST SERVER_PORT
  = HostOk host_port →
  req_method req = "POST" →
  req_headers req !! "Content-Length" = None →
  let keep_alive := keep_alive_decision (req_version req) (req_headers req) in
  let answer :=
    handle_post (conn_fs c) (req_headers req) (body_of raw) keep_alive in
  handle_request c
  = (keep_alive, Connection inp (conn_out c ++ fst answer) (snd answer))
  ∧ (∀ v fs',
       media_type (header_get (req_headers req) "Content-Type" EmptyString)
       = "application/json" →
       json_loads (body_of raw) = Some v →
       write_file (conn_fs c) (path_join UPLOADS_DIR upload_filename)
         (json_dump v) = Some fs' →
       ∃ r, handle_request c
            = (keep_alive, Connection inp (conn_out c ++ [Sent r]) fs')
            ∧ resp_status r = 201).
Proof.
  intros Hrecv Hne Hhead Hparse Hhost Hmethod Hcl keep_alive answer.
  assert (handle_request c
          = (keep_alive,
             Connection inp (conn_out c ++ fst answer) (snd answer))) as Hreq.
  { unfold handle_request. rewrite Hrecv.
    destruct raw0; [done|]. cbn [is_empty].
    rewrite Hhead, Hparse, Hhost. unfold dispatch.
    rewrite Hmethod, Hcl. cbn [conn_fs conn_out conn_in].
    rewrite (parse_body _ _ Hparse).
    change (String.eqb "POST" "GET") with false.
    change (String.eqb "POST" "POST") with true. cbv iota.
    fold keep_alive. fold answer. by destruct answer. }
  split; [done|].
  intros v fs' Hm Hv Hw.
  destruct (handle_post_accepts (conn_fs c) (req_headers req) (body_of raw)
              keep_alive v fs' Hm Hv Hw) as (r & Hr & Hs).
  exists r. split; [|done]. rewrite Hreq. unfold answer. by rewrite Hr.
Qed.

End HandlerRules.

Lemma post_without_content_length_witness :
  ∃ r,
    handle_request (H := Sample.env) sample_connection
    = (true, Connection [Data later_bytes] [Sent r] sample_written)
    ∧ resp_status r = 201.
Proof.
  apply (proj2 (post_without_content_length (H := Sample.env)
                  sample_connection post_without_length post_without_length
                  [Data later_bytes] [Data later_bytes] sample_post_request
                  "127.0.0.1:8080"
                  ltac:(vm_refl) ltac:(discriminate) ltac:(vm_refl)
                  ltac:(vm_refl) ltac:(vm_refl) ltac:(reflexivity)
                  ltac:(vm_refl))
           sample_value sample_written);
    vm_refl.
Defined.

(** * Further properties *)

(** ** Splitting paths *)

Lemma split_unfold sep s :
  sep ≠ EmptyString →
  split sep s
  = match partition sep s with
    | None => [s]
    | Some (a, b) => a :: split sep b
    end.
Proof.
  intros Hsep. unfold split at 1.
  destruct (String.length s) as [|n] eqn:Hn; simpl;
    destruct (partition sep s) as [[a b]|] eqn:Hp; try done;
    pose proof (partition_length _ _ _ _ Hp) as Hlen;
    assert (0 < String.length sep)%nat
      by (destruct sep; [done|simpl; lia]).
  - lia.
  - f_equal. apply split_fuel_enough; [done|lia].
Qed.

Lemma split_slash_nil : split "/" EmptyString = [EmptyString].
Proof. reflexivity. Qed.

Lemma split_slash_sep s :
  split "/" (String "/" s) = EmptyString :: split "/" s.
Proof. by rewrite split_unfold. Qed.

Lemma split_slash_other c s :
  c ≠ "/"%char →
  split "/" (String c s)
  = match split "/" s with
    | h :: t => String c h :: t
    | [] => []
    end.
Proof.
  intros Hc. rewrite (split_unfold "/" (String c s)), (split_unfold "/" s)
    by done.
  cbn [partition startswith].
  destruct (Ascii.eqb_spec "/" c) as [<-|_]; [done|].
  by destruct (partition "/" s) as [[a b]|].
Qed.

Lemma split_slash_cons s : ∃ h t, split "/" s = h :: t.
Proof. destruct (split_first "/" s) as [l ->]. eauto. Qed.

(** Splitting at the slash that joins two texts. *)
Lemma split_slash_app a b :
  split "/" (a ++ String "/" b) = (split "/" a ++ split "/" b)%list.
Proof.
  induction a as [|c a IH]; cbn [String.append].
  - by rewrite split_slash_sep.
  - destruct (Ascii.eqb_spec c "/") as [->|Hc].
    + by rewrite !split_slash_sep, IH.
    + rewrite !split_slash_other, IH by done.
      by destruct (split_slash_cons a) as (h & t & ->).
Qed.

Lemma contains_empty s : contains EmptyString s = true.
Proof. by destruct s. Qed.

Lemma contains_cons x c s :
  contains x s = true → contains x (String c s) = true.
Proof. intros Hx. cbn [contains]. rewrite Hx. apply orb_true_r. Qed.

Lemma contains_startswith x s : startswith x s = true → contains x s = true.
Proof. intros Hx. destruct s; cbn [contains]; by rewrite Hx. Qed.

(** Every component of a path occurs in its text. *)
Lemma split_slash_contains s x :
  x ∈ split "/" s → contains x s = true.
Proof.
  assert (∃ h t, split "/" s = h :: t ∧ startswith h s = true
                 ∧ ∀ y, y ∈ t → contains y s = true) as (h & t & -> & Hh & Ht).
  { induction s as [|c s (h & t & Hs & Hh & Ht)].
    - exists EmptyString, []. split; [done|]. split; [done|].
      intros y Hy. by apply elem_of_nil in Hy.
    - destruct (Ascii.eqb_spec c "/") as [->|Hc].
      + exists EmptyString, (h :: t). rewrite split_slash_sep, Hs.
        split; [done|]. split; [done|].
        intros y [->|Hy]%elem_of_cons; apply contains_cons;
          [by apply contains_startswith | by apply Ht].
      + exists (String c h), t. rewrite split_slash_other, Hs by done.
        split; [done|]. split.
        * cbn [startswith]. by rewrite Ascii.eqb_refl.
        * intros y Hy. by apply contains_cons, Ht. }
  intros [->|Hx]%elem_of_cons; [by apply contains_startswith | by apply Ht].
Qed.

(** ** Resolution without links *)

Lemma link_free_readlink fs p : link_free fs = true → readlink fs p = None.
Proof.
  intros Hfree. unfold readlink.
  destruct (fs !! p) as [[c r| |t]|] eqn:Hp; try done.
  unfold link_free in Hfree. rewrite forallb_forall in Hfree.
  apply elem_of_map_to_list, list_elem_of_In in Hp.
  by specialize (Hfree _ Hp).
Qed.

Lemma joinrealpath_link_free fuel fs path rest :
  link_free fs = true →
  joinrealpath fuel fs path rest = (normpath path rest, true).
Proof.
  intros Hfree. revert path.
  induction rest as [|name rest IH]; intros path;
    [apply joinrealpath_nil|].
  rewrite joinrealpath_cons, link_free_readlink by done.
  cbn [normpath].
  destruct (is_skip name); [done|]. by destruct (String.eqb name "..").
Qed.

Lemma normpath_app acc l1 l2 :
  normpath acc (l1 ++ l2) = normpath (normpath acc l1) l2.
Proof.
  revert acc. induction l1 as [|x l1 IH]; intros acc; [done|].
  cbn [app normpath]. destruct (is_skip x); [done|].
  by destruct (String.eqb x "..").
Qed.

Lemma normpath_no_parent acc l :
  (∀ x, x ∈ l → x ≠ "..") → normpath acc l = (acc ++ named l)%list.
Proof.
  revert acc. induction l as [|x l IH]; intros acc Hl; cbn [normpath named List.filter].
  - by rewrite app_nil_r.
  - assert (∀ y, y ∈ l → y ≠ "..") as Hl'
      by (intros y Hy; apply Hl; by right).
    destruct (is_skip x); cbn [negb]; [by apply IH|].
    destruct (String.eqb_spec x "..") as [Hx|_].
    + destruct (Hl x); [by left|done].
    + rewrite IH by done. by rewrite <- app_assoc.
Qed.

Lemma named_plain l :
  (∀ x, x ∈ l → x ≠ "..") → Forall plain_name (named l).
Proof.
  intros Hl. apply Forall_forall. intros x Hx.
  apply list_elem_of_In, filter_In in Hx as [Hx Hs].
  split; [by destruct (is_skip x) | apply Hl; by apply list_elem_of_In].
Qed.

Lemma Forall_removelast {A} (P : A → Prop) (l : list A) :
  Forall P l → Forall P (removelast l).
Proof.
  induction 1 as [|x l Hx Hl IH]; [done|].
  cbn [removelast]. destruct l; [done|]. by constructor.
Qed.

(** [normpath] gives plain names only. *)
Lemma normpath_plain acc l :
  Forall plain_name acc → Forall plain_name (normpath acc l).
Proof.
  revert acc. induction l as [|x l IH]; intros acc Hacc; [done|].
  cbn [normpath]. destruct (is_skip x) eqn:Hs; [by apply IH|].
  destruct (String.eqb_spec x "..") as [Hx|Hx].
  - by apply IH, Forall_removelast.
  - apply IH, Forall_app. split; [done|]. by repeat constructor.
Qed.

(** [normpath] leaves plain names alone. *)
Lemma normpath_of_plain acc l :
  Forall plain_name l → normpath acc l = (acc ++ l)%list.
Proof.
  intros Hl. rewrite normpath_no_parent.
  - f_equal. induction Hl as [|x l [Hx _] Hl IH]; [done|].
    cbn [named List.filter]. rewrite Hx. cbn [negb]. by f_equal.
  - intros x Hx. rewrite Forall_forall in Hl. by destruct (Hl x Hx).
Qed.

(** In a tree without links [realpath] is [normpath]. *)
Lemma realpath_link_free fs p q :
  link_free fs = true →
  realpath fs p = Some q →
  q = abs_path (normpath [] (split "/" p)).
Proof.
  intros Hfree. unfold realpath, resolve.
  destruct (contains _ p); [done|].
  rewrite joinrealpath_link_free by done. cbn [fst].
  intros [= <-]. f_equal. apply normpath_of_plain, normpath_plain.
  constructor.
Qed.

Lemma join_app sep l1 l2 :
  l1 ≠ [] → l2 ≠ [] →
  join sep (l1 ++ l2) = join sep l1 ++ sep ++ join sep l2.
Proof.
  intros H1 H2. induction l1 as [|a l1 IH]; [done|].
  destruct l1 as [|b l1].
  - destruct l2; [done|]. reflexivity.
  - change (join sep ((a :: b :: l1) ++ l2))
      with (a ++ sep ++ join sep ((b :: l1) ++ l2)).
    rewrite IH by done. cbn [join].
    by rewrite !append_assoc.
Qed.

Lemma last_char_some c s : ∃ d, last_char (String c s) = Some d.
Proof.
  cbn [last_char]. destruct (last_char s); eauto.
Qed.

Lemma last_char_split s c :
  last_char s = Some c → ∃ s', s = s' ++ String c EmptyString.
Proof.
  revert c. induction s as [|d s IH]; intros c; [done|].
  cbn [last_char]. destruct (last_char s) as [e|] eqn:Hl.
  - intros [= ->]. destruct (IH c eq_refl) as [s' ->]. by exists (String d s').
  - intros [= ->]. destruct s; [by exists EmptyString|].
    by destruct (last_char_some a s) as [e He]; rewrite He in Hl.
Qed.

(** A path made of the components of the root and some more has the root
    as a directory prefix. *)
Lemma is_dir_prefix_abs_path rc k :
  is_dir_prefix (abs_path rc) (abs_path (rc ++ k)) = true.
Proof.
  unfold is_dir_prefix. destruct k as [|x k].
  { by rewrite app_nil_r, String.eqb_refl. }
  apply orb_true_iff. right.
  destruct rc as [|r rc]; [done|].
  assert (abs_path ((r :: rc) ++ x :: k)
          = abs_path (r :: rc) ++ String "/" (join "/" (x :: k))) as ->.
  { unfold abs_path. by rewrite join_app. }
  destruct (last_char_some "/" (join "/" (r :: rc))) as [d Hd].
  change (String "/" (join "/" (r :: rc))) with (abs_path (r :: rc)) in Hd.
  rewrite Hd. destruct (Ascii.eqb d "/"); [apply startswith_app|].
  change (String "/" (join "/" (x :: k)))
    with ("/" ++ join "/" (x :: k)).
  rewrite <- append_assoc. apply startswith_app.
Qed.

Lemma contains_tail x c s :
  contains x (String c s) = false → contains x s = false.
Proof. cbn [contains]. by intros [_ ?]%orb_false_iff. Qed.

Section Containment.
Context `{Env}.

Lemma relative_path_not_absolute clean_path :
  startswith "//" clean_path = false →
  startswith "/" (relative_path clean_path) = false.
Proof.
  unfold relative_path. destruct clean_path as [|c s]; [done|].
  cbn [startswith]. destruct (Ascii.eqb_spec "/" c) as [<-|Hc].
  - cbn [drop]. destruct s as [|d s]; [done|]. cbn [is_empty startswith].
    by destruct (Ascii.eqb "/" d).
  - cbn [is_empty startswith]. by destruct (Ascii.eqb_spec "/" c).
Qed.

Lemma relative_path_no_parent clean_path :
  contains ".." clean_path = false →
  contains ".." (relative_path clean_path) = false.
Proof.
  intros Hc. unfold relative_path.
  destruct (startswith "/" clean_path).
  - destruct clean_path as [|c s]; [done|]. cbn [drop].
    apply contains_tail in Hc. by destruct s.
  - by destruct clean_path.
Qed.

(** The components of the candidate: those of the root, then the names of
    the relative path. *)
Lemma candidate_components root rel :
  root ≠ EmptyString →
  startswith "/" rel = false →
  contains ".." rel = false →
  normpath [] (split "/" (path_join root rel))
  = (normpath [] (split "/" root) ++ named (split "/" rel))%list.
Proof.
  intros Hroot Habs Hpar.
  assert (∀ x, x ∈ split "/" rel → x ≠ "..") as Hnames.
  { intros x Hx ->. apply split_slash_contains in Hx. congruence. }
  unfold path_join. rewrite Habs.
  destruct root as [|r0 root]; [done|].
  destruct (last_char_some r0 root) as [d Hd]. rewrite Hd.
  destruct (Ascii.eqb_spec d "/") as [->|_].
  - destruct (last_char_split _ _ Hd) as [root' ->].
    rewrite append_assoc. cbn [String.append].
    rewrite !split_slash_app, !normpath_app, split_slash_nil.
    cbn [normpath is_skip is_empty orb].
    by apply normpath_no_parent.
  - change ("/" ++ rel) with (String "/" rel).
    rewrite split_slash_app, normpath_app.
    by apply normpath_no_parent.
Qed.

(** X1.  In a tree without symbolic links and with a canonical root, every
    path that the resolver accepts is the root or lies below it; its
    components are those of the root followed by the names of the decoded
    path. *)
Theorem safe_join_contained_without_links (fs : filesystem)
    (path p : string) :
  link_free fs = true →
  realpath fs RESOURCE_DIR = Some RESOURCE_DIR →
  safe_join_resources fs path = Returns (Some p) →
  is_dir_prefix RESOURCE_DIR p = true
  ∧ ∃ clean_path,
      decoded_path path = Some clean_path
      ∧ p = abs_path (normpath [] (split "/" RESOURCE_DIR)
                      ++ named (split "/" (relative_path clean_path))).
Proof.
  intros Hfree Hroot. unfold safe_join_resources.
  destruct (is_empty path); [done|].
  destruct (decoded_path path) as [clean|]; [|done].
  destruct (contains ".." clean) eqn:Hpar; [done|].
  destruct (startswith "//" clean) eqn:Habs; [done|]. cbn [orb].
  destruct (realpath fs (path_join RESOURCE_DIR (relative_path clean)))
    as [cand|] eqn:Hcand; [|done].
  rewrite Hroot. destruct (startswith RESOURCE_DIR cand); [|done].
  intros [= <-].
  apply realpath_link_free in Hcand; [|done].
  pose proof (realpath_link_free _ _ _ Hfree Hroot) as Hcanon.
  rewrite candidate_components in Hcand.
  - split; [|eauto]. rewrite Hcand. rewrite Hcanon at 1.
    apply is_dir_prefix_abs_path.
  - by rewrite Hcanon.
  - by apply relative_path_not_absolute.
  - by apply relative_path_no_parent.
Qed.

End Containment.

Lemma safe_join_contained_without_links_witness :
  is_dir_prefix Sample.root sample_logo = true
  ∧ ∃ clean_path,
      decoded_path (H := Sample.env) "/./logo.png?size=big" = Some clean_path
      ∧ sample_logo
        = abs_path (normpath [] (split "/" Sample.root)
                    ++ named (split "/" (relative_path clean_path))).
Proof.
  apply (safe_join_contained_without_links (H := Sample.env)
           linkless_tree "/./logo.png?size=big" sample_logo);
    vm_refl.
Defined.

(** ** Response headers *)

Lemma has_key_header_value k h :
  has_key k h = true ↔ is_Some (header_value k h).
Proof.
  unfold has_key. induction h as [|[k' v] h IH]; cbn [existsb header_value fst].
  - split; [done|]. by intros [? ?].
  - destruct (String.eqb k' k); cbn [orb]; [|done].
    split; [by eexists|done].
Qed.

Lemma header_value_app k h1 h2 :
  header_value k (h1 ++ h2)
  = match header_value k h1 with
    | Some v => Some v
    | None => header_value k h2
    end.
Proof.
  induction h1 as [|[k' v] h1 IH]; cbn [app header_value]; [done|].
  by destruct (String.eqb k' k).
Qed.

(** [setdefault] keeps a value that is there and adds one that is not. *)
Lemma header_value_setdefault k k' v h :
  header_value k (setdefault k' v h)
  = match header_value k h with
    | Some w => Some w
    | None => if String.eqb k' k then Some v else None
    end.
Proof.
  unfold setdefault. destruct (has_key k' h) eqn:Hk.
  - destruct (header_value k h) eqn:Hv; [done|].
    destruct (String.eqb_spec k' k) as [->|_]; [|done].
    apply has_key_header_value in Hk as [w Hw]. congruence.
  - rewrite header_value_app. cbn [header_value].
    by destruct (header_value k h).
Qed.

Section ResponseHeaders.
Context `{Env}.

Lemma resp_header_make_response status_code reason headers body name :
  resp_header (make_response status_code reason headers body) name
  = match header_value name headers with
    | Some v => Some v
    | None => default_header body name
    end.
Proof.
  unfold resp_header, make_response, default_header.
  cbn [resp_headers]. rewrite !header_value_setdefault.
  destruct (header_value name headers); [done|].
  rewrite !(String.eqb_sym _ name).
  destruct (String.eqb name "Date"); [done|].
  by destruct (String.eqb name "Server").
Qed.

(** X2.  The headers of a response built by [make_response]: a header that
    the caller gave keeps the caller's value; [Date], [Server] and
    [Content-Length] are added when the caller did not give them, with the
    clock's date, the server name and the byte length of the body; no other
    header appears.  Status, reason and body are the caller's. *)
Theorem make_response_headers (status_code : Z) (reason : string)
    (headers : list (string * string)) (body : string) (name : string) :
  resp_header (make_response status_code reason headers body) name
  = match header_value name headers with
    | Some v => Some v
    | None => default_header body name
    end
  ∧ resp_status (make_response status_code reason headers body) = status_code
  ∧ resp_reason (make_response status_code reason headers body) = reason
  ∧ resp_body (make_response status_code reason headers body) = body.
Proof. split; [apply resp_header_make_response|done]. Qed.

End ResponseHeaders.

(** ** What a worker sends *)

Section HandlerEvents.
Context `{Env}.

Lemma made_response_event status_code reason headers body :
  status_code ∈ HANDLER_STATUSES →
  response_event (Sent (make_response status_code reason headers body)).
Proof.
  intros Hs. cbn [response_event].
  rewrite !resp_header_make_response.
  split; [done|].
  repeat split; by destruct (header_value _ headers).
Qed.

Lemma send_error_event status_code reason extra :
  status_code ∈ HANDLER_STATUSES →
  response_event (send_error status_code reason extra).
Proof. apply made_response_event. Qed.

Ltac status_listed := unfold HANDLER_STATUSES; set_solver.
Ltac one_response :=
  apply Forall_singleton, made_response_event; status_listed.

Lemma serve_file_events fs file_path keep_alive :
  Forall response_event (serve_file fs file_path keep_alive).
Proof.
  unfold serve_file, internal_error, send_error.
  destruct (String.eqb _ ".html").
  { destruct (read_file fs file_path); one_response. }
  destruct (existsb _ SUPPORTED_BINARY); [|one_response].
  destruct (getsize fs file_path); [|one_response].
  apply Forall_cons. split; [apply made_response_event; status_listed|].
  destruct (read_file fs file_path); [|one_response].
  apply Forall_forall. by intros e (chunk & -> & _)%list_elem_of_fmap.
Qed.

Lemma handle_get_events fs path keep_alive evs :
  handle_get fs path keep_alive = Returns evs → Forall response_event evs.
Proof.
  unfold handle_get, send_error.
  destruct (safe_join_resources fs path) as [[p|]|]; [| |done].
  - destruct (negb (exists_ fs p) || negb (isfile fs p)); intros [= <-].
    + one_response.
    + apply serve_file_events.
  - intros [= <-]. one_response.
Qed.

Lemma handle_post_events fs headers body keep_alive :
  Forall response_event (fst (handle_post fs headers body keep_alive)).
Proof.
  unfold handle_post, internal_error, send_error.
  destruct (negb _); cbn [fst]; [one_response|].
  destruct (json_loads body); [|one_response].
  destruct (write_file _ _ _); cbn [fst]; one_response.
Qed.

(** The Host validator refuses with 400 or 403 only. *)
Lemma valid_host_header_status host_header sh sp status :
  valid_host_header host_header sh sp = HostRejected status →
  status = 400 ∨ status = 403.
Proof.
  unfold valid_host_header. destruct host_header as [hh|]; [|intros [= <-]; auto].
  destruct (is_empty hh); [intros [= <-]; auto|].
  destruct (split_host_port _ _) as [[host port]|]; [|intros [= <-]; auto].
  destruct (decide _); [done|]. intros [= <-]. auto.
Qed.

Lemma dispatch_events req c :
  ∃ evs, conn_out (snd (dispatch req c)) = (conn_out c ++ evs)%list
         ∧ Forall response_event evs.
Proof.
  unfold dispatch, internal_error.
  destruct (String.eqb (req_method req) "GET").
  { destruct (handle_get _ _ _) as [evs|] eqn:Hget; cbn [snd emit conn_out].
    - exists evs. split; [done|]. by eapply handle_get_events.
    - eexists. split; [done|]. unfold send_error. one_response. }
  destruct (String.eqb (req_method req) "POST").
  - match goal with
    | |- context [match ?x with Some _ => _ | None => _ end] =>
        destruct x as [[body inp]|]
    end.
    + pose proof (handle_post_events (conn_fs c) (req_headers req) body
                    (keep_alive_decision (req_version req) (req_headers req)))
        as Hev.
      destruct (handle_post _ _ _ _) as [evs fs']. cbn [snd conn_out fst] in *.
      eauto.
    + cbn [snd emit conn_out]. eexists. split; [done|].
      unfold send_error. one_response.
  - cbn [snd emit conn_out]. eexists. split; [done|].
    unfold send_error. one_response.
Qed.

Lemma handle_request_events c :
  ∃ evs, conn_out (snd (handle_request c)) = (conn_out c ++ evs)%list
         ∧ Forall response_event evs.
Proof.
  unfold handle_request.
  destruct (recv_all (conn_in c)) as [raw inp].
  destruct (is_empty raw).
  { exists []. by rewrite app_nil_r. }
  destruct (complete_head raw inp) as [raw' inp'].
  destruct (parse_http_request raw') as [req|].
  - destruct (valid_host_header _ _ _) as [hp|status] eqn:Hhost.
    + apply (dispatch_events req (Connection inp' (conn_out c) (conn_fs c))).
    + cbn [snd emit conn_out]. eexists. split; [done|].
      unfold send_error.
      destruct (valid_host_header_status _ _ _ _ Hhost) as [-> | ->];
        one_response.
  - cbn [snd emit conn_out]. eexists. split; [done|].
    unfold send_error. one_response.
Qed.

Lemma serve_events budget c :
  ∃ evs, conn_out (serve budget c) = (conn_out c ++ evs)%list
         ∧ Forall response_event evs.
Proof.
  revert c. induction budget as [|budget IH]; intros c; cbn [serve].
  { exists []. by rewrite app_nil_r. }
  destruct (handle_request_events c) as (evs1 & Hout1 & Hev1).
  destruct (handle_request c) as [again c1]. cbn [snd] in Hout1.
  destruct again; [|eauto].
  destruct (IH c1) as (evs2 & Hout2 & Hev2).
  exists (evs1 ++ evs2)%list. split; [|by apply Forall_app].
  by rewrite Hout2, Hout1, app_assoc.
Qed.

(** X3.  What a worker does to the socket of a connection, whatever the
    peer sends: it leaves what was sent before in place, sends responses and
    raw file bytes, then shuts the socket down and closes it, once, at the
    very end.  Every response has one of the status codes 200, 201, 400, 403,
    404, 405, 415 and 500 and carries [Date], [Server] and
    [Content-Length]. *)
Theorem handle_client_connection_events (c : connection) :
  ∃ evs,
    conn_out (handle_client_connection c)
    = (conn_out c ++ evs ++ [Shutdown; Closed])%list
    ∧ Forall response_event evs.
Proof.
  destruct (serve_events KEEP_ALIVE_MAX_REQUESTS c) as (evs & Hout & Hev).
  exists evs. split; [|done].
  unfold handle_client_connection. cbn [emit conn_out].
  by rewrite Hout, app_assoc.
Qed.

End HandlerEvents.

(** ** Reading from the socket *)

Lemma length_take n s :
  String.length (take n s) = Nat.min n (String.length s).
Proof. revert s. induction n as [|n IH]; intros [|c s]; simpl; auto. Qed.

Lemma len_append a b : len (a ++ b) = len a + len b.
Proof. unfold len. rewrite length_append. lia. Qed.

Lemma sock_recv_conserves n inp :
  received (fst (sock_recv n inp)) ++ pending (snd (sock_recv n inp))
  = pending inp.
Proof.
  destruct inp as [|[d| |] rest]; try done. cbn [sock_recv].
  destruct (_ <=? _)%nat; cbn [fst snd received pending]; [done|].
  by rewrite <- append_assoc, take_drop.
Qed.

Lemma sock_recv_bound n inp :
  (String.length (received (fst (sock_recv n inp))) ≤ n)%nat.
Proof.
  destruct inp as [|[d| |] rest]; cbn [sock_recv fst received String.length];
    try lia.
  destruct (Nat.leb_spec (String.length d) n); cbn [fst received]; [done|].
  rewrite length_take. lia.
Qed.

Lemma read_body_pending fuel remaining body inp :
  fst (read_body fuel remaining body inp)
  ++ pending (snd (read_body fuel remaining body inp))
  = body ++ pending inp.
Proof.
  revert remaining body inp.
  induction fuel as [|fuel IH]; intros remaining body inp; cbn [read_body];
    destruct (remaining <=? 0); cbn [fst snd]; try done.
  pose proof (sock_recv_conserves (Z.to_nat (Z.min 4096 remaining)) inp)
    as Hcons.
  destruct (sock_recv _ inp) as [[chunk| |] inp'];
    cbn [fst snd received] in *; [|by rewrite <- Hcons..].
  destruct (is_empty chunk) eqn:Hempty; cbn [fst snd].
  - destruct chunk; [|done]. by rewrite <- Hcons.
  - by rewrite IH, append_assoc, Hcons.
Qed.

(** X4.  The loop that completes a POST body never loses, repeats or
    reorders a byte: the body it returns followed by what the peer still has
    to deliver is the body prefix followed by what the peer had to deliver.
    It only appends to the prefix, and it never takes the body beyond the
    announced length (unless the prefix was longer already). *)
Theorem read_body_conserves (fuel : nat) (remaining : Z) (body : string)
    (inp : list recv_event) :
  fst (read_body fuel remaining body inp)
  ++ pending (snd (read_body fuel remaining body inp))
  = body ++ pending inp
  ∧ startswith body (fst (read_body fuel remaining body inp)) = true
  ∧ len (fst (read_body fuel remaining body inp))
    ≤ Z.max (len body) (len body + remaining).
Proof.
  revert remaining body inp.
  induction fuel as [|fuel IH]; intros remaining body inp; cbn [read_body];
    destruct (Z.leb_spec remaining 0) as [Hle|Hgt]; cbn [fst snd];
    try (split; [done|]; split; [apply startswith_refl|lia]).
  pose proof (sock_recv_conserves (Z.to_nat (Z.min 4096 remaining)) inp)
    as Hcons.
  pose proof (sock_recv_bound (Z.to_nat (Z.min 4096 remaining)) inp)
    as Hbound.
  destruct (sock_recv _ inp) as [[chunk| |] inp'];
    cbn [fst snd received] in *.
  - destruct (is_empty chunk) eqn:Hempty; cbn [fst snd].
    + destruct chunk; [|done]. rewrite <- Hcons.
      split; [done|]. split; [apply startswith_refl|lia].
    + destruct (IH (remaining - len chunk) (body ++ chunk) inp')
        as (Hc & Hp & Hl).
      split; [by rewrite Hc, append_assoc, Hcons|]. split.
      * apply startswith_spec in Hp as [t Ht]. rewrite Ht, append_assoc.
        apply startswith_app.
      * rewrite len_append in Hl. unfold len in *. lia.
  - rewrite <- Hcons. split; [done|]. split; [apply startswith_refl|lia].
  - rewrite <- Hcons. split; [done|]. split; [apply startswith_refl|lia].
Qed.

Lemma steady_recv n d rest :
  steady (Data d :: rest) = true → (0 < n)%nat →
  ∃ chunk inp',
    sock_recv n (Data d :: rest) = (Got chunk, inp')
    ∧ is_empty chunk = false
    ∧ steady inp' = true.
Proof.
  unfold steady. cbn [forallb]. intros [Hd Hrest]%andb_true_iff Hn.
  cbn [sock_recv].
  destruct (Nat.leb_spec (String.length d) n) as [Hle|Hgt].
  - exists d, rest. by destruct d.
  - exists (take n d), (Data (drop n d) :: rest). split; [done|]. split.
    + destruct n, d; simpl in *; (done || lia).
    + cbn [forallb]. rewrite Hrest, andb_true_r.
      assert (String.length (drop n d) ≠ 0%nat)
        by (rewrite length_drop; lia).
      by destruct (drop n d).
Qed.

(** X5.  When the peer delivers enough bytes without pause, the loop
    completes the body to the announced length exactly: the body it returns
    is the first [expected] bytes of the prefix followed by the peer's
    bytes. *)
Theorem read_body_completes (fuel : nat) (expected : Z) (body : string)
    (inp : list recv_event) :
  steady inp = true →
  len body ≤ expected ≤ len body + len (pending inp) →
  (Z.to_nat (expected - len body) ≤ fuel)%nat →
  fst (read_body fuel (expected - len body) body inp)
  = take (Z.to_nat expected) (body ++ pending inp).
Proof.
  intros Hsteady Hrange Hfuel.
  assert (len (fst (read_body fuel (expected - len body) body inp))
          = expected) as Hlen.
  { revert body inp Hsteady Hrange Hfuel.
    induction fuel as [|fuel IH]; intros body inp Hsteady Hrange Hfuel;
      cbn [read_body];
      destruct (Z.leb_spec (expected - len body) 0) as [Hle|Hgt];
      cbn [fst]; try lia.
    destruct inp as [|[d| |] rest]; try done.
    { cbn [pending] in Hrange. change (len EmptyString) with 0 in Hrange.
      lia. }
    destruct (steady_recv (Z.to_nat (Z.min 4096 (expected - len body)))
                d rest Hsteady ltac:(lia))
      as (chunk & inp' & Hrecv & Hne & Hst).
    pose proof (sock_recv_conserves
                  (Z.to_nat (Z.min 4096 (expected - len body)))
                  (Data d :: rest)) as Hcons.
    pose proof (sock_recv_bound
                  (Z.to_nat (Z.min 4096 (expected - len body)))
                  (Data d :: rest)) as Hbound.
    rewrite Hrecv in *. cbn [fst snd received] in *. rewrite Hne.
    assert (0 < len chunk)
      by (destruct chunk; [done|unfold len; simpl; lia]).
    assert (len (pending (Data d :: rest)) = len chunk + len (pending inp'))
      as Hp by (rewrite <- Hcons; apply len_append).
    replace (expected - len body - len chunk)
      with (expected - len (body ++ chunk)) by (rewrite len_append; lia).
    apply IH; [done| |]; rewrite len_append; unfold len in *; lia. }
  rewrite <- (read_body_pending fuel (expected - len body) body inp).
  set (completed := fst (read_body fuel (expected - len body) body inp)) in *.
  replace (Z.to_nat expected) with (String.length completed)
    by (unfold len in Hlen; lia).
  by rewrite take_app_length.
Qed.

Lemma read_body_completes_witness :
  fst (read_body 8 (11 - len "hel") "hel" body_chunks) = "hello world".
Proof.
  rewrite (read_body_completes 8 11 "hel" body_chunks);
    [reflexivity | reflexivity | vm_compute; split; discriminate
    | vm_compute; lia].
Defined.

(** X6.  The buffer that a round hands to the parser, read by [recv_all]
    and, when the blank line is missing, completed by one more [recv], holds
    at most 8192 + 4096 bytes, and together with what the peer still has to
    deliver it is what the peer had to deliver. *)
Theorem head_reads_conserve (inp : list recv_event) :
  let first := recv_all inp in
  let whole := complete_head (fst first) (snd first) in
  fst whole ++ pending (snd whole) = pending inp
  ∧ (String.length (fst whole) ≤ MAX_REQUEST_READ + Z.to_nat 4096)%nat.
Proof.
  intros first whole.
  assert (fst first ++ pending (snd first) = pending inp
          ∧ (String.length (fst first) ≤ MAX_REQUEST_READ)%nat)
    as [Hc1 Hb1].
  { unfold first, recv_all.
    pose proof (sock_recv_conserves MAX_REQUEST_READ inp) as Hc.
    pose proof (sock_recv_bound MAX_REQUEST_READ inp) as Hb.
    by destruct (sock_recv MAX_REQUEST_READ inp) as [[d| |] inp']. }
  unfold whole, complete_head.
  destruct (contains CRLFCRLF (fst first)); cbn [fst snd]; [split; [done|lia]|].
  pose proof (sock_recv_conserves (Z.to_nat 4096) (snd first)) as Hc.
  pose proof (sock_recv_bound (Z.to_nat 4096) (snd first)) as Hb.
  destruct (sock_recv (Z.to_nat 4096) (snd first)) as [[d| |] inp'];
    cbn [fst snd received] in *.
  - rewrite append_assoc, Hc, Hc1. split; [done|].
    rewrite length_append. lia.
  - change (pending inp' = pending (snd first)) in Hc.
    rewrite Hc. split; [done|lia].
  - change (pending inp' = pending (snd first)) in Hc.
    rewrite Hc. split; [done|lia].
Qed.

(** ** What the parser stores *)

Lemma all_chars_app p s t :
  all_chars p (s ++ t) = all_chars p s && all_chars p t.
Proof.
  induction s as [|c s IH]; [done|]. cbn [String.append all_chars].
  by rewrite IH, andb_assoc.
Qed.

Lemma words_from_tokens cur s t :
  all_chars not_space cur = true →
  t ∈ words_from cur s → token t.
Proof.
  revert cur. induction s as [|c s IH]; intros cur Hcur; cbn [words_from].
  - destruct cur; cbn [is_empty]; [by intros ?%elem_of_nil|].
    intros ->%list_elem_of_singleton. by split.
  - destruct (is_space c) eqn:Hc.
    + destruct cur; cbn [is_empty]; [by apply IH|].
      intros [->|Ht]%elem_of_cons; [by split | by apply (IH EmptyString)].
    + apply IH. rewrite all_chars_app, Hcur. cbn [all_chars].
      unfold not_space. by rewrite Hc.
Qed.

Lemma words_tokens s t : t ∈ words s → token t.
Proof. by apply words_from_tokens. Qed.

Lemma lstrip_starts_clean s : starts_clean (lstrip s).
Proof.
  induction s as [|c s IH]; [done|]. cbn [lstrip].
  by destruct (is_space c) eqn:Hc.
Qed.

Lemma lstrip_of_clean s : starts_clean s → lstrip s = s.
Proof. destruct s as [|c s]; [done|]. cbn. by intros ->. Qed.

Lemma rstrip_starts_clean s : starts_clean s → starts_clean (rstrip s).
Proof.
  destruct s as [|c s]; [done|]. cbn [starts_clean rstrip]. intros Hc.
  by rewrite Hc, andb_false_r.
Qed.

Lemma rstrip_idem s : rstrip (rstrip s) = rstrip s.
Proof.
  induction s as [|c s IH]; [done|]. cbn [rstrip].
  destruct (is_empty (rstrip s) && is_space c) eqn:Hcond; [done|].
  cbn [rstrip]. by rewrite IH, Hcond.
Qed.

(** Stripping twice is stripping once. *)
Lemma strip_idem s : strip (strip s) = strip s.
Proof.
  unfold strip.
  rewrite (lstrip_of_clean (rstrip (lstrip s)))
    by apply rstrip_starts_clean, lstrip_starts_clean.
  apply rstrip_idem.
Qed.

Lemma all_chars_lstrip p s :
  all_chars p s = true → all_chars p (lstrip s) = true.
Proof.
  induction s as [|c s IH]; [done|]. cbn [lstrip].
  destruct (is_space c); [|done].
  cbn [all_chars]. intros [_ ?]%andb_true_iff. by apply IH.
Qed.

Lemma all_chars_rstrip p s :
  all_chars p s = true → all_chars p (rstrip s) = true.
Proof.
  induction s as [|c s IH]; [done|]. cbn [rstrip all_chars].
  intros [Hc Hs]%andb_true_iff.
  destruct (is_empty (rstrip s) && is_space c); [done|].
  cbn [all_chars]. by rewrite Hc, IH.
Qed.

Lemma partition_colon_name s a b :
  partition ":" s = Some (a, b) → all_chars not_colon a = true.
Proof.
  revert a b. induction s as [|c s IH]; intros a b;
    cbn [partition startswith]; [done|].
  destruct (Ascii.eqb_spec ":" c) as [<-|Hc]; [by intros [= <- _]|].
  destruct (partition ":" s) as [[a' b']|]; [|done].
  intros [= <- _]. cbn [all_chars]. rewrite (IH a' b' eq_refl).
  unfold not_colon. by destruct (Ascii.eqb_spec c ":") as [->|].
Qed.

Lemma header_field_stored line k v :
  header_field line = Some (k, v) → stored_header k v.
Proof.
  unfold header_field.
  destruct (partition ":" line) as [[a b]|] eqn:Hp; [|done].
  intros [= <- <-]. repeat split; try apply strip_idem.
  by apply all_chars_rstrip, all_chars_lstrip, (partition_colon_name line a b).
Qed.

Lemma fold_add_header_stored lines (m : gmap string string) :
  map_Forall stored_header m →
  map_Forall stored_header (fold_left add_header lines m).
Proof.
  revert m. induction lines as [|line lines IH]; intros m Hm; [done|].
  cbn [fold_left]. apply IH. unfold add_header.
  destruct (header_field line) as [[k v]|] eqn:Hf; [|done].
  apply map_Forall_insert_2; [by apply (header_field_stored line)|done].
Qed.

(** X7.  What a parsed request holds: method, target and version are
    tokens (not empty, free of whitespace), and every header is stored with
    name and value free of surrounding whitespace and without a colon in the
    name. *)
Theorem parse_http_request_stored (raw : string) (req : request) :
  parse_http_request raw = Some req →
  token (req_method req) ∧ token (req_path req) ∧ token (req_version req)
  ∧ map_Forall stored_header (req_headers req).
Proof.
  unfold parse_http_request.
  destruct (split CRLF (head_of raw)) as [|line0 hdrs]; [done|].
  destruct (words line0) as [|m [|p [|v [|x l]]]] eqn:Hw; try done.
  intros [= <-]. cbn [req_method req_path req_version req_headers].
  assert (∀ t, t ∈ [m; p; v] → token t) as Htok
    by (intros t Ht; apply (words_tokens line0); by rewrite Hw).
  split; [apply Htok, elem_of_cons; by left|].
  split; [apply Htok, elem_of_cons; right; apply elem_of_cons; by left|].
  split; [apply Htok; do 2 (apply elem_of_cons; right);
          apply elem_of_cons; by left|].
  apply fold_add_header_stored, map_Forall_empty.
Qed.

Lemma parse_http_request_stored_witness :
  ∃ req, parse_http_request lowercase_get = Some req
         ∧ token (req_method req) ∧ token (req_path req)
         ∧ token (req_version req)
         ∧ map_Forall stored_header (req_headers req).
Proof.
  destruct (parse_http_request lowercase_get) as [req|] eqn:Hp;
    [|discriminate Hp].
  exists req. split; [done|].
  exact (parse_http_request_stored lowercase_get req Hp).
Defined.

(** ** Writing a request and parsing it *)

(** A separator is not found inside a text that lacks its first
    character. *)
Lemma partition_skip x sep' l rest :
  all_chars (fun c => negb (Ascii.eqb c x)) l = true →
  partition (String x sep') (l ++ rest)
  = match partition (String x sep') rest with
    | Some (a, b) => Some (l ++ a, b)
    | None => None
    end.
Proof.
  induction l as [|c l IH]; cbn [String.append all_chars].
  - intros _. by destruct (partition _ rest) as [[a b]|].
  - intros [Hc Hl]%andb_true_iff.
    cbn [partition startswith]. rewrite Ascii.eqb_sym.
    destruct (Ascii.eqb c x); [done|]. rewrite (IH Hl).
    by destruct (partition _ rest) as [[a b]|].
Qed.

Lemma partition_at sep rest :
  partition sep (sep ++ rest) = Some (EmptyString, rest).
Proof.
  destruct sep as [|x sep']; [by destruct rest|].
  assert (drop (String.length (String x sep')) (String x sep' ++ rest) = rest)
    as Hd.
  { generalize (String x sep'). intros s.
    induction s as [|c s IH]; [done|]. done. }
  change (partition (String x sep') (String x sep' ++ rest))
    with (if startswith (String x sep') (String x sep' ++ rest)
          then Some (EmptyString,
                     drop (String.length (String x sep'))
                       (String x sep' ++ rest))
          else match partition (String x sep') (sep' ++ rest) with
               | Some (a, b) => Some (String x a, b)
               | None => None
               end).
  by rewrite startswith_app, Hd.
Qed.

(** The blank line is not found where a line that is not empty follows a
    line break. *)
Lemma partition_blank_after_break c rest :
  not_cr c = true →
  partition CRLFCRLF (CRLF ++ String c rest)
  = match partition CRLFCRLF (String c rest) with
    | Some (a, b) => Some (CRLF ++ a, b)
    | None => None
    end.
Proof.
  unfold not_cr. intros Hc%negb_true_iff.
  change (CRLF ++ String c rest) with (String CR (String LF (String c rest))).
  change CRLFCRLF with (String CR (String LF (String CR (String LF EmptyString)))).
  cbn [partition startswith]. rewrite !Ascii.eqb_refl.
  rewrite (Ascii.eqb_sym CR c), Hc.
  change (Ascii.eqb CR LF) with false. cbv iota.
  by destruct (partition _ rest) as [[a b]|].
Qed.

Lemma partition_blank_line l0 hdrs body :
  Forall (fun l => all_chars not_cr l = true) (l0 :: hdrs) →
  Forall (fun l => l ≠ EmptyString) hdrs →
  partition CRLFCRLF (join CRLF (l0 :: hdrs) ++ CRLFCRLF ++ body)
  = Some (join CRLF (l0 :: hdrs), body).
Proof.
  revert l0. induction hdrs as [|h hdrs IH]; intros l0 Hcr Hne.
  - cbn [join]. apply Forall_cons in Hcr as [H0 _].
    change CRLFCRLF with (String CR (String LF CRLF)).
    rewrite (partition_skip CR _ l0) by done.
    change (String CR (String LF CRLF)) with CRLFCRLF.
    by rewrite partition_at, append_nil_r.
  - apply Forall_cons in Hcr as [H0 Hcr]. apply Forall_cons in Hne as [Hh Hne].
    change (join CRLF (l0 :: h :: hdrs))
      with (l0 ++ CRLF ++ join CRLF (h :: hdrs)).
    rewrite !append_assoc.
    change CRLFCRLF with (String CR (String LF CRLF)) at 1.
    rewrite (partition_skip CR _ l0) by done.
    change (String CR (String LF CRLF)) with CRLFCRLF.
    specialize (IH h Hcr Hne).
    destruct (join CRLF (h :: hdrs) ++ CRLFCRLF ++ body) as [|c rest] eqn:Hj.
    { destruct h; [done|]. by destruct hdrs. }
    assert (not_cr c = true) as Hc.
    { apply Forall_cons in Hcr as [Hcr _]. destruct h as [|c' h]; [done|].
      cbn [all_chars] in Hcr. apply andb_true_iff in Hcr as [Hc' _].
      destruct hdrs; cbn in Hj; by injection Hj as <- _. }
    by rewrite (partition_blank_after_break c rest Hc), IH.
Qed.

Lemma split_joined_lines l0 hdrs :
  Forall (fun l => all_chars not_cr l = true) (l0 :: hdrs) →
  split CRLF (join CRLF (l0 :: hdrs)) = l0 :: hdrs.
Proof.
  revert l0. induction hdrs as [|h hdrs IH]; intros l0 Hcr;
    apply Forall_cons in Hcr as [H0 Hcr]; rewrite split_unfold by done.
  - cbn [join]. rewrite <- (append_nil_r l0) at 1.
    unfold CRLF at 1. by rewrite (partition_skip CR _ l0).
  - change (join CRLF (l0 :: h :: hdrs))
      with (l0 ++ CRLF ++ join CRLF (h :: hdrs)).
    unfold CRLF at 1. rewrite (partition_skip CR _ l0) by done.
    fold CRLF. rewrite partition_at, append_nil_r. f_equal. by apply IH.
Qed.

(** X8.  A request written as a request line and header lines joined by
    line breaks, a blank line and a body is parsed back to what was written:
    the request line gives the three tokens, the header lines give the
    headers, and the body is returned byte for byte, whatever it contains.
    The lines must be free of carriage returns and the header lines not
    empty. *)
Theorem parse_written_request (line0 : string) (hdrs : list string)
    (body : string) :
  Forall (fun l => all_chars not_cr l = true) (line0 :: hdrs) →
  Forall (fun l => l ≠ EmptyString) hdrs →
  parse_http_request (request_text (line0 :: hdrs) body)
  = match words line0 with
    | [method; path; version] =>
        Some (Request method path version (fold_left add_header hdrs ∅) body)
    | _ => None
    end.
Proof.
  intros Hcr Hne. unfold parse_http_request, head_of, body_of, request_text.
  rewrite partition_blank_line by done.
  by rewrite split_joined_lines.
Qed.

Lemma parse_written_request_witness :
  parse_http_request
    (request_text ["POST /up HTTP/1.1"; "Host: 127.0.0.1:8080"]
       (CRLFCRLF ++ "a body with a blank line" ++ CRLFCRLF))
  = Some (Request "POST" "/up" "HTTP/1.1"
            (fold_left add_header ["Host: 127.0.0.1:8080"] ∅)
            (CRLFCRLF ++ "a body with a blank line" ++ CRLFCRLF)).
Proof.
  apply (parse_written_request "POST /up HTTP/1.1" ["Host: 127.0.0.1:8080"]).
  - repeat constructor.
  - repeat constructor; discriminate.
Defined.

(** ** What the Host validator accepts *)

Lemma contains_colon_chars s :
  contains ":" s = false → all_chars not_colon s = true.
Proof.
  induction s as [|c s IH]; [done|]. cbn [contains startswith all_chars].
  intros [Hc Hs]%orb_false_iff. rewrite (IH Hs), andb_true_r.
  unfold not_colon. rewrite Ascii.eqb_sym. by destruct (Ascii.eqb ":" c).
Qed.

(** Two texts cut at their first colon agree part by part. *)
Lemma first_colon_inj a b x y :
  all_chars not_colon a = true → all_chars not_colon b = true →
  a ++ String ":" x = b ++ String ":" y → a = b ∧ x = y.
Proof.
  revert b. induction a as [|c a IH]; intros [|d b]; cbn [String.append all_chars].
  - by intros _ _ [= ->].
  - intros _ [Hd _]%andb_true_iff [= <- _]. done.
  - intros [Hc _]%andb_true_iff _ [= -> _]. done.
  - intros [_ Ha]%andb_true_iff [_ Hb]%andb_true_iff [= -> Heq].
    destruct (IH b Ha Hb Heq) as [-> ->]. done.
Qed.

Section HostAccepts.
Context `{Env}.

(** X9.  What the Host validator accepts, for a server bound to a host
    without a colon in its name: the text it returns is [host:port] with the
    port of the server and with [host] the bind host, or one of [localhost]
    and [127.0.0.1] when the bind host is a loopback one; and the trimmed
    value of the header is that host alone, or that host, a colon and a text
    that [int] reads as the port of the server, so a header that names
    another port is never accepted.  Whatever the bind host is, a refusal
    carries status 400 or 403. *)
Theorem valid_host_header_accepts (host_header : option string)
    (sh : string) (sp : Z) :
  (∀ status, valid_host_header host_header sh sp = HostRejected status →
             status = 400 ∨ status = 403)
  ∧ (contains ":" sh = false →
     ∀ host_port,
       valid_host_header host_header sh sp = HostOk host_port →
       ∃ v host,
         host_header = Some v
         ∧ (strip v = host
            ∨ ∃ port_text,
                partition ":" (strip v) = Some (host, port_text)
                ∧ py_int port_text = Some sp)
         ∧ host_port = host_port_text host sp
         ∧ (host = sh
            ∨ loopback_bind sh ∧ (host = "localhost" ∨ host = "127.0.0.1"))).
Proof.
  split; [intros status; apply valid_host_header_status|].
  intros Hsh host_port. unfold valid_host_header.
  destruct host_header as [v|]; [|done].
  destruct (is_empty v); [done|].
  destruct (split_host_port (strip v) sp) as [[host port]|] eqn:Hsplit;
    [|done].
  destruct (decide _) as [Hin|]; [|done]. intros [= <-].
  assert (all_chars not_colon host = true
          ∧ (strip v = host ∧ port = sp
             ∨ ∃ port_text,
                 partition ":" (strip v) = Some (host, port_text)
                 ∧ py_int port_text = Some port)) as [Hhost Hread].
  { unfold split_host_port in Hsplit.
    destruct (partition ":" (strip v)) as [[a b]|] eqn:Hp.
    - destruct (py_int b) as [n|] eqn:Hint; [|done].
      injection Hsplit as <- <-. split; [|by eauto].
      by apply (partition_colon_name (strip v) a b).
    - injection Hsplit as <- <-. split; [|by left].
      by apply contains_colon_chars, partition_None_contains. }
  assert (∀ h, all_chars not_colon h = true →
               host_port_text host port = host_port_text h sp →
               host = h ∧ port = sp) as Hcut.
  { intros h Hh Heq.
    destruct (first_colon_inj host h _ _ Hhost Hh Heq) as [-> Hp].
    split; [done|]. by apply (inj pretty). }
  assert (port = sp →
          strip v = host
          ∨ ∃ port_text,
              partition ":" (strip v) = Some (host, port_text)
              ∧ py_int port_text = Some sp) as Hnamed.
  { intros ->. destruct Hread as [[? _]|?]; auto. }
  exists v, host.
  apply acceptable_hosts_spec in Hin as [Heq|[Hloop [Heq|Heq]]].
  - destruct (Hcut sh (contains_colon_chars _ Hsh) Heq) as [Hh Hp].
    subst port. split_and!; auto.
  - destruct (Hcut "localhost" eq_refl Heq) as [Hh Hp].
    subst port. split_and!; auto.
  - destruct (Hcut "127.0.0.1" eq_refl Heq) as [Hh Hp].
    subst port. split_and!; auto.
Qed.

End HostAccepts.

Lemma valid_host_header_accepts_witness :
  ∃ v host,
    Some " localhost:8080 " = Some v
    ∧ (strip v = host
       ∨ ∃ port_text,
           partition ":" (strip v) = Some (host, port_text)
           ∧ py_int (Env := Sample.env) port_text = Some 8080)
    ∧ "localhost:8080" = host_port_text host 8080
    ∧ (host = "0.0.0.0"
       ∨ loopback_bind "0.0.0.0"
         ∧ (host = "localhost" ∨ host = "127.0.0.1")).
Proof.
  apply (proj2 (valid_host_header_accepts (H := Sample.env)
                  (Some " localhost:8080 ") "0.0.0.0" 8080));
    vm_refl.
Defined.

(** ** Bursts of connections *)

Lemma submit_all_cons {A} (pool : thread_pool A) client rest :
  submit_all pool (client :: rest)
  = (fst (submit pool client)
       :: fst (submit_all (snd (submit pool client)) rest),
     snd (submit_all (snd (submit pool client)) rest)).
Proof.
  cbn [submit_all]. destruct (submit pool client) as [ok pool'].
  cbn [fst snd]. by destruct (submit_all pool' rest).
Qed.

Lemma submit_cases {A} (pool : thread_pool A) client :
  ((length (task_queue pool) < CONN_QUEUE_MAX)%nat
   ∧ submit pool client
     = (true, ThreadPool (max_workers pool) (task_queue pool ++ [client])))
  ∨ ((CONN_QUEUE_MAX ≤ length (task_queue pool))%nat
     ∧ submit pool client = (false, pool)).
Proof.
  unfold submit, put_nowait.
  destruct (Nat.ltb_spec (length (task_queue pool)) CONN_QUEUE_MAX); auto.
Qed.

(** X10.  A burst of connections submitted to a pool whose workers take
    none meanwhile: with [room] the free places of the queue, the first
    [room] connections are accepted and queued in their order of arrival,
    all later ones are refused, and the pool is otherwise unchanged. *)
Theorem submit_all_fills_queue {A : Type} (pool : thread_pool A)
    (clients : list A) :
  let room := (CONN_QUEUE_MAX - length (task_queue pool))%nat in
  fst (submit_all pool clients)
  = (replicate (Nat.min room (length clients)) true
     ++ replicate (length clients - room) false)%list
  ∧ task_queue (snd (submit_all pool clients))
    = (task_queue pool ++ List.firstn room clients)%list
  ∧ max_workers (snd (submit_all pool clients)) = max_workers pool.
Proof.
  revert pool. induction clients as [|client rest IH]; intros pool room.
  { cbn [submit_all fst snd length].
    rewrite Nat.min_0_r, firstn_nil, !app_nil_r. done. }
  rewrite submit_all_cons. cbn [fst snd length].
  destruct (submit_cases pool client) as [[Hlt ->]|[Hge ->]]; cbn [fst snd].
  - destruct (IH (ThreadPool (max_workers pool)
                    (task_queue pool ++ [client]))) as (Ha & Hq & Hw).
    cbn [task_queue max_workers] in *. rewrite length_app in *.
    cbn [length] in *.
    assert (room = S (CONN_QUEUE_MAX - (length (task_queue pool) + 1)))
      as -> by (unfold room; lia).
    cbn [Nat.min replicate firstn app Nat.sub].
    rewrite Ha, Hq, <- app_assoc. done.
  - destruct (IH pool) as (Ha & Hq & Hw).
    assert ((CONN_QUEUE_MAX - length (task_queue pool))%nat = 0%nat) as Hroom
      by lia.
    unfold room. rewrite Hroom in *.
    cbn [Nat.min replicate firstn app Nat.sub] in *.
    rewrite Nat.sub_0_r in Ha. by rewrite Ha, Hq.
Qed.

(** ** The workers of the pool *)

Lemma serving_insert {A} (workers : list (worker_state A)) i old new :
  workers !! i = Some old →
  (serving (<[i := new]> workers) + (if is_serving old then 1 else 0)
   = serving workers + (if is_serving new then 1 else 0))%nat.
Proof.
  unfold serving. revert i.
  induction workers as [|w workers IH]; intros [|i]; try done.
  - intros [= ->]. cbn [list_insert insert List.filter].
    change (<[0%nat := new]> (old :: workers)) with (new :: workers).
    cbn [List.filter]. destruct (is_serving old), (is_serving new);
      cbn [length]; lia.
  - intros Hi. change (<[S i := new]> (w :: workers))
      with (w :: <[i := new]> workers).
    cbn [List.filter]. specialize (IH i Hi).
    destruct (is_serving w); cbn [length]; lia.
Qed.

Lemma serving_le {A} (workers : list (worker_state A)) :
  (serving workers ≤ length workers)%nat.
Proof.
  unfold serving. induction workers as [|w workers IH]; [done|].
  cbn [List.filter]. destruct (is_serving w); cbn [length]; lia.
Qed.

Lemma serving_replicate_waiting {A} n :
  serving (replicate n (@Waiting A)) = 0%nat.
Proof. unfold serving. induction n as [|n IH]; [done|]. by cbn. Qed.

Lemma pool_step_invariant {A} n (s s' : pool_run A) e :
  pool_invariant n s → pool_step s e = Some s' → pool_invariant n s'.
Proof.
  intros (Hlen & Hmax & Hact & Hq). destruct e as [client|i|i|i];
    cbn [pool_step].
  - intros [= <-]. unfold pool_invariant. cbn [run_pool run_workers active_count].
    destruct (submit_cases (run_pool s) client) as [[Hlt ->]|[Hge ->]];
      cbn [snd task_queue max_workers]; [|done].
    rewrite length_app. cbn [length]. split_and!; (done || lia).
  - destruct (run_workers s !! i) as [[| |]|] eqn:Hi; try done.
    destruct (task_queue (run_pool s)) as [|client rest] eqn:Hqueue; [done|].
    intros [= <-]. unfold pool_invariant.
    cbn [run_pool run_workers active_count task_queue max_workers].
    rewrite length_insert. cbn [length] in Hq.
    pose proof (serving_insert _ i _ (Holding client) Hi) as Hs.
    cbn [is_serving] in Hs. split_and!; (done || lia).
  - destruct (run_workers s !! i) as [[|client|]|] eqn:Hi; try done.
    intros [= <-]. unfold pool_invariant.
    cbn [run_pool run_workers active_count]. rewrite length_insert.
    pose proof (serving_insert _ i _ (Serving client) Hi) as Hs.
    cbn [is_serving] in Hs. split_and!; (done || lia).
  - destruct (run_workers s !! i) as [[| |client]|] eqn:Hi; try done.
    intros [= <-]. unfold pool_invariant.
    cbn [run_pool run_workers active_count]. rewrite length_insert.
    pose proof (serving_insert _ i _ (@Waiting A) Hi) as Hs.
    cbn [is_serving] in Hs. split_and!; (done || lia).
Qed.

(** X11.  Whatever the order in which the accept loop submits and the
    workers take connections, start and finish them: the pool keeps its
    workers, [active_count] is the number of workers that run the handler,
    so [status] never reports more active workers than the pool has, and the
    queue never holds more than [CONN_QUEUE_MAX] connections. *)
Theorem pool_counters_bounded {A : Type} (workers : nat)
    (events : list (pool_event A)) (s : pool_run A) :
  pool_steps (start_pool workers) events = Some s →
  length (run_workers s) = workers
  ∧ active_count s = serving (run_workers s)
  ∧ ∃ active queued,
      status s = (active, workers, queued)
      ∧ (active ≤ workers)%nat
      ∧ (queued ≤ CONN_QUEUE_MAX)%nat.
Proof.
  assert (∀ s0, pool_invariant workers s0 →
            pool_steps s0 events = Some s → pool_invariant workers s)
    as Hrun.
  { induction events as [|e events IH]; intros s0 Hinv; cbn [pool_steps].
    - by intros [= <-].
    - destruct (pool_step s0 e) as [s1|] eqn:Hstep; [|done].
      apply IH. by eapply pool_step_invariant. }
  intros Hsteps.
  destruct (Hrun (start_pool workers)) as (Hlen & Hmax & Hact & Hq);
    [|done|].
  { unfold pool_invariant, start_pool.
    cbn [run_workers run_pool active_count task_queue max_workers length].
    rewrite length_replicate, serving_replicate_waiting.
    split_and!; (done || lia). }
  split; [done|]. split; [done|].
  exists (active_count s), (length (task_queue (run_pool s))).
  unfold status. rewrite Hmax. split; [done|]. split; [|done].
  rewrite Hact, <- Hlen. apply serving_le.
Qed.

Lemma pool_counters_bounded_witness :
  pool_steps (start_pool 2) sample_run = Some sample_run_end
  ∧ length (run_workers sample_run_end) = 2%nat
  ∧ active_count sample_run_end = serving (run_workers sample_run_end)
  ∧ ∃ active queued,
      status sample_run_end = (active, 2%nat, queued)
      ∧ (active ≤ 2)%nat
      ∧ (queued ≤ CONN_QUEUE_MAX)%nat.
Proof.
  split; [reflexivity|].
  apply (pool_counters_bounded 2 sample_run sample_run_end).
  reflexivity.
Defined.

Lemma taken_insert {A} (workers : list (worker_state A)) i old new :
  workers !! i = Some old →
  (option_list (taken old) ++ omap taken (<[i := new]> workers))%list
  ≡ₚ (option_list (taken new) ++ omap taken workers)%list.
Proof.
  revert i. induction workers as [|w workers IH]; intros [|i]; try done.
  - intros [= ->].
    change (<[0%nat := new]> (old :: workers)) with (new :: workers).
    cbn [omap list_omap]. destruct (taken old), (taken new);
      cbn [option_list option_rect app]; try done. apply Permutation_swap.
  - intros Hi. change (<[S i := new]> (w :: workers))
      with (w :: <[i := new]> workers).
    cbn [omap list_omap]. specialize (IH i Hi). fold (@omap list _ _ _ (@taken A)) in *.
    destruct (taken w) as [client|]; [|exact IH].
    rewrite <- !Permutation_middle. by f_equiv.
Qed.

Lemma pool_step_held {A} (s s' : pool_run A) e :
  pool_step s e = Some s' →
  match e with
  | Accepts client => held s' = held s ∨ held s' ≡ₚ client :: held s
  | Takes _ | Enters _ => held s' ≡ₚ held s
  | Leaves _ => ∃ client, client :: held s' ≡ₚ held s
  end.
Proof.
  destruct e as [client|i|i|i]; cbn [pool_step].
  - intros [= <-]. unfold held. cbn [run_pool run_workers].
    destruct (submit_cases (run_pool s) client) as [[_ ->]|[_ ->]];
      cbn [snd task_queue]; [right|by left].
    rewrite <- app_assoc. cbn [app]. by rewrite <- Permutation_middle.
  - destruct (run_workers s !! i) as [[| |]|] eqn:Hi; try done.
    destruct (task_queue (run_pool s)) as [|client rest] eqn:Hqueue; [done|].
    intros [= <-]. unfold held. cbn [run_pool run_workers task_queue].
    rewrite Hqueue.
    pose proof (taken_insert _ i _ (Holding client) Hi) as Hp.
    cbn [taken option_list option_rect app] in Hp. rewrite Hp.
    cbn [app]. by rewrite <- Permutation_middle.
  - destruct (run_workers s !! i) as [[|client|]|] eqn:Hi; try done.
    intros [= <-]. unfold held. cbn [run_pool run_workers].
    pose proof (taken_insert _ i _ (Serving client) Hi) as Hp.
    cbn [taken option_list option_rect app] in Hp.
    apply Permutation_cons_inv in Hp. by rewrite Hp.
  - destruct (run_workers s !! i) as [[| |client]|] eqn:Hi; try done.
    intros [= <-]. exists client. unfold held. cbn [run_pool run_workers].
    pose proof (taken_insert _ i _ (@Waiting A) Hi) as Hp.
    cbn [taken option_list option_rect app] in Hp. rewrite <- Hp.
    by rewrite <- Permutation_middle.
Qed.

Lemma pool_steps_held {A} (events : list (pool_event A)) :
  ∀ (s0 s : pool_run A) (seen : list A),
    pool_steps s0 events = Some s →
    NoDup (held s0) → held s0 ⊆ seen →
    NoDup (seen ++ submitted events)%list →
    NoDup (held s) ∧ held s ⊆ (seen ++ submitted events)%list.
Proof.
  induction events as [|e events IH]; intros s0 s seen; cbn [pool_steps].
  - intros [= <-] Hnd Hsub _. unfold submitted. cbn [omap list_omap].
    by rewrite app_nil_r.
  - destruct (pool_step s0 e) as [s1|] eqn:Hstep; [|done].
    intros Hrun Hnd Hsub Hfresh.
    pose proof (pool_step_held _ _ _ Hstep) as Hheld.
    destruct e as [client|i|i|i].
    + change (submitted (Accepts client :: events))
        with (client :: submitted events) in *.
      rewrite (cons_middle client seen) in *. rewrite app_assoc in *.
      apply (IH s1 s (seen ++ [client])%list Hrun); [| |done].
      * destruct Hheld as [Hheld|Hheld]; rewrite Hheld; [done|].
        apply NoDup_cons. split; [|done].
        intros Hin. apply Hsub in Hin.
        rewrite <- app_assoc in Hfresh. apply NoDup_app in Hfresh.
        destruct Hfresh as (_ & Hdis & _). apply (Hdis client Hin).
        cbn [app]. left.
      * intros x Hx. apply elem_of_app.
        destruct Hheld as [Hheld|Hheld]; rewrite Hheld in Hx;
          [left; by apply Hsub|].
        apply elem_of_cons in Hx as [->|Hx]; [right|left; by apply Hsub].
        by apply list_elem_of_singleton.
    + change (submitted (Takes i :: events)) with (submitted events) in *.
      apply (IH s1 s seen Hrun); [by rewrite Hheld|by rewrite Hheld|done].
    + change (submitted (Enters i :: events)) with (submitted events) in *.
      apply (IH s1 s seen Hrun); [by rewrite Hheld|by rewrite Hheld|done].
    + change (submitted (Leaves i :: events)) with (submitted events) in *.
      destruct Hheld as [client Hheld]. rewrite <- Hheld in Hnd, Hsub.
      apply NoDup_cons in Hnd as [_ Hnd].
      apply (IH s1 s seen Hrun); [done| |done].
      intros x Hx. apply Hsub. apply elem_of_cons. by right.
Qed.

(** X12.  When the accept loop never submits the same connection twice,
    no connection is ever held twice by the pool: not queued twice, not
    queued while a worker has it, and not taken by two workers; and the pool
    holds only connections that were submitted. *)
Theorem pool_never_shares {A : Type} (workers : nat)
    (events : list (pool_event A)) (s : pool_run A) :
  NoDup (submitted events) →
  pool_steps (start_pool workers) events = Some s →
  NoDup (held s) ∧ held s ⊆ submitted events.
Proof.
  intros Hnd Hrun.
  assert (held (@start_pool A workers) = []) as Hstart.
  { unfold held, start_pool. cbn [run_pool run_workers task_queue app].
    clear Hrun. induction workers as [|n IH]; [done|exact IH]. }
  apply (pool_steps_held events (start_pool workers) s [] Hrun).
  - rewrite Hstart. constructor.
  - rewrite Hstart. intros x Hx. by apply elem_of_nil in Hx.
  - done.
Qed.

Lemma pool_never_shares_witness :
  NoDup (submitted sample_run)
  ∧ pool_steps (start_pool 2) sample_run = Some sample_run_end
  ∧ NoDup (held sample_run_end)
  ∧ held sample_run_end ⊆ submitted sample_run.
Proof.
  assert (NoDup (submitted sample_run)) as Hnd.
  { apply (bool_decide_unpack (NoDup (submitted sample_run))).
    vm_compute. exact I. }
  split; [exact Hnd|]. split; [reflexivity|].
  apply (pool_never_shares 2 sample_run sample_run_end Hnd).
  reflexivity.
Defined.

(** ** The chunks of a binary transfer *)

Lemma drop_drop a b s : drop a (drop b s) = drop (b + a) s.
Proof.
  revert s. induction b as [|b IH]; intros s; [done|].
  destruct s as [|c s]; [by destruct a|]. cbn [drop Nat.add]. apply IH.
Qed.

Lemma reads_needed_next size n :
  (0 < n)%nat → (0 < size)%nat →
  reads_needed size n = S (reads_needed (size - n) n).
Proof.
  intros Hn Hsize. unfold reads_needed.
  replace (size + n - 1)%nat with ((size - 1) + 1 * n)%nat by lia.
  rewrite Nat.div_add by lia.
  destruct (decide (n ≤ size)%nat) as [Hle|Hgt].
  - replace (size - n + n - 1)%nat with (size - 1)%nat by lia. lia.
  - rewrite !Nat.div_small by lia. lia.
Qed.

Lemma chunks_fuel_slices fuel n content :
  (0 < n)%nat → (String.length content ≤ fuel)%nat →
  chunks_fuel fuel n content
  = map (slice n content) (seq 0 (reads_needed (String.length content) n)).
Proof.
  intros Hn. revert content.
  induction fuel as [|fuel IH]; intros content Hlen.
  - destruct content; [|simpl in Hlen; lia].
    unfold reads_needed. cbn [String.length Nat.add].
    by rewrite Nat.div_small by lia.
  - cbn [chunks_fuel]. destruct (is_empty (take n content)) eqn:He.
    + rewrite (take_empty _ _ He Hn). unfold reads_needed.
      cbn [String.length Nat.add]. by rewrite Nat.div_small by lia.
    + assert (0 < String.length content)%nat as Hpos.
      { destruct content; [by destruct n|]. simpl. lia. }
      rewrite (reads_needed_next _ n Hn Hpos). cbn [seq map].
      f_equal. rewrite <- seq_shift, map_map, IH.
      * rewrite length_drop. apply map_ext. intros i. unfold slice.
        by rewrite drop_drop.
      * rewrite length_drop. lia.
Qed.

(** X13.  The raw chunks that a binary transfer sends are the consecutive
    slices of 8192 bytes of the content: as many as the size needs, each one
    non-empty and at most 8192 bytes long, all but the last one full, and
    nothing is sent for an empty file. *)
Theorem file_chunks_slices (content : string) :
  let count := reads_needed (String.length content) FILE_READ_CHUNK in
  file_chunks content = map (slice FILE_READ_CHUNK content) (seq 0 count)
  ∧ Forall (fun chunk => (1 ≤ String.length chunk ≤ FILE_READ_CHUNK)%nat)
      (file_chunks content)
  ∧ Forall (fun chunk => String.length chunk = FILE_READ_CHUNK)
      (removelast (file_chunks content))
  ∧ (file_chunks content = [] ↔ content = EmptyString).
Proof.
  assert (0 < FILE_READ_CHUNK)%nat as Hn by (unfold FILE_READ_CHUNK; lia).
  set (n := FILE_READ_CHUNK) in *.
  intros count.
  assert (file_chunks content = map (slice n content) (seq 0 count)) as Heq
    by (by apply chunks_fuel_slices).
  pose proof (eq_refl : count = reads_needed (String.length content) n)
    as Hcount.
  clearbody count.
  assert (∀ i, (i < count)%nat → (i * n < String.length content)%nat) as Hin.
  { intros i Hi. subst count. unfold reads_needed in Hi.
    destruct (decide (i * n < String.length content)%nat) as [|Hge]; [done|].
    exfalso.
    assert ((String.length content + n - 1) / n < S i)%nat; [|lia].
    apply Nat.Div0.div_lt_upper_bound. nia. }
  assert (∀ i, (S i < count)%nat → ((i + 1) * n ≤ String.length content)%nat)
    as Hfull.
  { intros i Hi. apply Hin in Hi. lia. }
  split; [exact Heq|]. split; [|split].
  - rewrite Heq. apply Forall_forall. intros chunk Hchunk.
    apply list_elem_of_fmap in Hchunk as (i & -> & Hi).
    apply list_elem_of_In, in_seq in Hi. unfold slice.
    rewrite length_take, length_drop.
    specialize (Hin i ltac:(lia)). lia.
  - rewrite Heq. apply Forall_forall. intros chunk Hchunk.
    destruct count as [|k]; [by apply elem_of_nil in Hchunk|].
    rewrite seq_S, map_app in Hchunk. cbn [map] in Hchunk.
    rewrite removelast_last in Hchunk.
    apply list_elem_of_fmap in Hchunk as (i & -> & Hi).
    apply list_elem_of_In, in_seq in Hi. unfold slice.
    rewrite length_take, length_drop.
    specialize (Hfull i ltac:(lia)). lia.
  - rewrite Heq. split.
    + intros Hnil. destruct count as [|k]; [|done].
      symmetry in Hcount. unfold reads_needed in Hcount.
      destruct content as [|c content]; [done|]. exfalso.
      cbn [String.length] in Hcount.
      apply Nat.div_small_iff in Hcount; lia.
    + intros ->. subst count. unfold reads_needed.
      cbn [String.length Nat.add]. by rewrite Nat.div_small by lia.
Qed.

(** ** What the responses announce *)

Section Announcements.
Context `{Env}.

Lemma connection_header_made status_code reason headers body :
  resp_header (make_response status_code reason headers body) "Connection"
  = header_value "Connection" headers.
Proof.
  rewrite resp_header_make_response.
  by destruct (header_value "Connection" headers).
Qed.

Lemma send_error_announces status_code reason keep_alive :
  is_success status_code = false →
  announces keep_alive (send_error status_code reason []).
Proof.
  intros Hs. unfold send_error. cbn [announces].
  rewrite connection_header_made. cbn [make_response resp_status].
  by rewrite Hs.
Qed.

Lemma serve_file_announces fs file_path keep_alive :
  Forall (announces keep_alive) (serve_file fs file_path keep_alive).
Proof.
  assert (∀ headers body,
            header_value "Connection" headers
            = Some (connection_value keep_alive) →
            announces keep_alive (Sent (make_response 200 "OK" headers body)))
    as Hok.
  { intros headers body Hh. cbn [announces].
    by rewrite connection_header_made, Hh. }
  unfold serve_file, internal_error.
  destruct (String.eqb _ ".html").
  { destruct (read_file fs file_path); apply Forall_singleton;
      [by apply Hok|by apply send_error_announces]. }
  destruct (existsb _ SUPPORTED_BINARY);
    [|by apply Forall_singleton, send_error_announces].
  destruct (getsize fs file_path);
    [|by apply Forall_singleton, send_error_announces].
  apply Forall_cons. split; [by apply Hok|].
  destruct (read_file fs file_path);
    [|by apply Forall_singleton, send_error_announces].
  apply Forall_forall. by intros e (chunk & -> & _)%list_elem_of_fmap.
Qed.

Lemma handle_post_announces fs headers body keep_alive :
  Forall (announces keep_alive) (fst (handle_post fs headers body keep_alive)).
Proof.
  unfold handle_post, internal_error.
  destruct (negb _); cbn [fst];
    [by apply Forall_singleton, send_error_announces|].
  destruct (json_loads body);
    [|by apply Forall_singleton, send_error_announces].
  destruct (write_file _ _ _); cbn [fst];
    [|by apply Forall_singleton, send_error_announces].
  apply Forall_singleton. cbn [announces].
  by rewrite connection_header_made.
Qed.

Lemma dispatch_announces req c :
  ∃ evs, conn_out (snd (dispatch req c)) = (conn_out c ++ evs)%list
         ∧ Forall (announces (fst (dispatch req c))) evs.
Proof.
  unfold dispatch, internal_error.
  destruct (String.eqb (req_method req) "GET").
  { unfold handle_get.
    destruct (safe_join_resources _ _) as [[p|]|]; cbn [fst snd emit conn_out];
      [|eexists; (split; [done|]);
        by apply Forall_singleton, send_error_announces..].
    destruct (negb _ || negb _); cbn [fst snd emit conn_out].
    - eexists. split; [done|]. by apply Forall_singleton, send_error_announces.
    - eexists. split; [done|]. apply serve_file_announces. }
  destruct (String.eqb (req_method req) "POST").
  - match goal with
    | |- context [match ?x with Some _ => _ | None => _ end] =>
        destruct x as [[body inp]|]
    end.
    + pose proof (handle_post_announces (conn_fs c) (req_headers req) body
                    (keep_alive_decision (req_version req) (req_headers req)))
        as Hev.
      destruct (handle_post _ _ _ _) as [evs fs']. cbn [snd conn_out fst] in *.
      eauto.
    + cbn [fst snd emit conn_out]. eexists. split; [done|].
      by apply Forall_singleton, send_error_announces.
  - cbn [fst snd emit conn_out]. eexists. split; [done|].
    by apply Forall_singleton, send_error_announces.
Qed.

(** A round of the loop: what it sends announces its own decision. *)
Lemma round_announces c :
  ∃ evs,
    conn_out (snd (handle_request c)) = (conn_out c ++ evs)%list
    ∧ Forall (announces (fst (handle_request c))) evs.
Proof.
  unfold handle_request.
  destruct (recv_all (conn_in c)) as [raw inp].
  destruct (is_empty raw).
  { exists []. by rewrite app_nil_r. }
  destruct (complete_head raw inp) as [raw' inp'].
  destruct (parse_http_request raw') as [req|].
  - destruct (valid_host_header _ _ _) as [hp|status] eqn:Hhost.
    + apply (dispatch_announces req (Connection inp' (conn_out c) (conn_fs c))).
    + cbn [fst snd emit conn_out]. eexists. split; [done|].
      apply Forall_singleton, send_error_announces.
      by destruct (valid_host_header_status _ _ _ _ Hhost) as [-> | ->].
  - cbn [fst snd emit conn_out]. eexists. split; [done|].
    by apply Forall_singleton, send_error_announces.
Qed.

Lemma serve_rounds budget c :
  ∃ rounds : list (bool * list sock_event),
    conn_out (serve budget c) = (conn_out c ++ flat_map snd rounds)%list
    ∧ (length rounds ≤ budget)%nat
    ∧ (budget ≠ 0%nat → rounds ≠ [])
    ∧ Forall (fun round => Forall (announces (fst round)) (snd round)) rounds
    ∧ Forall (fun round => fst round = true) (removelast rounds)
    ∧ (∀ round, last rounds = Some round → fst round = true →
                length rounds = budget).
Proof.
  revert c. induction budget as [|budget IH]; intros c; cbn [serve].
  { exists []. cbn [flat_map length removelast]. rewrite app_nil_r.
    split_and!; done. }
  destruct (round_announces c) as (evs & Hout & Hann).
  destruct (handle_request c) as [again c1]. cbn [fst snd] in *.
  destruct again.
  - destruct (IH c1) as (rounds & Hout1 & Hlen & Hne & Hall & Hinit & Hlast).
    exists ((true, evs) :: rounds). split_and!.
    + cbn [flat_map snd]. by rewrite Hout1, Hout, app_assoc.
    + cbn [length]. lia.
    + done.
    + by apply Forall_cons.
    + destruct rounds as [|round rounds]; [by cbn|].
      change (removelast ((true, evs) :: round :: rounds))
        with ((true, evs) :: removelast (round :: rounds)).
      by apply Forall_cons.
    + intros round Hround Htrue. cbn [length]. f_equal.
      destruct rounds as [|round' rounds].
      * destruct budget as [|budget']; [done|]. by destruct Hne.
      * by apply (Hlast round).
  - exists [(false, evs)]. cbn [flat_map snd length removelast app].
    rewrite app_nil_r. split_and!; try done.
    + lia.
    + by apply Forall_singleton.
    + intros round [= <-]. done.
Qed.


End Announcements.

(** ** Requests on a persistent connection *)

Section Persistent.
Context `{Env}.

(** A request other than a POST leaves the input and the file system
    alone, and what it sends does not depend on them. *)
Lemma dispatch_frame req inp out fs :
  String.eqb (req_method req) "POST" = false →
  dispatch req (Connection inp out fs)
  = (fst (dispatch req (Connection [] [] fs)),
     Connection inp
       (out ++ conn_out (snd (dispatch req (Connection [] [] fs))))%list fs).
Proof.
  intros Hpost. unfold dispatch. rewrite Hpost.
  cbn [conn_fs conn_in conn_out].
  destruct (String.eqb (req_method req) "GET"); [|done].
  by destruct (handle_get _ _ _).
Qed.

Lemma handle_request_frame fs chunk rest out :
  persistent fs chunk = true →
  handle_request (Connection (Data chunk :: rest) out fs)
  = (true, Connection rest (out ++ answer fs chunk)%list fs).
Proof.
  unfold persistent, answer, lone_round.
  intros ((((Hne & Hlen)%andb_true_iff & Hblank)%andb_true_iff
           & Hreq)%andb_true_iff & Hagain)%andb_true_iff.
  apply negb_true_iff in Hne.
  revert Hagain. unfold handle_request, recv_all, sock_recv.
  cbn [conn_in conn_out conn_fs]. rewrite Hlen, Hne.
  unfold complete_head. rewrite Hblank.
  destruct (parse_http_request chunk) as [req|]; [|done].
  apply negb_true_iff in Hreq.
  destruct (valid_host_header _ _ _) as [hp|status]; [|done].
  rewrite (dispatch_frame req rest out fs Hreq).
  rewrite (dispatch_frame req [] [] fs Hreq).
  cbn [fst snd conn_out app]. by intros ->.
Qed.

Lemma serve_persistent fs budget chunks out :
  Forall (fun chunk => persistent fs chunk = true) chunks →
  serve budget (Connection (map Data chunks) out fs)
  = Connection (map Data (List.skipn budget chunks))
      (out ++ flat_map (answer fs) (List.firstn budget chunks))%list fs.
Proof.
  revert chunks out.
  induction budget as [|budget IH]; intros chunks out Hall; cbn [serve].
  { cbn [List.skipn List.firstn flat_map]. by rewrite app_nil_r. }
  destruct Hall as [|chunk chunks Hchunk Hall].
  { cbn [map List.skipn List.firstn flat_map]. by rewrite app_nil_r. }
  cbn [map]. rewrite (handle_request_frame fs chunk _ out Hchunk).
  rewrite (IH chunks _ Hall).
  cbn [List.skipn List.firstn flat_map]. by rewrite app_assoc.
Qed.

(** X15.  Requests that arrive one per segment on a connection that the
    handler keeps are answered one after the other, each as if it had come
    alone on a fresh connection, for the first [KEEP_ALIVE_MAX_REQUESTS] of
    them; the later ones are left unread, the file system is untouched, and
    the socket is shut down and closed. *)
Theorem persistent_connection_cap (fs : filesystem) (chunks : list string)
    (out : list sock_event) :
  Forall (fun chunk => persistent fs chunk = true) chunks →
  handle_client_connection (Connection (map Data chunks) out fs)
  = Connection
      (map Data (List.skipn KEEP_ALIVE_MAX_REQUESTS chunks))
      (out ++ flat_map (answer fs) (List.firstn KEEP_ALIVE_MAX_REQUESTS chunks)
           ++ [Shutdown; Closed])%list
      fs.
Proof.
  intros Hall. unfold handle_client_connection, emit.
  rewrite (serve_persistent fs _ chunks out Hall).
  cbn [conn_in conn_out conn_fs]. by rewrite app_assoc.
Qed.

End Persistent.

Lemma persistent_connection_cap_witness :
  Forall (fun chunk => persistent (H := Sample.env) Sample.tree chunk = true)
    [sample_get; sample_delete]
  ∧ handle_client_connection (H := Sample.env)
      (Connection (map Data [sample_get; sample_delete]) [] Sample.tree)
    = Connection
        (map Data (List.skipn KEEP_ALIVE_MAX_REQUESTS
                     [sample_get; sample_delete]))
        ([] ++ flat_map (answer (H := Sample.env) Sample.tree)
                 (List.firstn KEEP_ALIVE_MAX_REQUESTS
                    [sample_get; sample_delete])
            ++ [Shutdown; Closed])%list
        Sample.tree.
Proof.
  assert (Forall (fun chunk =>
                    persistent (H := Sample.env) Sample.tree chunk = true)
            [sample_get; sample_delete]) as Hall.
  { apply Forall_cons. split; [vm_refl|].
    apply Forall_cons. split; [vm_refl|]. apply Forall_nil_2. }
  split; [exact Hall|].
  apply (persistent_connection_cap (H := Sample.env) Sample.tree
           [sample_get; sample_delete] [] Hall).
Defined.

(** ** Bytes after the blank line *)

Section Pipelined.
Context `{Env}.

Lemma dispatch_ignores_body method path version headers body1 body2 c :
  String.eqb method "POST" = false →
  dispatch (Request method path version headers body1) c
  = dispatch (Request method path version headers body2) c.
Proof.
  intros Hpost. unfold dispatch.
  cbn [req_method req_path req_version req_headers]. by rewrite Hpost.
Qed.

Lemma dispatch_leaves_input req c :
  String.eqb (req_method req) "POST" = false →
  conn_in (snd (dispatch req c)) = conn_in c.
Proof.
  intros Hpost. destruct c as [inp out fs].
  by rewrite (dispatch_frame req inp out fs Hpost).
Qed.

(** X16.  Of a segment that holds a request other than a POST, the
    handler uses the bytes up to the blank line only: whatever follows the
    blank line in the segment, a second request for instance, changes nothing
    in what the handler does, and is not read again, since the round leaves
    the peer's later segments as the input. *)
Theorem bytes_after_head_dropped (line0 : string) (hdrs : list string)
    (later : string) (rest : list recv_event) (out : list sock_event)
    (fs : filesystem) :
  Forall (fun l => all_chars not_cr l = true) (line0 :: hdrs) →
  Forall (fun l => l ≠ EmptyString) hdrs →
  hd_error (words line0) ≠ Some "POST" →
  (String.length (request_text (line0 :: hdrs) later) ≤ MAX_REQUEST_READ)%nat →
  handle_request
    (Connection (Data (request_text (line0 :: hdrs) later) :: rest) out fs)
  = handle_request
      (Connection (Data (request_text (line0 :: hdrs) EmptyString) :: rest)
         out fs)
  ∧ conn_in
      (snd (handle_request
              (Connection (Data (request_text (line0 :: hdrs) later) :: rest)
                 out fs)))
    = rest.
Proof.
  intros Hcr Hne Hmethod Hlen.
  assert (∀ body, contains CRLFCRLF (request_text (line0 :: hdrs) body) = true)
    as Hblank.
  { intros body. pose proof (partition_blank_line line0 hdrs body Hcr Hne) as Hp.
    destruct (contains CRLFCRLF _) eqn:Hc; [done|].
    apply partition_None_contains in Hc. unfold request_text in Hc.
    congruence. }
  assert (∀ body, is_empty (request_text (line0 :: hdrs) body) = false)
    as Hfull.
  { intros body. specialize (Hblank body).
    by destruct (request_text (line0 :: hdrs) body). }
  assert (String.length (request_text (line0 :: hdrs) EmptyString)
          ≤ MAX_REQUEST_READ)%nat as Hlen0.
  { unfold request_text in *. rewrite !length_append in *.
    cbn [String.length] in *. lia. }
  apply Nat.leb_le in Hlen, Hlen0.
  unfold handle_request, recv_all, sock_recv.
  cbn [conn_in conn_out conn_fs]. rewrite Hlen, Hlen0, !Hfull.
  unfold complete_head. rewrite !Hblank.
  unfold parse_http_request, head_of, body_of, request_text.
  rewrite !partition_blank_line by done.
  rewrite split_joined_lines by done.
  destruct (words line0) as [|method [|path [|version [|]]]]; try done.
  cbn [hd_error] in Hmethod.
  assert (String.eqb method "POST" = false) as Hpost.
  { apply String.eqb_neq. congruence. }
  cbn [req_headers].
  destruct (valid_host_header _ _ _) as [hp|status]; [|done].
  split; [by apply dispatch_ignores_body|].
  by rewrite dispatch_leaves_input.
Qed.

End Pipelined.

Lemma bytes_after_head_dropped_witness :
  handle_request (H := Sample.env)
    (Connection
       (Data (request_text
                ["GET /index.html HTTP/1.1"; "Host: 127.0.0.1:8080"]
                sample_delete) :: [Data sample_get])
       [] Sample.tree)
  = handle_request (H := Sample.env)
      (Connection
         (Data (request_text
                  ["GET /index.html HTTP/1.1"; "Host: 127.0.0.1:8080"]
                  EmptyString) :: [Data sample_get])
         [] Sample.tree)
  ∧ conn_in
      (snd (handle_request (H := Sample.env)
              (Connection
                 (Data (request_text
                          ["GET /index.html HTTP/1.1"; "Host: 127.0.0.1:8080"]
                          sample_delete) :: [Data sample_get])
                 [] Sample.tree)))
    = [Data sample_get].
Proof.
  apply (bytes_after_head_dropped (H := Sample.env)
           "GET /index.html HTTP/1.1" ["Host: 127.0.0.1:8080"]).
  - repeat constructor.
  - repeat constructor; discriminate.
  - vm_compute. discriminate.
  - vm_compute. lia.
Defined.

(** ** What an upload changes *)

Section Footprint.
Context `{Env}.

(** X17.  What [handle_post] does to the file system.  It sends one
    response.  After a 415 or a 400 nothing has changed.  Otherwise at most
    one entry has changed, the one that the path of the upload resolves to,
    where no entry or a regular file was: after a 201 a regular file is
    there and holds the whole text that [json.dump] writes for the parsed
    body; after a 500 either nothing has changed (the file could not be
    opened), or the file was created or truncated by [open] and holds the
    characters written before the exception, possibly none.  A file that was
    there keeps its mode.  No directory or link is replaced and no entry is
    removed. *)
Theorem handle_post_footprint (fs : filesystem)
    (headers : gmap string string) (body : string) (keep_alive : bool) :
  let result := handle_post fs headers body keep_alive in
  ∃ status,
    map sent_status (fst result) = [Some status]
    ∧ if (status =? 201) || (status =? 500) then
        ∃ data,
          json_loads body = Some data
          ∧ (status = 500 ∧ snd result = fs
             ∨ ∃ comps readable written,
                 resolve fs (path_join UPLOADS_DIR upload_filename)
                 = (comps, true)
                 ∧ snd result = <[abs_path comps := File written readable]> fs
                 ∧ (fs !! abs_path comps = None
                    ∨ ∃ old, fs !! abs_path comps = Some (File old readable))
                 ∧ if status =? 201 then written = json_dump data
                   else ∃ n, write_fault = Some n
                             ∧ written = take n (json_dump data))
      else snd result = fs.
Proof.
  unfold handle_post, internal_error.
  destruct (negb _); [by exists 415|].
  destruct (json_loads body) as [data|]; [|by exists 400].
  unfold write_file, failed_write.
  destruct (open_write fs _) as [[k readable]|] eqn:Hopen.
  - apply open_write_inv in Hopen as (_ & comps & _ & Hres & -> & Hold).
    destruct write_fault as [n|] eqn:Hfault.
    + exists 500. split; [done|]. cbn [snd Z.eqb Pos.eqb orb].
      exists data. split; [done|]. right.
      exists comps, readable, (take n (json_dump data)). eauto 8.
    + exists 201. split; [done|]. cbn [snd Z.eqb Pos.eqb orb].
      exists data. split; [done|]. right.
      by exists comps, readable, (json_dump data).
  - exists 500. split; [done|]. cbn [snd Z.eqb Pos.eqb orb].
    exists data. split; [done|]. left. by destruct write_fault.
Qed.

End Footprint.
